(** * The PyInstaller bootloader utilities (bootloader/src/pyi_utils.c)

    A shallow embedding of the process-lifecycle and environment-staging
    code of [pyi_utils.c]: environment access, the scratch directory
    (creation and recursive removal), staging of the loader search path and
    the launch of the child process.

    Conventions of the embedding.
    - A C string is a [string]; [NULL] is [None].  A C string holds no NUL
      character, so [env[0]] is non-zero exactly when the string is not empty.
    - [int] values are [Z]; where the source narrows a [size_t] to [int]
      the wrap-around is written out ([to_int]).
    - The conditional compilation of the source ([_WIN32], [AIX],
      [__APPLE__], [WINDOWED], [HAVE_UNSETENV]) is a record of build flags.
    - The C library and the operating system are modelled as far as the
      source observes them: the environment as a finite map, the file
      system as a finite map from resolved paths to node kinds, signal
      dispositions as a finite map, and a log of the system calls issued.
    - Allocation is assumed to succeed; the heap is modelled only where
      a claim is about aliasing ([pyi_getenv_mem]).  The fixed-size
      buffers of the source ([PATH_MAX]) are taken as large enough in
      the first part; the parts on the extraction of files and on the
      removal with symbolic links model them with their sizes. *)

From Stdlib Require Import ZArith Lia List String Ascii Bool.
From stdpp Require Import base option list strings gmap pretty.

Open Scope Z_scope.

(** ** Build configuration *)

Record build := {
  WIN32 : bool;          (* #ifdef _WIN32 *)
  AIX : bool;            (* #ifdef AIX *)
  APPLE : bool;          (* #ifdef __APPLE__ *)
  WINDOWED : bool;       (* #ifdef WINDOWED *)
  HAVE_UNSETENV : bool   (* #if HAVE_UNSETENV *)
}.

Definition linux : build :=
  {| WIN32 := false; AIX := false; APPLE := false; WINDOWED := false;
     HAVE_UNSETENV := true |}.
Definition aix : build :=
  {| WIN32 := false; AIX := true; APPLE := false; WINDOWED := false;
     HAVE_UNSETENV := false |}.
Definition macos_windowed : build :=
  {| WIN32 := false; AIX := false; APPLE := true; WINDOWED := true;
     HAVE_UNSETENV := true |}.
Definition windows : build :=
  {| WIN32 := true; AIX := false; APPLE := false; WINDOWED := false;
     HAVE_UNSETENV := false |}.

(** ** C integers and strings *)

(** A value converted to a 32-bit [int]. *)
Definition to_int (z : Z) : Z := (z + 2 ^ 31) mod 2 ^ 32 - 2 ^ 31.

(** [strlen], and its result stored in an [int] variable. *)
Definition strlen (s : string) : Z := Z.of_nat (String.length s).
Definition strlen_int (s : string) : Z := to_int (strlen s).

(** [strcat(result, s)] on a buffer that is large enough. *)
Definition strcat (result s : string) : string := result +:+ s.

(** The last character [s[strlen(s) - 1]] of a non-empty string. *)
Fixpoint last_char (s : string) : option ascii :=
  match s with
  | EmptyString => None
  | String c EmptyString => Some c
  | String _ s' => last_char s'
  end.

(** [strstr(haystack, needle)]: the offset of the first occurrence. *)
Definition strstr (haystack needle : string) : option nat :=
  String.index 0 needle haystack.

(** [pyi_strjoin]: any argument may be [NULL]. *)
Definition pyi_strjoin (first sep second : option string) : string :=
  let first_len := from_option strlen_int 0 first in
  let sep_len := from_option strlen_int 0 sep in
  let second_len := from_option strlen_int 0 second in
  let result := EmptyString in
  let result :=
    if bool_decide (first_len ≠ 0) then strcat result (default EmptyString first)
    else result in
  let result :=
    if bool_decide (sep_len ≠ 0) && bool_decide (first_len ≠ 0)
       && bool_decide (second_len ≠ 0)
    then strcat result (default EmptyString sep) else result in
  let result :=
    if bool_decide (second_len ≠ 0) then strcat result (default EmptyString second)
    else result in
  result.

(** ** The process environment *)

(** The environment maps a variable name to its value.  On Windows names
    and values are wide strings; they are kept in the same string type and
    converted by the helpers of [pyi_win32_utils.c]. *)
Abbreviation wstring := string (only parsing).
Abbreviation environment := (gmap string string) (only parsing).

(** Functions that [pyi_utils.c] calls and that live outside it: the
    UTF-8 helpers of [pyi_win32_utils.c], [pyi_path_fullpath] of
    [pyi_path.c], and the Windows calls whose results depend on more than
    the environment map. *)
Class Externs := {
  (* pyi_win32_utils_from_utf8(NULL, s, 0): NULL when the conversion fails *)
  pyi_win32_utils_from_utf8 : string → option wstring;
  (* pyi_win32_utils_to_utf8(NULL, w, 0): NULL when the conversion fails *)
  pyi_win32_utils_to_utf8 : wstring → option string;
  (* ExpandEnvironmentStringsW(src, dst, n): the count returned and dst *)
  ExpandEnvironmentStringsW : environment → wstring → Z * wstring;
  (* pyi_path_fullpath(abs, PATH_MAX, rel): the absolute path written *)
  pyi_path_fullpath : string → string;
  (* GetTempPathW: the directory the system designates for temporary files *)
  GetTempPathW : environment → wstring;
  (* swprintf(prefix, 16, L"_MEI%d", getpid()) *)
  wprefix_MEI_pid : wstring
}.

(** POSIX [getenv], [setenv] and [unsetenv] on the value level. *)
Definition getenv (variable : string) (e : environment) : option string :=
  e !! variable.

Definition env_name_ok (variable : string) : bool :=
  negb (String.eqb variable EmptyString)
  && negb (existsb (Ascii.eqb "=") (list_ascii_of_string variable)).

Definition setenv (variable value : string) (overwrite : bool)
    (e : environment) : environment * Z :=
  if env_name_ok variable then
    if overwrite || bool_decide (e !! variable = None)
    then (<[variable := value]> e, 0)
    else (e, 0)
  else (e, -1).

Definition unsetenv (variable : string) (e : environment)
    : environment * Z :=
  if env_name_ok variable then (delete variable e, 0) else (e, -1).

(** Windows: [GetEnvironmentVariableW] returns the number of characters
    stored together with the buffer, 0 when the variable does not exist
    (or is empty, or the name is [NULL]).  The environment is the
    environment block of the process, which a child inherits; the copy
    that the C runtime keeps is not modelled apart from it. *)
Definition GetEnvironmentVariableW (wvar : option wstring)
    (e : environment) : Z * wstring :=
  match wvar with
  | Some n =>
      match e !! n with
      | Some w => (strlen w, w)
      | None => (0, EmptyString)
      end
  | None => (0, EmptyString)
  end.

(** [_wputenv_s(name, value)]: an empty value removes the variable. *)
Definition _wputenv_s (wvar wval : option wstring) (e : environment)
    : environment * Z :=
  match wvar, wval with
  | Some n, Some w =>
      if String.eqb w EmptyString then (delete n e, 0)
      else (<[n := w]> e, 0)
  | _, _ => (e, 22)
  end.

(** [SetEnvironmentVariableW(name, NULL)] deletes the variable; the result
    is non-zero on success. *)
Definition SetEnvironmentVariableW_NULL (wvar : option wstring)
    (e : environment) : environment * Z :=
  match wvar with
  | Some n => (delete n e, 1)
  | None => (e, 0)
  end.

Section EnvironmentAccess.
Context `{Externs}.
Variable b : build.

(** The value of [env] in [pyi_getenv] before its [return]: on Windows the
    converted contents of [wenv], elsewhere the result of [getenv]. *)
Definition pyi_getenv_env (variable : string) (e : environment)
    : option string :=
  if WIN32 b then
    let wenv : option wstring := None in
    let wvar := pyi_win32_utils_from_utf8 variable in
    let '(rc, buf1) := GetEnvironmentVariableW wvar e in
    let wenv :=
      if bool_decide (rc > 0) then
        let wenv := Some buf1 in
        (* Expand environment variables like %VAR% in value. *)
        let '(rc, buf2) := ExpandEnvironmentStringsW e buf1 in
        if bool_decide (rc > 0) then Some buf1 else wenv
      else wenv in
    match wenv with
    | Some w => pyi_win32_utils_to_utf8 w
    | None => None
    end
  else getenv variable e.

(** [pyi_getenv]: the string copy that is returned, or [NULL]. *)
Definition pyi_getenv (variable : string) (e : environment)
    : option string :=
  match pyi_getenv_env variable e with
  | Some s => if negb (String.eqb s EmptyString) then Some s else None
  | None => None
  end.

(** [pyi_setenv]. *)
Definition pyi_setenv (variable value : string) (e : environment)
    : environment * Z :=
  if WIN32 b then
    let wvar := pyi_win32_utils_from_utf8 variable in
    let wval := pyi_win32_utils_from_utf8 value in
    _wputenv_s wvar wval e
  else setenv variable value true e.

(** [pyi_unsetenv]. *)
Definition pyi_unsetenv (variable : string) (e : environment)
    : environment * Z :=
  if WIN32 b then
    let wvar := pyi_win32_utils_from_utf8 variable in
    SetEnvironmentVariableW_NULL wvar e
  else if HAVE_UNSETENV b then unsetenv variable e
  else setenv variable EmptyString true e.

(** The names [env_var] and [env_var_orig] of [set_dynamic_library_path]:
    LIBPATH is used on AIX, LD_LIBRARY_PATH on the other platforms. *)
Definition env_var : string :=
  if AIX b then "LIBPATH" else "LD_LIBRARY_PATH".
Definition env_var_orig : string :=
  if AIX b then "LIBPATH_ORIG" else "LD_LIBRARY_PATH_ORIG".

(** [set_dynamic_library_path] (not compiled on Windows). *)
Definition set_dynamic_library_path (path : string) (e : environment)
    : environment * Z :=
  let orig_path := pyi_getenv env_var e in
  let e :=
    match orig_path with
    | Some o => fst (pyi_setenv env_var_orig o e)
    | None => e
    end in
  let new_path := pyi_strjoin (Some path) (Some ":"%string) orig_path in
  pyi_setenv env_var new_path e.

End EnvironmentAccess.

(** ** Environment access on the level of memory blocks

    [getenv] returns a pointer into the environment itself, [strdup] a
    freshly allocated block.  The heap maps a block to the C string it
    holds; [environ] maps a variable to the block that holds its value. *)

Abbreviation loc := positive (only parsing).

Record memory := {
  heap : gmap loc string;
  environ : gmap string loc
}.

(** The environment as the C library reads it from memory. *)
Definition env_view (m : memory) : environment :=
  omap (λ p : loc, heap m !! p) (environ m).

(** [malloc] never returns a block that is in use. *)
Definition malloc_string (s : string) (m : memory) : memory * loc :=
  let l : loc := fresh (dom (heap m) ∪ map_img (environ m)) in
  ({| heap := <[l := s]> (heap m); environ := environ m |}, l).

Definition getenv_mem (variable : string) (m : memory) : option loc :=
  environ m !! variable.

Definition strdup (p : loc) (m : memory) : memory * option loc :=
  match heap m !! p with
  | Some s => let '(m', l) := malloc_string s m in (m', Some l)
  | None => (m, None)
  end.

(** Overwriting the string held by block [p], as a caller that mutates the
    returned string does. *)
Definition poke (p : loc) (s : string) (m : memory) : memory :=
  {| heap := <[p := s]> (heap m); environ := environ m |}.

(** [pyi_getenv] on POSIX: [(env && env[0]) ? strdup(env) : NULL]. *)
Definition pyi_getenv_mem (variable : string) (m : memory)
    : memory * option loc :=
  let env := getenv_mem variable m in
  match env with
  | Some p =>
      match heap m !! p with
      | Some s =>
          if negb (String.eqb s EmptyString) then strdup p m else (m, None)
      | None => (m, None)
      end
  | None => (m, None)
  end.

(** [pyi_getenv] on Windows: the value is copied out of the environment
    block of the process, which the program cannot address, into [buf1];
    [pyi_win32_utils_to_utf8] allocates the block [env] and [strdup]
    another one. *)
Definition pyi_getenv_mem_win32 `{Externs} (variable : string)
    (e : environment) (m : memory) : memory * option loc :=
  match pyi_getenv_env windows variable e with
  | Some s =>
      let '(m1, env) := malloc_string s m in
      if negb (String.eqb s EmptyString) then strdup env m1
      else (m1, None)
  | None => (m, None)
  end.

(** The value stored for [variable], under the name the platform uses. *)
Definition stored_value `{Externs} (b : build) (variable : string)
    (e : environment) : option string :=
  if WIN32 b then pyi_win32_utils_from_utf8 variable ≫= (e !!.)
  else e !! variable.

(** ** An instance of the external functions, for examples

    Wide strings and UTF-8 strings coincide on ASCII text, and
    [expand_refs] replaces each [%NAME%] whose NAME is defined, as
    ExpandEnvironmentStringsW is documented to do. *)

Fixpoint until_percent (s : string) : option (string * string) :=
  match s with
  | EmptyString => None
  | String c s' =>
      if Ascii.eqb c "%" then Some (EmptyString, s')
      else match until_percent s' with
           | Some (a, r) => Some (String c a, r)
           | None => None
           end
  end.

Fixpoint expand_refs (fuel : nat) (e : environment) (s : string) : string :=
  match fuel with
  | O => s
  | S fuel =>
      match s with
      | EmptyString => EmptyString
      | String c s' =>
          if Ascii.eqb c "%" then
            match until_percent s' with
            | Some (name, rest) =>
                match e !! name with
                | Some v => v +:+ expand_refs fuel e rest
                | None => String c (expand_refs fuel e s')
                end
            | None => s
            end
          else String c (expand_refs fuel e s')
      end
  end.

Definition ascii_externs : Externs := {|
  pyi_win32_utils_from_utf8 := Some;
  pyi_win32_utils_to_utf8 := Some;
  ExpandEnvironmentStringsW := λ e w,
    let r := expand_refs (String.length w) e w in (strlen r + 1, r);
  pyi_path_fullpath := λ p,
    match p with
    | String "/" _ => p
    | _ => ("/cwd/" +:+ p)%string
    end;
  GetTempPathW := λ e, default "/windows/temp"%string (e !! "TMP"%string);
  wprefix_MEI_pid := "_MEI4242"%string
|}.

(** The round trip of library-path staging in the words of the
    specification: the variable holds [path], the separator and the prior
    value [V] (just [path] when [V] was absent or empty); the shadow
    variable holds [V] when [V] was present and is untouched otherwise. *)
Definition staging_as_specified `{Externs} (b : build) (path : string)
    (e : environment) : Prop :=
  let e' := (set_dynamic_library_path b path e).1 in
  e' !! env_var b =
    Some (match e !! env_var b with
          | Some V =>
              if bool_decide (V = EmptyString) then path
              else (path +:+ ":" +:+ V)%string
          | None => path
          end)
  ∧ e' !! env_var_orig b =
      match e !! env_var b with
      | Some V => Some V
      | None => e !! env_var_orig b
      end.

(** ** The file system

    A path string is resolved into its components; the file system maps
    the resolved path of every existing node to its kind.  The root [[]]
    always exists.  This is a file system of plain files and directories
    in which no call is refused for lack of permission; paths are taken
    by their text: relative paths are resolved from the root and the
    names "." and ".." are not interpreted.  The part on the removal with
    symbolic links ([Links]) gives the file system with links,
    permissions, working directory and the limits on the lengths of
    paths, and shows that its calls agree with the calls of this section
    where there are no links.  [PYI_SEP] and [PYI_SEPSTR] come from
    [pyi_global.h]; on POSIX they are the slash. *)

Definition PYI_SEP : ascii := "/"%char.
Definition PYI_SEPSTR : string := "/"%string.

Inductive node_kind := KFile | KDir.

#[global] Instance node_kind_eq_dec : EqDecision node_kind.
Proof. solve_decision. Defined.

Abbreviation filesystem := (gmap (list string) node_kind) (only parsing).

(** The pieces of [s] between separators (a non-empty list). *)
Fixpoint split_sep (s : string) : list string :=
  match s with
  | EmptyString => [EmptyString]
  | String c s' =>
      if Ascii.eqb c PYI_SEP then EmptyString :: split_sep s'
      else match split_sep s' with
           | h :: t => String c h :: t
           | [] => [String c EmptyString]
           end
  end.

Definition resolve (p : string) : list string :=
  filter (λ c, c ≠ EmptyString) (split_sep p).

Definition lookup_node (k : list string) (fs : filesystem)
    : option node_kind :=
  if decide (k = []) then Some KDir else fs !! k.

(** [k] lies strictly below [d]. *)
Definition below (d k : list string) : Prop := d `prefix_of` k ∧ d ≠ k.

#[global] Instance below_dec (d k : list string) : Decision (below d k).
Proof. unfold below. apply _. Defined.

Definition has_entries (d : list string) (fs : filesystem) : bool :=
  bool_decide (map_Exists (λ k _, below d k) fs).

(** Calls recorded in the trace of the process. *)
Inductive call :=
  | SysStat (p : string) (rc : Z)
  | SysOpendir (p : string) (rc : Z)
  | SysUnlink (p : string) (rc : Z)
  | SysRmdir (p : string) (rc : Z)
  | SysMkdir (p : string) (rc : Z)
  | LibMkdtemp (template : string) (result : option string)
  | LibWtempnam (tmp : option string) (result : option string)
  | LogFatal (msg : string).

(** The part of the world the scratch-directory code acts on: the
    environment, the file system, the names the temporary-name generator of
    the C library is going to draw, and the trace of calls. *)
Record world := {
  w_env : gmap string string;
  w_fs : gmap (list string) node_kind;
  w_names : list string;
  w_trace : list call
}.

Definition set_env (e : environment) (w : world) : world :=
  {| w_env := e; w_fs := w_fs w; w_names := w_names w;
     w_trace := w_trace w |}.
Definition set_fs (fs : filesystem) (w : world) : world :=
  {| w_env := w_env w; w_fs := fs; w_names := w_names w;
     w_trace := w_trace w |}.
Definition set_names (ns : list string) (w : world) : world :=
  {| w_env := w_env w; w_fs := w_fs w; w_names := ns;
     w_trace := w_trace w |}.
Definition log (c : call) (w : world) : world :=
  {| w_env := w_env w; w_fs := w_fs w; w_names := w_names w;
     w_trace := w_trace w ++ [c] |}.

Definition ENOENT : Z := 2.
Definition EEXIST : Z := 17.
Definition ENOTDIR : Z := 20.
Definition ENAMETOOLONG : Z := 36.

(** [NAME_MAX] of [<limits.h>]: a name in a directory has at most this
    many characters, and a call that is to create a node fails with
    ENAMETOOLONG when a component of its path is longer. *)
Definition NAME_MAX : Z := 255.

Definition names_fit (k : list string) : Prop :=
  Forall (λ c, strlen c ≤ NAME_MAX) k.

#[global] Instance names_fit_dec (k : list string) : Decision (names_fit k).
Proof. unfold names_fit. apply _. Defined.

(** [stat]: the kind of the node, [None] when the call fails. *)
Definition stat (p : string) (w : world) : world * option node_kind :=
  let r := lookup_node (resolve p) (w_fs w) in
  (log (SysStat p (match r with Some _ => 0 | None => -1 end)) w, r).

Definition S_ISDIR (k : node_kind) : bool :=
  match k with KDir => true | KFile => false end.

(** [unlink] removes a file. *)
Definition unlink (p : string) (w : world) : world :=
  let k := resolve p in
  match w_fs w !! k with
  | Some KFile => log (SysUnlink p 0) (set_fs (delete k (w_fs w)) w)
  | _ => log (SysUnlink p (-1)) w
  end.

(** [rmdir] removes a directory that has no entries. *)
Definition rmdir (p : string) (w : world) : world :=
  let k := resolve p in
  match w_fs w !! k with
  | Some KDir =>
      if has_entries k (w_fs w) then log (SysRmdir p (-1)) w
      else log (SysRmdir p 0) (set_fs (delete k (w_fs w)) w)
  | _ => log (SysRmdir p (-1)) w
  end.

(** [mkdir]: the error number, 0 on success. *)
Definition mkdir_errno (k : list string) (fs : filesystem) : Z :=
  if bool_decide (names_fit k) then
    match lookup_node k fs with
    | Some _ => EEXIST
    | None =>
        match lookup_node (removelast k) fs with
        | Some KDir => 0
        | Some KFile => ENOTDIR
        | None => ENOENT
        end
    end
  else ENAMETOOLONG.

Definition mkdir (p : string) (w : world) : world * Z :=
  let k := resolve p in
  let err := mkdir_errno k (w_fs w) in
  if bool_decide (err = 0)
  then (log (SysMkdir p 0) (set_fs (<[k := KDir]> (w_fs w)) w), 0)
  else (log (SysMkdir p (-1)) w, err).

(** ** Creation of the scratch directory *)

(** The stem of a template: [template = stem ++ "XXXXXX"]. *)
Fixpoint template_stem (template : string) : option string :=
  if String.eqb template "XXXXXX" then Some EmptyString
  else match template with
       | EmptyString => None
       | String c t => String c <$> template_stem t
       end.

(** [mkdtemp]: the generator draws names until [mkdir] succeeds; a name
    that exists is skipped, any other error ends the call. *)
Fixpoint mkdtemp_loop (stem : string) (names : list string) (w : world)
    : world * option string :=
  match names with
  | [] => (set_names [] w, None)
  | n :: names' =>
      let p := (stem +:+ n)%string in
      let '(w1, err) := mkdir p w in
      if bool_decide (err = 0) then (set_names names' w1, Some p)
      else if bool_decide (err = EEXIST) then mkdtemp_loop stem names' w1
      else (set_names names' w1, None)
  end.

Definition mkdtemp (template : string) (w : world)
    : world * option string :=
  match template_stem template with
  | Some stem =>
      let '(w1, r) := mkdtemp_loop stem (w_names w) w in
      (log (LibMkdtemp template r) w1, r)
  | None => (log (LibMkdtemp template None) w, None)
  end.

(** [pyi_test_temp_path]: the buffer after the call and the result. *)
Definition pyi_test_temp_path (buff : string) (w : world)
    : world * string * Z :=
  let buff :=
    if bool_decide (last_char buff ≠ Some PYI_SEP)
    then strcat buff PYI_SEPSTR else buff in
  let buff := strcat buff "_MEIXXXXXX" in
  match mkdtemp buff w with
  | (w1, Some created) => (w1, created, 1)
  | (w1, None) => (w1, buff, 0)
  end.

(** The two loops of the POSIX [pyi_get_temp_path]. *)
Fixpoint probe_envname `{Externs} (b : build) (envname : list string)
    (buff : string) (w : world) : world * string * bool :=
  match envname with
  | [] => (w, buff, false)
  | name :: rest =>
      match pyi_getenv b name (w_env w) with
      | Some p =>
          let '(w1, buff1, rc) := pyi_test_temp_path p w in
          if bool_decide (rc ≠ 0) then (w1, buff1, true)
          else probe_envname b rest buff1 w1
      | None => probe_envname b rest buff w
      end
  end.

Fixpoint probe_dirname (dirname : list string) (buff : string) (w : world)
    : world * string * bool :=
  match dirname with
  | [] => (w, buff, false)
  | d :: rest =>
      let '(w1, buff1, rc) := pyi_test_temp_path d w in
      if bool_decide (rc ≠ 0) then (w1, buff1, true)
      else probe_dirname rest buff1 w1
  end.

Definition envname : list string := ["TMPDIR"; "TEMP"; "TMP"]%string.
Definition dirname : list string := ["/tmp"; "/var/tmp"; "/usr/tmp"]%string.

Definition pyi_get_temp_path_posix `{Externs} (b : build) (buff : string)
    (runtime_tmpdir : option string) (w : world) : world * string * Z :=
  match runtime_tmpdir with
  | Some dir =>
      let '(w1, buff1, rc) := pyi_test_temp_path dir w in
      if bool_decide (rc ≠ 0) then (w1, buff1, 1) else (w1, buff1, 0)
  | None =>
      let '(w1, buff1, found) := probe_envname b envname buff w in
      if found then (w1, buff1, 1)
      else
        let '(w2, buff2, found) := probe_dirname dirname buff1 w1 in
        if found then (w2, buff2, 1) else (w2, buff2, 0)
  end.

(** Windows: [_wtempnam] proposes a name in the directory named by TMP if
    that is set and exists, else in [dir], else in the root; [_wmkdir]
    creates it. *)
Definition is_directory (p : string) (w : world) : bool :=
  bool_decide (lookup_node (resolve p) (w_fs w) = Some KDir).

Definition _wtempnam (dir prefix : wstring) (w : world)
    : world * option wstring :=
  let tmp := w_env w !! "TMP"%string in
  match w_names w with
  | [] => (log (LibWtempnam tmp None) w, None)
  | n :: ns =>
      let base :=
        match tmp with
        | Some t => if is_directory t w then t
                    else if is_directory dir w then dir else EmptyString
        | None => if is_directory dir w then dir else EmptyString
        end in
      let r := (base +:+ "/" +:+ prefix +:+ n)%string in
      (log (LibWtempnam tmp (Some r)) (set_names ns w), Some r)
  end.

Definition _wmkdir (p : option wstring) (w : world) : world * Z :=
  match p with
  | Some p =>
      let '(w1, err) := mkdir p w in
      (w1, if bool_decide (err = 0) then 0 else -1)
  | None => (w, -1)
  end.

Section ScratchDirectory.
Context `{Externs}.

(** "Restore TMP to what it was". *)
Definition restore_TMP (original_tmpdir : option string) (w : world)
    : world :=
  match original_tmpdir with
  | Some o => set_env (pyi_setenv windows "TMP" o (w_env w)).1 w
  | None => set_env (pyi_unsetenv windows "TMP" (w_env w)).1 w
  end.

(** The loop [for (i = 0; i < 5; i++)] of the Windows [pyi_get_temp_path],
    with [n] iterations left; the last component is true when the loop
    body returned 1. *)
Fixpoint win32_attempts (n : nat) (wchar_buffer prefix : wstring)
    (runtime_tmpdir original_tmpdir : option string) (buffer : string)
    (w : world) : world * string * bool :=
  match n with
  | O => (w, buffer, false)
  | S n' =>
      let '(w1, wchar_ret) := _wtempnam wchar_buffer prefix w in
      let '(w2, rc) := _wmkdir wchar_ret w1 in
      if bool_decide (rc = 0) then
        let buffer :=
          default buffer (wchar_ret ≫= pyi_win32_utils_to_utf8) in
        let w3 :=
          match runtime_tmpdir with
          | Some _ => restore_TMP original_tmpdir w2
          | None => w2
          end in
        (w3, buffer, true)
      else
        win32_attempts n' wchar_buffer prefix runtime_tmpdir
          original_tmpdir buffer w2
  end.

Definition pyi_get_temp_path_win32 (buffer : string)
    (runtime_tmpdir : option string) (w : world) : world * string * Z :=
  let '(w1, original_tmpdir) :=
    match runtime_tmpdir with
    | Some dir =>
        let original_tmpdir := pyi_getenv windows "TMP" (w_env w) in
        let runtime_tmpdir_abspath := pyi_path_fullpath dir in
        (set_env
           (pyi_setenv windows "TMP" runtime_tmpdir_abspath (w_env w)).1 w,
         original_tmpdir)
    | None => (w, None)
    end in
  let wchar_buffer := GetTempPathW (w_env w1) in
  let prefix := wprefix_MEI_pid in
  let '(w2, buffer2, returned) :=
    win32_attempts 5 wchar_buffer prefix runtime_tmpdir original_tmpdir
      buffer w1 in
  if returned then (w2, buffer2, 1)
  else
    let w3 :=
      match runtime_tmpdir with
      | Some _ => restore_TMP original_tmpdir w2
      | None => w2
      end in
    (w3, buffer2, 0).

Definition pyi_get_temp_path (b : build) (buffer : string)
    (runtime_tmpdir : option string) (w : world) : world * string * Z :=
  if WIN32 b then pyi_get_temp_path_win32 buffer runtime_tmpdir w
  else pyi_get_temp_path_posix b buffer runtime_tmpdir w.

(** The fields of ARCHIVE_STATUS (declared in [pyi_archive.h]) that
    [pyi_utils.c] uses, with the archive options as a map. *)
Record ARCHIVE_STATUS := {
  has_temp_directory : bool;
  temppath : string;
  homepath : string;
  options : gmap string string
}.

(** Modelled from the spec: [pyi_arch_get_option] lives in
    [pyi_archive.c], which is not part of the sources at hand; the
    specification gives it as [get_option(key) -> optional string]. *)
Definition pyi_arch_get_option (status : ARCHIVE_STATUS) (key : string)
    : option string :=
  options status !! key.

(** [pyi_create_temp_path]. *)
Definition pyi_create_temp_path (b : build) (status : ARCHIVE_STATUS)
    (w : world) : ARCHIVE_STATUS * world * Z :=
  if negb (has_temp_directory status) then
    let runtime_tmpdir := pyi_arch_get_option status "pyi-runtime-tmpdir" in
    let '(w1, buffer, rc) :=
      pyi_get_temp_path b (temppath status) runtime_tmpdir w in
    let status1 :=
      {| has_temp_directory := has_temp_directory status;
         temppath := buffer; homepath := homepath status;
         options := options status |} in
    if bool_decide (rc = 0) then
      (status1,
       log (LogFatal "INTERNAL ERROR: cannot create temporary directory!")
         w1,
       -1)
    else
      ({| has_temp_directory := true; temppath := buffer;
          homepath := homepath status; options := options status |},
       w1, 0)
  else (status, w, 0).

End ScratchDirectory.

(** ** Recursive removal of the scratch directory (POSIX) *)

(** A run ends normally, or dereferences the NULL that [opendir] returned
    ([readdir(NULL)]), or exceeds the recursion depth given to the model. *)
Inductive outcome (A : Type) :=
  | Done (a : A)
  | Crash
  | OutOfFuel.
Arguments Done {A} a.
Arguments Crash {A}.
Arguments OutOfFuel {A}.

Definition obind {A B : Type} (x : outcome A) (f : A → outcome B)
    : outcome B :=
  match x with
  | Done a => f a
  | Crash => Crash
  | OutOfFuel => OutOfFuel
  end.

(** The [while (finfo)] loop over the entries that [readdir] returns. *)
Fixpoint readdir_loop (body : string → world → outcome world)
    (entries : list string) (w : world) : outcome world :=
  match entries with
  | [] => Done w
  | d_name :: rest => obind (body d_name w) (readdir_loop body rest)
  end.

(** [remove_one], with the recursive call to [pyi_remove_temp_path] as
    the argument [recurse]. *)
Definition remove_one (recurse : string → world → outcome world)
    (pnm : string) (pos : Z) (fnm : string) (w : world) : outcome world :=
  if String.eqb fnm "." || String.eqb fnm ".." then Done w
  else
    let pnm := strcat (substring 0 (Z.to_nat pos) pnm) fnm in
    match stat pnm w with
    | (w1, Some sbuf) =>
        if S_ISDIR sbuf then recurse pnm w1 else Done (unlink pnm w1)
    | (w1, None) => Done w1
    end.

Section Removal.
(** All the names that the [readdir] loop returns for the directory with
    the given resolved path.  Besides the entries of the directory it may
    hold ".", "..", and names that stopped existing after they were listed. *)
Variable readdir_all : list string → filesystem → list string.

Fixpoint pyi_remove_temp_path (fuel : nat) (dir : string) (w : world)
    : outcome world :=
  match fuel with
  | O => OutOfFuel
  | S fuel' =>
      let fnm := dir in
      let dirnmlen := strlen fnm in
      let '(fnm, dirnmlen) :=
        if bool_decide (last_char fnm ≠ Some PYI_SEP)
        then (strcat fnm PYI_SEPSTR, dirnmlen + 1)
        else (fnm, dirnmlen) in
      match lookup_node (resolve dir) (w_fs w) with
      | Some KDir =>
          let w1 := log (SysOpendir dir 0) w in
          let entries := readdir_all (resolve dir) (w_fs w1) in
          obind
            (readdir_loop
               (remove_one (pyi_remove_temp_path fuel') fnm dirnmlen)
               entries w1)
            (λ w2, Done (rmdir dir w2))
      | _ => Crash
      end
  end.

End Removal.

(** A name as [readdir] returns it: not empty and without a separator. *)
Definition entry_name (n : string) : Prop :=
  n ≠ EmptyString ∧ split_sep n = [n].

(** [k] without its prefix [d], and the name of [k] when it is an entry
    of the directory [d]. *)
Fixpoint drop_prefix (d k : list string) : option (list string) :=
  match d, k with
  | [], _ => Some k
  | x :: d', y :: k' => if decide (x = y) then drop_prefix d' k' else None
  | _ :: _, [] => None
  end.

Definition child_name (d k : list string) : option string :=
  match drop_prefix d k with
  | Some [n] => Some n
  | _ => None
  end.

(** A listing for examples: the entries of the directory, computed from
    the file system, preceded by ".", ".." and one name that has
    vanished. *)
Definition readdir_with_ghost (d : list string) (fs : filesystem)
    : list string :=
  "."%string :: ".."%string :: "vanished"%string
    :: omap (child_name d) (map fst (map_to_list fs)).

(** ** Predicates to state what the removal does *)

(** A name that a directory entry can have. *)
Definition proper_name (n : string) : Prop :=
  n ≠ EmptyString ∧ n ≠ "."%string ∧ n ≠ ".."%string ∧ split_sep n = [n].

#[global] Instance proper_name_dec (n : string) : Decision (proper_name n).
Proof. unfold proper_name. apply _. Defined.

(** Every node has proper names on its path and lies in a directory. *)
Definition fs_wf (fs : filesystem) : Prop :=
  map_Forall
    (λ k _, Forall proper_name k ∧ k ≠ []
            ∧ lookup_node (removelast k) fs = Some KDir) fs.

(** No node at or below [d] lies [fuel] or more levels below [d]. *)
Definition depth_ok (d : list string) (fuel : nat) (fs : filesystem)
    : Prop :=
  map_Forall
    (λ k _, d `prefix_of` k → (length k < length d + fuel)%nat) fs.

(** A recursion depth that is enough for every tree of [fs]: one more
    than the length of its longest path. *)
Definition tree_fuel (fs : filesystem) : nat :=
  S (max_list ((λ kv, length kv.1) <$> map_to_list fs)).

(** The nodes removed by the calls of a trace, in order. *)
Definition removal (c : call) : option (list string) :=
  match c with
  | SysUnlink p rc | SysRmdir p rc =>
      if bool_decide (rc = 0) then Some (resolve p) else None
  | _ => None
  end.

Definition removed (tr : list call) : list (list string) := omap removal tr.

(** A node is removed after everything below it. *)
Definition postorder (l : list (list string)) : Prop :=
  ∀ i j p q, l !! i = Some p → l !! j = Some q → below p q → (j < i)%nat.

(** From [w] to [w'] nodes are only removed, only inside [region], each
    removal is in the trace [tr] and nothing else changes. *)
Definition shrinks (region : list string → Prop) (w w' : world)
    (tr : list call) : Prop :=
  fs_wf (w_fs w')
  ∧ (∀ k, w_fs w' !! k = None ∨ w_fs w' !! k = w_fs w !! k)
  ∧ (∀ k, ¬ region k → w_fs w' !! k = w_fs w !! k)
  ∧ w_env w' = w_env w
  ∧ w_names w' = w_names w
  ∧ w_trace w' = w_trace w ++ tr
  ∧ (∀ k, k ∈ removed tr ↔ is_Some (w_fs w !! k) ∧ w_fs w' !! k = None)
  ∧ postorder (removed tr).

(** The call [pyi_remove_temp_path dir] took [w] to [w']: nothing at or
    below [dir] is left, nothing else changed, and the last call is the
    successful [rmdir dir]. *)
Definition removes_tree (dir : string) (w w' : world) : Prop :=
  ∃ tr,
    shrinks (λ k, resolve dir `prefix_of` k) w w' (tr ++ [SysRmdir dir 0])
    ∧ ∀ k, resolve dir `prefix_of` k → w_fs w' !! k = None.

(** ** Predicates to state what the creation of the scratch directory does *)

(** The candidate roots of the POSIX [pyi_get_temp_path] without an
    override: the values of the variables of [envname] that
    [pyi_getenv] finds, then the directories of [dirname]. *)
Definition candidates `{Externs} (b : build) (e : environment)
    : list string :=
  omap (λ name, pyi_getenv b name e) envname ++ dirname.

(** The first candidate under which [pyi_test_temp_path] succeeds. *)
Fixpoint first_created (cands : list string) (buff : string) (w : world)
    : world * string * Z :=
  match cands with
  | [] => (w, buff, 0)
  | c :: rest =>
      let '(w1, buff1, rc) := pyi_test_temp_path c w in
      if bool_decide (rc ≠ 0) then (w1, buff1, 1)
      else first_created rest buff1 w1
  end.

Definition is_mkdir (c : call) : Prop :=
  match c with SysMkdir _ _ => True | _ => False end.

Definition is_wtempnam (c : call) : bool :=
  match c with LibWtempnam _ _ => true | _ => false end.

(** The number of names that [_wtempnam] was asked for in a trace. *)
Definition attempts (tr : list call) : nat :=
  length (filter (λ c, is_wtempnam c = true) tr).

(** The values of TMP that the calls of [_wtempnam] in a trace saw. *)
Definition tmp_seen (tr : list call) : list (option string) :=
  omap (λ c, match c with LibWtempnam tmp _ => Some tmp | _ => None end) tr.

(** The names that the calls of [_wtempnam] in a trace returned, and the
    results of its [mkdir] calls, in order. *)
Definition proposals (tr : list call) : list (option string) :=
  omap (λ c, match c with LibWtempnam _ r => Some r | _ => None end) tr.

Definition mkdir_results (tr : list call) : list Z :=
  omap (λ c, match c with SysMkdir _ rc => Some rc | _ => None end) tr.

(** The directory with the resolved path [k] was created from [w] to [w']. *)
Definition created (k : list string) (w w' : world) : Prop :=
  w_fs w !! k = None ∧ w_fs w' !! k = Some KDir.

(** [path], as the platform stores it, names the node [k]. *)
Definition denotes `{Externs} (b : build) (path : string)
    (k : list string) : Prop :=
  if WIN32 b
  then ∃ wpath, pyi_win32_utils_to_utf8 wpath = Some path
                ∧ resolve wpath = k
  else resolve path = k.

(** [buff] with the directory separator appended where it was missing,
    and the template that [pyi_test_temp_path] passes to [mkdtemp]. *)
Definition with_sep (buff : string) : string :=
  if bool_decide (last_char buff ≠ Some PYI_SEP)
  then strcat buff PYI_SEPSTR else buff.

Definition template_of (buff : string) : string :=
  strcat (with_sep buff) "_MEIXXXXXX".

(** ** Worlds for examples *)

Definition empty_status : ARCHIVE_STATUS :=
  {| has_temp_directory := false; temppath := EmptyString;
     homepath := "/opt/app"%string; options := ∅ |}.

(** TMPDIR names a directory that does not exist; /tmp exists. *)
Definition world_with_tmp : world :=
  {| w_env := {[ "TMPDIR"%string := "/var/folders"%string ]};
     w_fs := {[ ["tmp"%string] := KDir ]};
     w_names := ["aaaaaa"; "bbbbbb"; "cccccc"; "dddddd"; "eeeeee";
                 "ffffff"]%string;
     w_trace := [] |}.

(** No candidate directory exists. *)
Definition world_without_tmp : world :=
  {| w_env := ∅; w_fs := ∅;
     w_names := ["aaaaaa"; "bbbbbb"; "cccccc"; "dddddd"; "eeeeee";
                 "ffffff"]%string;
     w_trace := [] |}.

(** ** The child process launcher (POSIX) *)

(** Signal dispositions: the default, ignoring, and the two handlers of
    [pyi_utils.c]. *)
Inductive sighandler :=
  | SIG_DFL
  | SIG_IGN
  | _signal_handler
  | _ignoring_signal_handler.

#[global] Instance sighandler_eq_dec : EqDecision sighandler.
Proof. solve_decision. Defined.

(** What the platform fixes about signals: the numbers of SIGCHLD and
    SIGCLD ([SIGCLD] is defined as [SIGCHLD] where the platform lacks it),
    the signals whose disposition [signal] can change, the signals that
    [raise] sends (for the others it fails with EINVAL and sends nothing),
    and the signals whose default action ends the process. *)
Record signal_platform := {
  SIGCHLD : Z;
  SIGCLD : Z;
  settable : Z → bool;
  raise_accepts : Z → bool;
  default_terminates : Z → bool
}.

(** Calls recorded while the child is launched. *)
Inductive pcall :=
  | CallSignal (signum : Z) (handler : sighandler)
  | CallProcessAppleEvents
  | CallFork (pid : Z)
  | CallExecvp (file : string) (argv : list string)
  | CallWaitpid (pid : Z) (options : Z) (wait_rc : Z) (rc : Z)
  | CallKill (pid : Z) (signum : Z)
  | CallRaise (signum : Z)
  | CallFreeArgs (argv : list string).

#[global] Instance pcall_eq_dec : EqDecision pcall.
Proof. solve_decision. Defined.

(** The state of the launching process: signal dispositions (a signal
    without an entry has its default disposition), the globals
    [child_pid], [argv_pyi] and the environment, and the calls made. *)
Record process := {
  handlers : gmap Z sighandler;
  child_pid : Z;
  argv_pyi : list string;
  p_env : gmap string string;
  calls : list pcall
}.

Definition set_handlers (hs : gmap Z sighandler) (st : process) : process :=
  {| handlers := hs; child_pid := child_pid st; argv_pyi := argv_pyi st;
     p_env := p_env st; calls := calls st |}.
Definition set_child_pid (pid : Z) (st : process) : process :=
  {| handlers := handlers st; child_pid := pid; argv_pyi := argv_pyi st;
     p_env := p_env st; calls := calls st |}.
Definition set_argv_pyi (argv : list string) (st : process) : process :=
  {| handlers := handlers st; child_pid := child_pid st; argv_pyi := argv;
     p_env := p_env st; calls := calls st |}.
Definition set_p_env (e : environment) (st : process) : process :=
  {| handlers := handlers st; child_pid := child_pid st;
     argv_pyi := argv_pyi st; p_env := e; calls := calls st |}.
Definition record (c : pcall) (st : process) : process :=
  {| handlers := handlers st; child_pid := child_pid st;
     argv_pyi := argv_pyi st; p_env := p_env st;
     calls := calls st ++ [c] |}.

(** What the rest of the system does during one launch: the result of
    [fork], whether [execvp] fails, the pid of the child, the documents of
    the OpenDocument events that arrive before the child exists, the
    signals delivered to the parent while it waits, the number of
    [waitpid(WNOHANG)] polls that find the child running, and the result
    [(wait_rc, rc)] of the [waitpid] call after them (the blocking call on
    the other builds). *)
Record happenings := {
  fork_result : Z;
  execvp_fails : bool;
  getpid_child : Z;
  apple_docs : list string;
  incoming : list Z;
  polls : nat;
  wait_result : Z * Z
}.

(** How the call of [pyi_utils_create_child] ends: it returns, or the
    process image is replaced by [execvp], or the process is terminated by
    a signal, or (windowed macOS build) the polling loop goes on because
    [waitpid(WNOHANG)] keeps returning 0. *)
Inductive ending :=
  | Returns (rc : Z)
  | Replaced (file : string) (argv : list string)
  | Killed (signum : Z)
  | StillWaiting.

(** The macros of [<sys/wait.h>] on the wait status. *)
Definition WTERMSIG (status : Z) : Z := Z.land status 127.
Definition WEXITSTATUS (status : Z) : Z :=
  Z.shiftr (Z.land status 65280) 8.
Definition WIFEXITED (status : Z) : bool := bool_decide (WTERMSIG status = 0).
Definition WIFSIGNALED (status : Z) : bool :=
  bool_decide (0 < WTERMSIG status < 127).
Definition WNOHANG : Z := 1.


Section Launcher.
Context `{Externs}.
Variable b : build.
Variable plat : signal_platform.

Definition disposition (signum : Z) (st : process) : sighandler :=
  default SIG_DFL (handlers st !! signum).

(** [signal(signum, handler)]. *)
Definition signal (signum : Z) (handler : sighandler) (st : process)
    : process :=
  let st := record (CallSignal signum handler) st in
  if settable plat signum
  then set_handlers (<[signum := handler]> (handlers st)) st
  else st.

(** The delivery of [signum] to the process: the handler runs, or the
    default action is taken; the result is [Some signum] when the process
    is terminated. *)
Definition deliver (signum : Z) (st : process) : process * option Z :=
  match disposition signum st with
  | _signal_handler => (record (CallKill (child_pid st) signum) st, None)
  | _ignoring_signal_handler => (st, None)
  | SIG_IGN => (st, None)
  | SIG_DFL =>
      if default_terminates plat signum then (st, Some signum) else (st, None)
  end.

Fixpoint deliver_all (signums : list Z) (st : process)
    : process * option Z :=
  match signums with
  | [] => (st, None)
  | s :: rest =>
      match deliver s st with
      | (st1, None) => deliver_all rest st1
      | (st1, Some k) => (st1, Some k)
      end
  end.

(** [raise(signum)]: the signal is delivered to the process itself, unless
    the C library refuses the number; the caller below does not look at
    the result of the call. *)
Definition raise (signum : Z) (st : process) : process * option Z :=
  let st := record (CallRaise signum) st in
  if raise_accepts plat signum then deliver signum st else (st, None).

(** The loop that copies [argv] into [argv_pyi]. *)
Definition copy_argv (argv : list string) : list string :=
  fold_left
    (λ argv_pyi arg,
       if APPLE b && WINDOWED b && bool_decide (strstr arg "-psn" = Some 0%nat)
       then argv_pyi
       else argv_pyi ++ [arg])
    argv [].

(** [process_apple_events] before the child exists: the documents of the
    OpenDocument events are appended to [argv_pyi]. *)
Definition process_apple_events_argv (h : happenings) (st : process)
    : process :=
  set_argv_pyi (argv_pyi st ++ apple_docs h)
    (record CallProcessAppleEvents st).

(** [set_systemd_env], run in the child. *)
Definition set_systemd_env (h : happenings) (st : process) : process * Z :=
  match pyi_getenv b "LISTEN_PID" (p_env st) with
  | Some _ =>
      let pid_str := pretty.pretty (getpid_child h) in
      let '(e, rc) := pyi_setenv b "LISTEN_PID" pid_str (p_env st) in
      (set_p_env e st, rc)
  | None => (st, 0)
  end.

Definition num_signals : nat := 65.

(** "Redirect all signals received by parent to child process." *)
Definition install_handlers (handler : sighandler) (st : process)
    : process :=
  fold_left
    (λ st signum,
       if bool_decide (signum ≠ SIGCHLD plat) && bool_decide (signum ≠ SIGCLD plat)
       then signal signum handler st else st)
    (seqZ 0 (Z.of_nat num_signals)) st.

(** "When child process exited, reset signal handlers to default values." *)
Definition restore_handlers (st : process) : process :=
  fold_left (λ st signum, signal signum SIG_DFL st)
    (seqZ 0 (Z.of_nat num_signals)) st.

(** The wait for the child: one blocking [waitpid], or on the windowed
    macOS build the loop of [waitpid(WNOHANG)] and [process_apple_events]. *)
Fixpoint poll_child (n : nat) (h : happenings) (st : process)
    : process * Z * Z :=
  match n with
  | O =>
      let '(wait_rc, rc) := wait_result h in
      (record (CallWaitpid (child_pid st) WNOHANG wait_rc rc) st,
       wait_rc, rc)
  | S n' =>
      let st := record (CallWaitpid (child_pid st) WNOHANG 0 0) st in
      let st := record CallProcessAppleEvents st in
      poll_child n' h st
  end.

Definition wait_for_child (h : happenings) (st : process)
    : process * Z * Z :=
  if APPLE b && WINDOWED b then poll_child (polls h) h st
  else
    let '(wait_rc, rc) := wait_result h in
    (record (CallWaitpid (child_pid st) 0 wait_rc rc) st, wait_rc, rc).

(** The code from the label [cleanup] to the end of the function. *)
Definition cleanup (wait_rc rc : Z) (st : process) : process * ending :=
  let st := record (CallFreeArgs (argv_pyi st)) st in
  if bool_decide (wait_rc < 0) then (st, Returns 1)
  else if WIFEXITED rc then (st, Returns (WEXITSTATUS rc))
  else if WIFSIGNALED rc then
    match raise (WTERMSIG rc) st with
    | (st1, Some k) => (st1, Killed k)
    | (st1, None) => (st1, Returns 1)
    end
  else (st, Returns 1).

(** [pyi_utils_create_child]. *)
Definition pyi_utils_create_child (thisfile : string)
    (status : ARCHIVE_STATUS) (argv : list string) (h : happenings)
    (st : process) : process * ending :=
  let rc := 0 in
  let wait_rc := -1 in
  let st := set_argv_pyi (copy_argv argv) st in
  let st :=
    if APPLE b && WINDOWED b then process_apple_events_argv h st else st in
  let pid := fork_result h in
  let st := record (CallFork pid) st in
  if bool_decide (pid < 0) then cleanup wait_rc rc st
  else if bool_decide (pid = 0) then
    let '(st, _) := set_systemd_env h st in
    let st := record (CallExecvp thisfile (argv_pyi st)) st in
    if execvp_fails h then cleanup wait_rc rc st
    else (st, Replaced thisfile (argv_pyi st))
  else
    let st := set_child_pid pid st in
    let ignore_signals :=
      bool_decide
        (pyi_arch_get_option status "pyi-bootloader-ignore-signals" ≠ None) in
    let handler :=
      if ignore_signals then _ignoring_signal_handler
      else _signal_handler in
    let st := install_handlers handler st in
    match deliver_all (incoming h) st with
    | (st, Some k) => (st, Killed k)
    | (st, None) =>
        let '(st, wait_rc, rc) := wait_for_child h st in
        if APPLE b && WINDOWED b && bool_decide (wait_rc = 0)
        then (st, StillWaiting)
        else
          let st := restore_handlers st in
          cleanup wait_rc rc st
    end.

End Launcher.

(** Linux with the GNU C library: SIGCHLD is 17; SIGKILL (9) and SIGSTOP
    (19) cannot be caught and 0 is not a signal; the C library keeps 32
    and 33 for its threads, so that [signal] and [raise] fail for them,
    while the kernel delivers them when another process sends them, and
    their default action ends the process; the default action of SIGCHLD,
    SIGCONT, the stop signals, SIGURG and SIGWINCH does not end the
    process. *)
Definition linux_signals : signal_platform :=
  {| SIGCHLD := 17; SIGCLD := 17;
     settable := λ s, bool_decide (1 ≤ s ≤ 64)
                      && negb (bool_decide (s ∈ [9; 19; 32; 33]));
     raise_accepts := λ s, bool_decide (0 ≤ s ≤ 64)
                           && negb (bool_decide (s ∈ [32; 33]));
     default_terminates :=
       λ s, bool_decide (1 ≤ s ≤ 64)
            && negb (bool_decide (s ∈ [17; 18; 19; 20; 21; 22; 23; 28])) |}.


(** The launch as the child sees it: [fork] returns 0. *)
Definition in_child : happenings :=
  {| fork_result := 0; execvp_fails := false; getpid_child := 4711;
     apple_docs := []; incoming := []; polls := 0;
     wait_result := (0, 0) |}.

Definition fresh_process (argv_env : gmap string string) : process :=
  {| handlers := ∅; child_pid := 0; argv_pyi := [];
     p_env := argv_env; calls := [] |}.

(** ** Predicates to state what the launcher does *)

(** A signal for which the parent installs its handler. *)
Definition caught (plat : signal_platform) (signum : Z) : Prop :=
  0 ≤ signum < 65 ∧ settable plat signum = true
  ∧ signum ≠ SIGCHLD plat ∧ signum ≠ SIGCLD plat.

#[global] Instance caught_dec (plat : signal_platform) (signum : Z) :
  Decision (caught plat signum).
Proof. unfold caught. apply _. Defined.

Definition is_wait_call (c : pcall) : Prop :=
  match c with
  | CallWaitpid _ _ _ _ | CallProcessAppleEvents => True
  | _ => False
  end.



(** * The rest of [pyi_utils.c]

    The definitions below embed the functions of [pyi_utils.c] that the
    sections above leave out, and what is needed to state their
    properties. *)

(** ** The block that [pyi_strjoin] allocates *)

(** The argument of [malloc] in [pyi_strjoin], computed in [int]. *)
Definition pyi_strjoin_size (first sep second : option string) : Z :=
  let first_len := from_option strlen_int 0 first in
  let sep_len := from_option strlen_int 0 sep in
  let second_len := from_option strlen_int 0 second in
  to_int (first_len + sep_len + second_len + 1).

(** ** Conversions between UTF-8 and wide strings

    What the environment round trips on Windows need of the helpers of
    [pyi_win32_utils.c]: the empty string converts to the empty string, and
    converting a string to wide characters and back gives the string. *)
Definition utf8_round_trip `{Externs} : Prop :=
  pyi_win32_utils_from_utf8 EmptyString = Some EmptyString
  ∧ ∀ s w, pyi_win32_utils_from_utf8 s = Some w →
           pyi_win32_utils_to_utf8 w = Some s.

(** The name under which the platform stores [variable]. *)
Definition stored_name `{Externs} (b : build) (variable : string)
    : option string :=
  if WIN32 b then pyi_win32_utils_from_utf8 variable else Some variable.

(** ** [pyi_utils_set_environment] *)

(** The variables that the macOS branch removes, in the order of the
    calls. *)
Definition dyld_variables : list string :=
  ["DYLD_FRAMEWORK_PATH"; "DYLD_FALLBACK_FRAMEWORK_PATH";
   "DYLD_VERSIONED_FRAMEWORK_PATH"; "DYLD_LIBRARY_PATH";
   "DYLD_FALLBACK_LIBRARY_PATH"; "DYLD_VERSIONED_LIBRARY_PATH";
   "DYLD_ROOT_PATH"]%string.

(** [pyi_utils_set_environment]: the Windows version returns 0; the POSIX
    version removes the DYLD variables on macOS and stages the library
    search path elsewhere. *)
Definition pyi_utils_set_environment `{Externs} (b : build)
    (status : ARCHIVE_STATUS) (e : environment) : environment * Z :=
  if WIN32 b then (e, 0)
  else
    let rc := 0 in
    if APPLE b then
      let e := (pyi_unsetenv b "DYLD_FRAMEWORK_PATH" e).1 in
      let e := (pyi_unsetenv b "DYLD_FALLBACK_FRAMEWORK_PATH" e).1 in
      let e := (pyi_unsetenv b "DYLD_VERSIONED_FRAMEWORK_PATH" e).1 in
      let e := (pyi_unsetenv b "DYLD_LIBRARY_PATH" e).1 in
      let e := (pyi_unsetenv b "DYLD_FALLBACK_LIBRARY_PATH" e).1 in
      let e := (pyi_unsetenv b "DYLD_VERSIONED_LIBRARY_PATH" e).1 in
      let e := (pyi_unsetenv b "DYLD_ROOT_PATH" e).1 in
      (e, rc)
    else if negb (String.eqb (temppath status) EmptyString)
    then set_dynamic_library_path b (temppath status) e
    else set_dynamic_library_path b (homepath status) e.

(** The directory that [pyi_utils_set_environment] stages: [temppath] in
    onefile mode, [homepath] otherwise. *)
Definition staged_directory (status : ARCHIVE_STATUS) : string :=
  if bool_decide (temppath status ≠ EmptyString) then temppath status
  else homepath status.

(** [first] and [second] joined as [pyi_strjoin] joins two strings. *)
Definition joined (first sep second : string) : string :=
  if bool_decide (first ≠ EmptyString ∧ second ≠ EmptyString)
  then (first +:+ sep +:+ second)%string else (first +:+ second)%string.

(** ** The launcher: release of the argument vector *)

(** The vectors released by the calls of a trace, in order. *)
Definition freed (c : pcall) : option (list string) :=
  match c with CallFreeArgs argv => Some argv | _ => None end.

Definition frees (tr : list pcall) : list (list string) := omap freed tr.

(** The vector that [pyi_utils_create_child] builds before the fork. *)
Definition vector_built (b : build) (argv : list string) (h : happenings)
    : list string :=
  if APPLE b && WINDOWED b then copy_argv b argv ++ apple_docs h
  else copy_argv b argv.

(** ** [cleanUp] *)

(** [cleanUp]: the scratch directory is removed when [temppath] is not
    the empty string. *)
Definition cleanUp (readdir_all : list string → filesystem → list string)
    (fuel : nat) (status : ARCHIVE_STATUS) (w : world) : outcome world :=
  if negb (String.eqb (temppath status) EmptyString)
  then pyi_remove_temp_path readdir_all fuel (temppath status) w
  else Done w.

(** The directory with the resolved path [k] was added from [fs] to [fs']
    and nothing else changed. *)
Definition made (k : list string) (fs fs' : filesystem) : Prop :=
  fs !! k = None ∧ k ≠ []
  ∧ lookup_node (removelast k) fs = Some KDir
  ∧ fs' = <[k := KDir]> fs.

(** ** Extraction of files to disk: [pyi_open_target] and [pyi_copy_file]

    The POSIX versions.  A disk is the world of the sections above (the
    tree of nodes and the system calls made) together with the contents
    and the permission bits of the files, the number of bytes that can
    still be written, and the warnings printed.

    The C library is modelled without buffering.  A stream opened for
    reading is the path, the position, and the end-of-file and error
    indicators; a stream opened with "wb" writes at the end of its file.
    [fopen] with "rb" succeeds on every existing node and a read from a
    directory fails (EISDIR).  [fread] stores the bytes of an incomplete
    element in the buffer before it reports that no element was read. *)

Record disk := {
  d_world : world;
  d_data : gmap (list string) (list Byte.byte);
  d_mode : gmap (list string) Z;
  d_room : nat;
  d_warnings : list string
}.

Definition set_world (w : world) (d : disk) : disk :=
  {| d_world := w; d_data := d_data d; d_mode := d_mode d;
     d_room := d_room d; d_warnings := d_warnings d |}.
Definition set_data (data : gmap (list string) (list Byte.byte)) (d : disk)
    : disk :=
  {| d_world := d_world d; d_data := data; d_mode := d_mode d;
     d_room := d_room d; d_warnings := d_warnings d |}.
Definition set_mode (mode : gmap (list string) Z) (d : disk) : disk :=
  {| d_world := d_world d; d_data := d_data d; d_mode := mode;
     d_room := d_room d; d_warnings := d_warnings d |}.
Definition set_room (room : nat) (d : disk) : disk :=
  {| d_world := d_world d; d_data := d_data d; d_mode := d_mode d;
     d_room := room; d_warnings := d_warnings d |}.
Definition warn (msg : string) (d : disk) : disk :=
  {| d_world := d_world d; d_data := d_data d; d_mode := d_mode d;
     d_room := d_room d; d_warnings := d_warnings d ++ [msg] |}.

(** The nodes of a disk, and the contents of the file at a node (a file
    without an entry is empty). *)
Definition d_fs (d : disk) : filesystem := w_fs (d_world d).
Definition contents (k : list string) (d : disk) : list Byte.byte :=
  default [] (d_data d !! k).

Record FILE_in := {
  in_path : string;
  in_pos : nat;
  in_eof : bool;         (* feof *)
  in_error : bool        (* ferror *)
}.

Record FILE_out := {
  out_path : string;
  out_error : bool       (* ferror *)
}.

(** [fopen(p, "rb")]. *)
Definition fopen_rb (p : string) (d : disk) : option FILE_in :=
  match lookup_node (resolve p) (d_fs d) with
  | Some _ =>
      Some {| in_path := p; in_pos := 0; in_eof := false;
              in_error := false |}
  | None => None
  end.

(** [fopen(p, "wb")]: an existing file is truncated; a file is created in
    an existing directory; the call fails (ENAMETOOLONG) when a component
    of the path is longer than [NAME_MAX]. *)
Definition fopen_wb (p : string) (d : disk) : disk * option FILE_out :=
  let k := resolve p in
  let f := {| out_path := p; out_error := false |} in
  if bool_decide (names_fit k) then
    match lookup_node k (d_fs d) with
    | Some KDir => (d, None)
    | Some KFile => (set_data (<[k := []]> (d_data d)) d, Some f)
    | None =>
        match lookup_node (removelast k) (d_fs d) with
        | Some KDir =>
            (set_data (<[k := []]> (d_data d))
               (set_world (set_fs (<[k := KFile]> (d_fs d)) (d_world d)) d),
             Some f)
        | _ => (d, None)
        end
    end
  else (d, None).

(** [pyi_path_fopen] of [pyi_path.c] wraps [fopen], as the comment in
    [pyi_open_target] says; the two modes that [pyi_utils.c] uses. *)
Definition pyi_path_fopen_rb (filename : string) (d : disk)
    : option FILE_in := fopen_rb filename d.
Definition pyi_path_fopen_wb (filename : string) (d : disk)
    : disk * option FILE_out := fopen_wb filename d.

Definition BLOCK : nat := 4096.

(** [(size_t) z]. *)
Definition to_size_t (z : Z) : Z := z mod 2 ^ 64.

(** [fread(buf, 4096, 1, in)]: the buffer, the stream and the number of
    elements read (1 or 0). *)
Definition fread_block (buf : list Byte.byte) (f : FILE_in) (d : disk)
    : list Byte.byte * FILE_in * Z :=
  match lookup_node (resolve (in_path f)) (d_fs d) with
  | Some KFile =>
      let chunk :=
        take BLOCK (drop (in_pos f) (contents (resolve (in_path f)) d)) in
      let n := length chunk in
      let buf := chunk ++ drop n buf in
      if bool_decide (n = BLOCK)
      then (buf,
            {| in_path := in_path f; in_pos := (in_pos f + n)%nat;
               in_eof := in_eof f; in_error := in_error f |}, 1)
      else (buf,
            {| in_path := in_path f; in_pos := (in_pos f + n)%nat;
               in_eof := true; in_error := in_error f |}, 0)
  | _ =>
      (buf,
       {| in_path := in_path f; in_pos := in_pos f; in_eof := in_eof f;
          in_error := true |}, 0)
  end.

(** [fwrite(buf, 4096, 1, out)]: the number of elements written (1 or
    0); the write fails when the room left is less than a block. *)
Definition fwrite_block (buf : list Byte.byte) (f : FILE_out) (d : disk)
    : disk * FILE_out * Z :=
  let k := resolve (out_path f) in
  if bool_decide (BLOCK ≤ d_room d)%nat then
    (set_room (d_room d - BLOCK)
       (set_data (<[k := contents k d ++ take BLOCK buf]> (d_data d)) d),
     f, 1)
  else (d, {| out_path := out_path f; out_error := true |}, 0).

Definition clearerr_in (f : FILE_in) : FILE_in :=
  {| in_path := in_path f; in_pos := in_pos f; in_eof := false;
     in_error := false |}.
Definition clearerr_out (f : FILE_out) : FILE_out :=
  {| out_path := out_path f; out_error := false |}.

(** [fchmod(fileno(out), mode)]. *)
Definition fchmod (f : FILE_out) (mode : Z) (d : disk) : disk :=
  set_mode (<[resolve (out_path f) := mode]> (d_mode d)) d.

Definition S_IRUSR : Z := 256.
Definition S_IWUSR : Z := 128.
Definition S_IXUSR : Z := 64.

(** The tokens that the calls [strtok(name, PYI_SEPSTR)] and
    [strtok(NULL, PYI_SEPSTR)] return, in order: the non-empty pieces
    between separators. *)
Definition strtok_all (name : string) : list string :=
  filter (λ c, c ≠ EmptyString) (split_sep name).

(** [strncpy(buf, src, n)] into an uninitialised buffer: the characters
    copied; [buf[n - 1]] is not the terminator exactly when [n] characters
    were copied. *)
Definition strncpy (src : string) (n : Z) : string :=
  substring 0 (Z.to_nat n) src.
Definition last_cell_used (buf : string) (n : Z) : bool :=
  bool_decide (n ≤ strlen buf).

(** [strcat(buf, s)] on a buffer of [size] characters: [None] when the
    result and its terminator do not fit. *)
Definition strcat_in (size : Z) (buf s : string) : option string :=
  if bool_decide (strlen buf + strlen s + 1 ≤ size)
  then Some (strcat buf s) else None.

(** What the loop of [pyi_open_target] leaves in [fnm]: the path, or the
    early [return NULL], or a write past the end of [fnm]. *)
Inductive assembled :=
  | Path (fnm : string)
  | TooLong
  | Overrun.

(** What [pyi_open_target] returns. *)
Inductive target :=
  | Stream (f : FILE_out)
  | Null
  | WritesPastEnd.

Section Extraction.
(** [PATH_MAX] of [<limits.h>]. *)
Variable PATH_MAX : Z.

(** The loop [while (dir != NULL)] of [pyi_open_target], entered with the
    token [dir]; [rest] are the tokens after it. *)
Fixpoint open_target_loop (dir : string) (rest : list string)
    (fnm : string) (len : Z) (d : disk) : disk * assembled :=
  let len := len + (strlen dir + strlen PYI_SEPSTR) in
  (* Check if fnm does not exceed the buffer size *)
  if bool_decide (len >= PATH_MAX - 1) then (d, TooLong)
  else
    match strcat_in PATH_MAX fnm PYI_SEPSTR
            ≫= (λ fnm, strcat_in PATH_MAX fnm dir) with
    | None => (d, Overrun)
    | Some fnm =>
        match rest with
        | [] => (d, Path fnm)
        | dir' :: rest' =>
            let '(w1, sbuf) := stat fnm (d_world d) in
            let w2 :=
              match sbuf with
              | None => (mkdir fnm w1).1
              | Some _ => w1
              end in
            open_target_loop dir' rest' fnm len (set_world w2 d)
        end
    end.

(** [pyi_open_target]. *)
Definition pyi_open_target (path name_ : string) (d : disk)
    : disk * target :=
  let fnm := strncpy path PATH_MAX in
  let name := strncpy name_ PATH_MAX in
  (* Check if the path names could be copied *)
  if last_cell_used fnm PATH_MAX || last_cell_used name PATH_MAX
  then (d, Null)
  else
    let len := strlen fnm in
    let '(d1, r) :=
      match strtok_all name with
      | [] => (d, Path fnm)
      | dir :: rest => open_target_loop dir rest fnm len d
      end in
    match r with
    | TooLong => (d1, Null)
    | Overrun => (d1, WritesPastEnd)
    | Path fnm =>
        let '(w1, sbuf) := stat fnm (d_world d1) in
        let d2 := set_world w1 d1 in
        let d3 :=
          match sbuf with
          | Some _ =>
              warn ("WARNING: file already exists but should not: "
                    +:+ fnm) d2
          | None => d2
          end in
        match pyi_path_fopen_wb fnm d3 with
        | (d4, Some f) => (d4, Stream f)
        | (d4, None) => (d4, Null)
        end
    end.

(** The loop [while (!feof(in))] of [pyi_copy_file]: the disk, the two
    streams and the value of [error]. *)
Fixpoint copy_loop (fuel : nat) (buf : list Byte.byte) (in_ : FILE_in)
    (out : FILE_out) (d : disk) : outcome (disk * Z) :=
  match fuel with
  | O => OutOfFuel
  | S fuel' =>
      if in_eof in_ then Done (d, 0)
      else
        let '(buf, in_, n) := fread_block buf in_ d in
        if bool_decide (n = to_size_t (-1)) then
          if in_error in_ then Done (d, -1)
          else copy_loop fuel' buf in_ out d
        else
          let '(d, out, n) := fwrite_block buf out d in
          let rc := to_int n in
          if bool_decide (rc ≤ 0) || out_error out then Done (d, -1)
          else copy_loop fuel' buf in_ out d
  end.

(** [pyi_copy_file]; [stack] is what the array [buf] holds when the
    function is entered. *)
Definition pyi_copy_file (fuel : nat) (stack : list Byte.byte)
    (src dst filename : string) (d : disk) : outcome (disk * Z) :=
  let in_ := pyi_path_fopen_rb src d in
  let '(d1, out) := pyi_open_target dst filename d in
  let buf := stack in
  match in_, out with
  | _, WritesPastEnd => Crash
  | Some in_, Stream out =>
      obind (copy_loop fuel buf in_ out d1)
        (λ '(d2, error),
           Done (fchmod out (Z.lor (Z.lor S_IRUSR S_IWUSR) S_IXUSR) d2,
                 error))
  | _, _ => Done (d1, -1)
  end.

End Extraction.

(** The path that [pyi_open_target] assembles from [path] and the tokens
    of the name. *)
Definition assemble (path : string) (tokens : list string) : string :=
  fold_left (λ fnm dir, strcat (strcat fnm PYI_SEPSTR) dir) tokens path.

(** Two disks that differ at most in their world. *)
Definition same_files (d d' : disk) : Prop :=
  d_data d' = d_data d ∧ d_mode d' = d_mode d ∧ d_room d' = d_room d
  ∧ d_warnings d' = d_warnings d
  ∧ w_env (d_world d') = w_env (d_world d).

(** The warning of [pyi_open_target] for a target that exists. *)
Definition exists_warning (fnm : string) : string :=
  ("WARNING: file already exists but should not: " +:+ fnm)%string.

(** A disk for examples: the scratch directory /tmp/_MEIabc exists and is
    empty, and the file /opt/app/data.bin holds two bytes. *)
Definition scratch_disk : disk :=
  {| d_world :=
       {| w_env := ∅;
          w_fs := {[ ["tmp"%string] := KDir;
                     ["tmp"; "_MEIabc"]%string := KDir;
                     ["opt"%string] := KDir;
                     ["opt"; "app"]%string := KDir;
                     ["opt"; "app"; "data.bin"]%string := KFile ]};
          w_names := []; w_trace := [] |};
     d_data := {[ ["opt"; "app"; "data.bin"]%string
                    := [Byte.x68; Byte.x69] ]};
     d_mode := ∅;
     d_room := 4 * BLOCK;
     d_warnings := [] |}.

(** * The removal with symbolic links, permissions and bounded buffers

    The sections above take the file system as a tree of plain files and
    directories in which every call is permitted, resolve a path by its
    text alone, and take the path buffers of the source as large enough.
    This part models what [remove_one] and [pyi_remove_temp_path] meet on
    a POSIX system without these simplifications:
    - a node may be a symbolic link; [stat] and [opendir] follow links,
      [unlink] and [rmdir] do not follow a link in the last place;
    - the names "." and ".." are interpreted, the empty path names
      nothing, a relative path starts at the working directory, a path of
      [PATH_MAX] characters or more and a name of more than [NAME_MAX]
      characters are refused;
    - a directory has permission bits for its owner, the process;
    - [fnm] is an array of [PATH_MAX + 1] characters, and a run that
      reads or writes outside it ends there.
    On a file system without links in which everything is permitted, and
    for paths that fit, the functions below compute what the functions
    of the sections above compute ([lifted]). *)

Module Links.

(** The world of the sections above, the symbolic links (the place of
    each link and the text stored in it), the permission bits of the
    directories (a directory without an entry has the bits 0700) and the
    working directory. *)
Record lworld := {
  l_world : world;
  l_links : gmap (list string) string;
  l_mode : gmap (list string) Z;
  l_cwd : list string
}.

Definition with_world (w : world) (lw : lworld) : lworld :=
  {| l_world := w; l_links := l_links lw; l_mode := l_mode lw;
     l_cwd := l_cwd lw |}.
Definition with_links (links : gmap (list string) string) (lw : lworld)
    : lworld :=
  {| l_world := l_world lw; l_links := links; l_mode := l_mode lw;
     l_cwd := l_cwd lw |}.
Definition logged (c : call) (lw : lworld) : lworld :=
  with_world (log c (l_world lw)) lw.
Definition l_fs (lw : lworld) : filesystem := w_fs (l_world lw).

(** The node at a place: a symbolic link is neither a file nor a
    directory. *)
Definition node_at (k : list string) (lw : lworld) : option node_kind :=
  match l_links lw !! k with
  | Some _ => None
  | None => lookup_node k (l_fs lw)
  end.

(** Whether the owner has the permission [bit] on the directory [k]. *)
Definition permitted (bit : Z) (k : list string) (lw : lworld) : bool :=
  bool_decide (Z.land (default 448 (l_mode lw !! k)) bit ≠ 0).

Definition absolute (p : string) : bool :=
  match p with
  | String c _ => Ascii.eqb c PYI_SEP
  | EmptyString => false
  end.

(** The walk along the names of a path from the directory [cur]: it ends
    at a place, or at a symbolic link that is to be followed with names
    left over, or nowhere (a name on the way is missing, is not a
    directory, or may not be searched).  The last name need not exist. *)
Inductive walked :=
  | At (k : list string)
  | Via (cur : list string) (target : string) (rest : list string)
  | Lost.

Fixpoint walk (lw : lworld) (follow : bool) (cur names : list string)
    : walked :=
  match names with
  | [] => At cur
  | c :: rest =>
      if negb (permitted S_IXUSR cur lw) then Lost
      else if String.eqb c "." then walk lw follow cur rest
      else if String.eqb c ".." then walk lw follow (removelast cur) rest
      else
        let k := cur ++ [c] in
        match l_links lw !! k with
        | Some target =>
            if negb follow && bool_decide (rest = []) then At k
            else Via cur target rest
        | None =>
            match rest with
            | [] => At k
            | _ :: _ =>
                match l_fs lw !! k with
                | Some KDir => walk lw follow k rest
                | _ => Lost
                end
            end
        end
  end.

(** At most [SYMLOOP_MAX] links are followed (ELOOP). *)
Definition SYMLOOP_MAX : nat := 40.

Fixpoint follow_links (n : nat) (lw : lworld) (follow : bool)
    (cur names : list string) : option (list string) :=
  match walk lw follow cur names with
  | At k => Some k
  | Lost => None
  | Via cur' target rest =>
      match n with
      | O => None
      | S n' =>
          if bool_decide (target = EmptyString) then None
          else
            follow_links n' lw follow
              (if absolute target then [] else cur')
              (resolve target ++ rest)
      end
  end.

Section Removal.
(** [PATH_MAX] of [<limits.h>]. *)
Variable PATH_MAX : Z.

(** The place that the path [p] names; with [follow = false] a symbolic
    link in the last place is not followed. *)
Definition namei (follow : bool) (p : string) (lw : lworld)
    : option (list string) :=
  if bool_decide (p = EmptyString) then None
  else if bool_decide (PATH_MAX ≤ strlen p) then None
  else if bool_decide (names_fit (resolve p)) then
    follow_links SYMLOOP_MAX lw follow
      (if absolute p then [] else l_cwd lw) (resolve p)
  else None.

(** [stat]: links are followed; a path that ends with the separator
    names a directory or nothing. *)
Definition stat (p : string) (lw : lworld) : lworld * option node_kind :=
  let r :=
    match namei true p lw ≫= (λ k, node_at k lw) with
    | Some KFile =>
        if bool_decide (last_char p = Some PYI_SEP) then None
        else Some KFile
    | r => r
    end in
  (logged (SysStat p (match r with Some _ => 0 | None => -1 end)) lw, r).

(** [opendir]: the place of the directory opened, [None] for NULL. *)
Definition opendir (p : string) (lw : lworld)
    : lworld * option (list string) :=
  match namei true p lw with
  | Some k =>
      match node_at k lw with
      | Some KDir =>
          if permitted S_IRUSR k lw
          then (logged (SysOpendir p 0) lw, Some k)
          else (lw, None)
      | _ => (lw, None)
      end
  | None => (lw, None)
  end.

(** [unlink] removes a file or a symbolic link, from a directory that
    may be written. *)
Definition unlink (p : string) (lw : lworld) : lworld :=
  let failed := logged (SysUnlink p (-1)) lw in
  if bool_decide (last_char p = Some PYI_SEP) then failed
  else
    match namei false p lw with
    | Some k =>
        if negb (permitted S_IWUSR (removelast k) lw) then failed
        else
          match l_links lw !! k with
          | Some _ =>
              logged (SysUnlink p 0) (with_links (delete k (l_links lw)) lw)
          | None =>
              match l_fs lw !! k with
              | Some KFile =>
                  logged (SysUnlink p 0)
                    (with_world (set_fs (delete k (l_fs lw)) (l_world lw))
                       lw)
              | _ => failed
              end
          end
    | None => failed
    end.

(** [rmdir] removes a directory that has no entries, from a directory
    that may be written; it fails for a symbolic link and for a path
    whose last name is "." or "..". *)
Definition rmdir (p : string) (lw : lworld) : lworld :=
  let failed := logged (SysRmdir p (-1)) lw in
  if bool_decide (last (resolve p) = Some "."%string
                  ∨ last (resolve p) = Some ".."%string) then failed
  else
    match namei false p lw with
    | Some k =>
        if negb (permitted S_IWUSR (removelast k) lw) then failed
        else
          match l_links lw !! k, l_fs lw !! k with
          | None, Some KDir =>
              if has_entries k (l_fs lw)
                 || bool_decide (map_Exists (λ k' _, below k k') (l_links lw))
              then failed
              else
                logged (SysRmdir p 0)
                  (with_world (set_fs (delete k (l_fs lw)) (l_world lw)) lw)
          | _, _ => failed
          end
    | None => failed
    end.

(** All the names that the [readdir] loop returns for the directory at
    the given place. *)
Variable readdir_all :
  list string → filesystem → gmap (list string) string → list string.

(** The [while (finfo)] loop. *)
Fixpoint readdir_loop (body : string → lworld → outcome lworld)
    (entries : list string) (lw : lworld) : outcome lworld :=
  match entries with
  | [] => Done lw
  | d_name :: rest => obind (body d_name lw) (readdir_loop body rest)
  end.

(** [remove_one]; [pnm] is the array [fnm] of the caller, of
    [PATH_MAX + 1] characters. *)
Definition remove_one (recurse : string → lworld → outcome lworld)
    (pnm : string) (pos : Z) (fnm : string) (lw : lworld)
    : outcome lworld :=
  if String.eqb fnm "." || String.eqb fnm ".." then Done lw
  else
    match strcat_in (PATH_MAX + 1) (substring 0 (Z.to_nat pos) pnm) fnm with
    | None => Crash
    | Some pnm =>
        match stat pnm lw with
        | (lw1, Some sbuf) =>
            if S_ISDIR sbuf then recurse pnm lw1 else Done (unlink pnm lw1)
        | (lw1, None) => Done lw1
        end
    end.

(** [pyi_remove_temp_path].  [strncpy] leaves [fnm] without a terminator
    when [dir] has [PATH_MAX] characters or more, and [strlen] then reads
    past what was written.  For the empty [dir] the source reads
    [fnm[-1]]; whatever is found there, [opendir] of the empty path
    returns NULL next.  [readdir] is called without a look at what
    [opendir] returned. *)
Fixpoint pyi_remove_temp_path (fuel : nat) (dir : string) (lw : lworld)
    : outcome lworld :=
  match fuel with
  | O => OutOfFuel
  | S fuel' =>
      let fnm := strncpy dir PATH_MAX in
      if last_cell_used fnm PATH_MAX then Crash
      else
        let dirnmlen := strlen fnm in
        if bool_decide (dirnmlen = 0) then Crash
        else
          match
            (if bool_decide (last_char fnm ≠ Some PYI_SEP)
             then (λ fnm, (fnm, dirnmlen + 1))
                    <$> strcat_in (PATH_MAX + 1) fnm PYI_SEPSTR
             else Some (fnm, dirnmlen))
          with
          | None => Crash
          | Some (fnm, dirnmlen) =>
              match opendir dir lw with
              | (lw1, Some ds) =>
                  let entries := readdir_all ds (l_fs lw1) (l_links lw1) in
                  obind
                    (readdir_loop
                       (remove_one (pyi_remove_temp_path fuel') fnm
                          dirnmlen)
                       entries lw1)
                    (λ lw2, Done (rmdir dir lw2))
              | (_, None) => Crash
              end
          end
  end.


End Removal.

(** The world of the sections above as a world without links in which
    everything is permitted, and a run of theirs as a run of this part. *)
Definition lift (cwd : list string) (w : world) : lworld :=
  {| l_world := w; l_links := ∅; l_mode := ∅; l_cwd := cwd |}.

Definition lifted (cwd : list string) (r : outcome world) : outcome lworld :=
  match r with
  | Done w => Done (lift cwd w)
  | Crash => Crash
  | OutOfFuel => OutOfFuel
  end.

(** The listing of a directory where there are no links. *)
Definition without_links
    (readdir_all :
       list string → filesystem → gmap (list string) string → list string)
    (d : list string) (fs : filesystem) : list string :=
  readdir_all d fs ∅.

(** A world as the sections above take it. *)
Definition plain (lw : lworld) : Prop :=
  l_links lw = ∅ ∧ l_mode lw = ∅.

(** The path that the removal of [dir] builds for the node that lies the
    given names below [dir]. *)
Definition path_below (dir : string) (names : list string) : string :=
  fold_left (λ p n, strcat (with_sep p) n) names dir.

(** Every node has a well-formed path of names that fit. *)
Definition named (fs : filesystem) : Prop :=
  fs_wf fs ∧ map_Forall (λ k _, names_fit k) fs.

(** With any name appended, the path that the removal builds for [dir]
    and for each directory below it is shorter than [PATH_MAX]. *)
Definition has_room (PATH_MAX : Z) (dir : string) (fs : filesystem)
    : Prop :=
  strlen dir + 1 + NAME_MAX < PATH_MAX
  ∧ map_Forall
      (λ k x,
         match drop_prefix (resolve dir) k with
         | Some names =>
             x = KDir →
             strlen (path_below dir names) + 1 + NAME_MAX < PATH_MAX
         | None => True
         end) fs.

#[global] Instance named_dec (fs : filesystem) : Decision (named fs).
Proof. unfold named, fs_wf. apply _. Defined.

#[global] Instance has_room_dec (PATH_MAX : Z) (dir : string)
    (fs : filesystem) : Decision (has_room PATH_MAX dir fs).
Proof.
  unfold has_room. apply and_dec; [apply _|].
  apply map_Forall_dec. intros k x.
  destruct (drop_prefix (resolve dir) k); apply _.
Defined.

(** The names of a directory as [readdir] returns them: ".", ".." and
    the files, directories and links in it. *)
Definition readdir_entries (d : list string) (fs : filesystem)
    (links : gmap (list string) string) : list string :=
  "."%string :: ".."%string
    :: omap (child_name d)
         (map fst (map_to_list fs) ++ map fst (map_to_list links)).


(** A listing that leaves out every name but one. *)
Definition readdir_partial (d : list string) (fs : filesystem)
    (links : gmap (list string) string) : list string :=
  ["."; ".."; "base.so"]%string.

(** The scratch directory /tmp/_MEIabc with a file and a symbolic link
    to the directory /home/user, which holds a file. *)
Definition world_with_link : lworld :=
  {| l_world :=
       {| w_env := ∅;
          w_fs := {[ ["tmp"%string] := KDir;
                     ["tmp"; "_MEIabc"]%string := KDir;
                     ["tmp"; "_MEIabc"; "base.so"]%string := KFile;
                     ["home"%string] := KDir;
                     ["home"; "user"]%string := KDir;
                     ["home"; "user"; "notes.txt"]%string := KFile ]};
          w_names := []; w_trace := [] |};
     l_links := {[ ["tmp"; "_MEIabc"; "docs"]%string := "/home/user"%string ]};
     l_mode := ∅;
     l_cwd := [] |}.

(** The scratch directory /tmp/_MEIabc with a file and a subdirectory,
    beside the file /tmp/other; the working directory is /home. *)
Definition world_with_tree : lworld :=
  {| l_world :=
       {| w_env := ∅;
          w_fs := {[ ["tmp"%string] := KDir;
                     ["tmp"; "other"]%string := KFile;
                     ["tmp"; "_MEIabc"]%string := KDir;
                     ["tmp"; "_MEIabc"; "base.so"]%string := KFile;
                     ["tmp"; "_MEIabc"; "lib"]%string := KDir;
                     ["tmp"; "_MEIabc"; "lib"; "os.pyc"]%string := KFile ]};
          w_names := []; w_trace := [] |};
     l_links := ∅;
     l_mode := ∅;
     l_cwd := ["home"%string] |}.

End Links.

(** * Properties *)

(** ** C integers and strings *)

Lemma to_int_small (z : Z) : 0 ≤ z < 2 ^ 31 → to_int z = z.
Proof.
  intros Hz. unfold to_int.
  rewrite Z.mod_small; lia.
Qed.

Lemma strlen_nonneg (s : string) : 0 ≤ strlen s.
Proof. unfold strlen. lia. Qed.

Lemma strlen_zero_iff (s : string) : strlen s = 0 ↔ s = EmptyString.
Proof.
  unfold strlen. destruct s; simpl; split; intros Hs;
    try done; try lia.
Qed.

Lemma strlen_int_zero_iff (s : string) :
  strlen s < 2 ^ 31 → strlen_int s = 0 ↔ s = EmptyString.
Proof.
  intros Hs. unfold strlen_int.
  rewrite to_int_small by (pose proof (strlen_nonneg s); lia).
  apply strlen_zero_iff.
Qed.

Lemma append_cons (c : ascii) (s t : string) :
  (String c s +:+ t)%string = String c (s +:+ t).
Proof. reflexivity. Qed.

Lemma append_empty_l (s : string) : (EmptyString +:+ s)%string = s.
Proof. reflexivity. Qed.

Lemma append_empty_r (s : string) : (s +:+ EmptyString)%string = s.
Proof.
  induction s as [|c s IH]; [done|]. by rewrite append_cons, IH.
Qed.

Lemma append_assoc (s t u : string) :
  ((s +:+ t) +:+ u)%string = (s +:+ (t +:+ u))%string.
Proof.
  induction s as [|c s IH]; [done|]. by rewrite !append_cons, IH.
Qed.

Lemma strlen_int_nonzero (s : string) :
  strlen s < 2 ^ 31 →
  bool_decide (strlen_int s ≠ 0) = bool_decide (s ≠ EmptyString).
Proof.
  intros Hs. apply bool_decide_ext.
  by rewrite (strlen_int_zero_iff s Hs).
Qed.

(** [pyi_strjoin] with a non-NULL first string and the separator ":". *)
Lemma pyi_strjoin_colon (path : string) (orig : option string) :
  strlen path < 2 ^ 31 →
  (∀ v, orig = Some v → strlen v < 2 ^ 31) →
  pyi_strjoin (Some path) (Some ":"%string) orig =
    match orig with
    | Some v =>
        if bool_decide (path ≠ EmptyString ∧ v ≠ EmptyString)
        then (path +:+ ":" +:+ v)%string else (path +:+ v)%string
    | None => path
    end.
Proof.
  intros Hp Ho. unfold pyi_strjoin, strcat.
  destruct orig as [v|]; simpl from_option; simpl default.
  - rewrite (strlen_int_nonzero path Hp).
    rewrite (strlen_int_nonzero v (Ho v eq_refl)).
    change (bool_decide (strlen_int ":" ≠ 0)) with true.
    destruct (decide (path = EmptyString)) as [->|Hpe];
      destruct (decide (v = EmptyString)) as [->|Hve].
    + done.
    + rewrite (bool_decide_eq_true_2 (v ≠ EmptyString)) by done. done.
    + rewrite (bool_decide_eq_true_2 (path ≠ EmptyString)) by done.
      rewrite (bool_decide_eq_false_2 (path ≠ EmptyString ∧ _)) by tauto.
      simpl. by rewrite append_empty_r.
    + rewrite (bool_decide_eq_true_2 (path ≠ EmptyString)) by done.
      rewrite (bool_decide_eq_true_2 (v ≠ EmptyString)) by done.
      rewrite (bool_decide_eq_true_2 (path ≠ EmptyString ∧ _)) by done.
      simpl. by rewrite append_assoc.
  - rewrite (strlen_int_nonzero path Hp).
    change (bool_decide (0 ≠ 0)) with false.
    rewrite andb_false_r.
    destruct (decide (path = EmptyString)) as [->|Hpe]; [done|].
    by rewrite (bool_decide_eq_true_2 (path ≠ EmptyString)) by done.
Qed.

(** ** Environment access *)

Section EnvironmentFacts.
Context `{Externs}.

Lemma pyi_getenv_posix (b : build) (variable : string) (e : environment) :
  WIN32 b = false →
  pyi_getenv b variable e =
    match e !! variable with
    | Some s => if bool_decide (s ≠ EmptyString) then Some s else None
    | None => None
    end.
Proof.
  intros Hb. unfold pyi_getenv, pyi_getenv_env, getenv. rewrite Hb.
  destruct (e !! variable) as [s|]; [|done].
  destruct (String.eqb_spec s EmptyString); simpl.
  - by rewrite bool_decide_eq_false_2 by tauto.
  - by rewrite bool_decide_eq_true_2.
Qed.

(** On Windows the result of [ExpandEnvironmentStringsW] is never used:
    [wenv] points to [buf1] on both branches. *)
Lemma pyi_getenv_env_win32 (b : build) (variable : string)
    (e : environment) :
  WIN32 b = true →
  pyi_getenv_env b variable e =
    match stored_value b variable e with
    | Some w =>
        if bool_decide (w ≠ EmptyString) then pyi_win32_utils_to_utf8 w
        else None
    | None => None
    end.
Proof.
  intros Hb. unfold pyi_getenv_env, stored_value, GetEnvironmentVariableW.
  rewrite Hb.
  destruct (pyi_win32_utils_from_utf8 variable) as [n|]; simpl; [|done].
  destruct (e !! n) as [w|]; simpl; [|done].
  destruct (decide (w = EmptyString)) as [->|Hw].
  - done.
  - rewrite (bool_decide_eq_true_2 (w ≠ EmptyString)) by done.
    assert (strlen w > 0) as Hlen.
    { pose proof (strlen_nonneg w).
      assert (strlen w ≠ 0) by (by rewrite strlen_zero_iff). lia. }
    rewrite bool_decide_eq_true_2 by done.
    destruct (ExpandEnvironmentStringsW e w) as [rc buf2].
    by case_bool_decide.
Qed.

Lemma pyi_setenv_posix (b : build) (variable value : string)
    (e : environment) :
  WIN32 b = false → env_name_ok variable = true →
  pyi_setenv b variable value e = (<[variable := value]> e, 0).
Proof.
  intros Hb Hok. unfold pyi_setenv, setenv. by rewrite Hb, Hok.
Qed.

Lemma env_var_ok (b : build) :
  env_name_ok (env_var b) = true ∧ env_name_ok (env_var_orig b) = true
  ∧ env_var b ≠ env_var_orig b.
Proof. unfold env_var, env_var_orig. by destruct (AIX b). Qed.

End EnvironmentFacts.

(** C2, as stated, fails on the code: a search-path variable that is
    present with the empty value is read as absent, so the shadow variable
    is not written; and an empty [path] is joined without a separator. *)
Lemma staging_as_specified_fails :
  ¬ staging_as_specified (H := ascii_externs) linux "/opt/app"
      {[ "LD_LIBRARY_PATH"%string := EmptyString ]}
  ∧ ¬ staging_as_specified (H := ascii_externs) linux EmptyString
      {[ "LD_LIBRARY_PATH"%string := "/usr/lib"%string ]}.
Proof.
  split; intros [Hvar Hshadow]; vm_compute in Hvar, Hshadow;
    first [discriminate Hshadow | discriminate Hvar].
Qed.

(** C2 (amended): after [set_dynamic_library_path path] the search-path
    variable holds [path], the separator ":" and the prior value [V] when
    both [path] and [V] are non-empty, and [path] followed by [V] with no
    separator otherwise (just [path] when [V] was absent or empty); the
    shadow variable with the suffix [_ORIG] holds exactly [V] when [V] was
    present and non-empty, and is left untouched when [V] was absent or
    empty; no other variable changes and the call returns 0. *)
Theorem set_dynamic_library_path_roundtrip `{Externs} (b : build)
    (path : string) (e : environment) :
  WIN32 b = false →
  strlen path < 2 ^ 31 →
  (∀ V, e !! env_var b = Some V → strlen V < 2 ^ 31) →
  let e' := (set_dynamic_library_path b path e).1 in
  e' !! env_var b =
    Some (match e !! env_var b with
          | Some V =>
              if bool_decide (path ≠ EmptyString ∧ V ≠ EmptyString)
              then (path +:+ ":" +:+ V)%string else (path +:+ V)%string
          | None => path
          end)
  ∧ e' !! env_var_orig b =
      match e !! env_var b with
      | Some V =>
          if bool_decide (V ≠ EmptyString) then Some V
          else e !! env_var_orig b
      | None => e !! env_var_orig b
      end
  ∧ (∀ x, x ≠ env_var b → x ≠ env_var_orig b → e' !! x = e !! x)
  ∧ (set_dynamic_library_path b path e).2 = 0.
Proof.
  intros Hb Hpath HV e'. subst e'.
  destruct (env_var_ok b) as (Hok & Hok' & Hne).
  unfold set_dynamic_library_path.
  rewrite (pyi_getenv_posix b _ e Hb).
  destruct (e !! env_var b) as [V|] eqn:HeV.
  - specialize (HV V eq_refl).
    destruct (decide (V = EmptyString)) as [->|HVe].
    + rewrite (bool_decide_eq_false_2 (EmptyString ≠ EmptyString))%string by tauto.
      rewrite (pyi_strjoin_colon path None Hpath) by done.
      rewrite (pyi_setenv_posix b _ _ _ Hb Hok). simpl.
      rewrite bool_decide_eq_false_2 by tauto.
      rewrite append_empty_r, lookup_insert_eq.
      rewrite lookup_insert_ne by done.
      repeat split; try done.
      intros x Hx _. by rewrite lookup_insert_ne.
    + rewrite (bool_decide_eq_true_2 (V ≠ EmptyString)) by done.
      rewrite (pyi_strjoin_colon path (Some V) Hpath)
        by (by intros ? [= <-]).
      rewrite (pyi_setenv_posix b _ _ _ Hb Hok').
      rewrite (pyi_setenv_posix b _ _ _ Hb Hok). simpl.
      rewrite lookup_insert_eq.
      rewrite lookup_insert_ne, lookup_insert_eq by done.
      repeat split; try done.
      intros x Hx Hx'. by rewrite !lookup_insert_ne.
  - rewrite (pyi_strjoin_colon path None Hpath) by done.
    rewrite (pyi_setenv_posix b _ _ _ Hb Hok). simpl.
    rewrite lookup_insert_eq.
    rewrite lookup_insert_ne by done.
    repeat split; try done.
    intros x Hx _. by rewrite lookup_insert_ne.
Qed.

(** Staging /tmp/_MEIabc on Linux when LD_LIBRARY_PATH is /usr/lib. *)
Lemma set_dynamic_library_path_roundtrip_witness :
  let e : environment := {[ "LD_LIBRARY_PATH"%string := "/usr/lib"%string ]} in
  let e' := (set_dynamic_library_path (H := ascii_externs) linux
               "/tmp/_MEIabc" e).1 in
  e' !! "LD_LIBRARY_PATH"%string = Some "/tmp/_MEIabc:/usr/lib"%string
  ∧ e' !! "LD_LIBRARY_PATH_ORIG"%string = Some "/usr/lib"%string.
Proof.
  intros e e'.
  destruct (set_dynamic_library_path_roundtrip (H := ascii_externs) linux
              "/tmp/_MEIabc" e) as (Hvar & Hshadow & _).
  - reflexivity.
  - vm_compute. reflexivity.
  - intros V HV. vm_compute in HV. injection HV as <-. vm_compute.
    reflexivity.
  - split; [exact Hvar | exact Hshadow].
Defined.

(** *** Copies and aliases *)

Lemma malloc_string_fresh (s : string) (m : memory) :
  ((malloc_string s m).2 ∉ dom (heap m))
  ∧ ((malloc_string s m).2 ∉ (map_img (environ m) : gset positive)).
Proof.
  unfold malloc_string. simpl.
  pose proof (is_fresh (dom (heap m) ∪ map_img (environ m))) as Hfresh.
  set_solver.
Qed.

(** Writing to a block that no variable points to leaves the environment
    as it is. *)
Lemma env_view_insert (p : positive) (s : string) (m : memory) :
  p ∉ (map_img (environ m) : gset positive) →
  env_view {| heap := <[p := s]> (heap m); environ := environ m |}
  = env_view m.
Proof.
  intros Hp. unfold env_view. simpl. apply map_eq. intros v.
  rewrite !lookup_omap.
  destruct (environ m !! v) as [q|] eqn:Hq; simpl; [|done].
  rewrite lookup_insert_ne; [done|].
  intros ->. apply Hp. by eapply elem_of_map_img_2.
Qed.

Lemma env_view_malloc (s : string) (m : memory) :
  env_view (malloc_string s m).1 = env_view m
  ∧ environ (malloc_string s m).1 = environ m.
Proof.
  split; [|done]. apply env_view_insert.
  by destruct (malloc_string_fresh s m).
Qed.

Lemma strdup_spec (p : positive) (m m' : memory) (l : positive) :
  strdup p m = (m', Some l) →
  (l ∉ dom (heap m)) ∧ (l ∉ (map_img (environ m) : gset positive))
  ∧ heap m' !! l = heap m !! p ∧ environ m' = environ m
  ∧ env_view m' = env_view m.
Proof.
  unfold strdup. destruct (heap m !! p) as [s|] eqn:Hs; [|done].
  destruct (malloc_string s m) as [m1 l1] eqn:Hm. intros [= <- <-].
  pose proof (malloc_string_fresh s m) as [Hd Hi].
  pose proof (env_view_malloc s m) as [Hv He].
  rewrite Hm in *. simpl in *.
  repeat split; try done.
  unfold malloc_string in Hm. injection Hm as <- <-. simpl.
  by rewrite lookup_insert_eq.
Qed.

(** The pointer that plain [getenv] returns aliases the environment: a
    write through it is a write to the variable. *)
Lemma getenv_mem_aliases (variable s : string) (m : memory) (p : positive) :
  getenv_mem variable m = Some p →
  env_view (poke p s m) !! variable = Some s.
Proof.
  unfold getenv_mem, env_view, poke. simpl. intros Hp.
  rewrite lookup_omap, Hp. simpl. by rewrite lookup_insert_eq.
Qed.

(** The memory-level [pyi_getenv] returns a block holding what the
    value-level [pyi_getenv] computes. *)
Lemma pyi_getenv_mem_value `{Externs} (b : build) (variable : string)
    (m : memory) :
  WIN32 b = false →
  ((pyi_getenv_mem variable m).2
     ≫= (heap (pyi_getenv_mem variable m).1 !!.))
  = pyi_getenv b variable (env_view m).
Proof.
  intros Hb. rewrite (pyi_getenv_posix b _ _ Hb).
  unfold pyi_getenv_mem, getenv_mem, env_view. rewrite lookup_omap.
  destruct (environ m !! variable) as [p|]; simpl; [|done].
  destruct (heap m !! p) as [s|] eqn:Hs; simpl; [|done].
  destruct (String.eqb_spec s EmptyString) as [->|Hne]; simpl.
  - done.
  - rewrite bool_decide_eq_true_2 by done.
    destruct (strdup p m) as [m' [l|]] eqn:Hd.
    + apply strdup_spec in Hd as (_ & _ & Hl & _). simpl. congruence.
    + unfold strdup in Hd. rewrite Hs in Hd.
      by destruct (malloc_string s m).
Qed.

(** C3: [pyi_getenv] returns NULL both when the variable is unset and when
    it is set to the empty string; a value it returns lives in a freshly
    allocated block (not one of the prior heap, and not the block the
    environment points to) that holds the value of the variable, and
    overwriting that block leaves the whole environment unchanged.  This
    holds for the POSIX code ([pyi_getenv_mem]) and the Windows code
    ([pyi_getenv_mem_win32]). *)
Theorem pyi_getenv_absent_or_copy `{Externs} (b : build)
    (variable : string) (e : environment) (m : memory) :
  (stored_value b variable e = None
   ∨ stored_value b variable e = Some EmptyString →
   pyi_getenv b variable e = None)
  ∧ (∀ m' l, pyi_getenv_mem variable m = (m', Some l) →
       (l ∉ dom (heap m)) ∧ getenv_mem variable m ≠ Some l
       ∧ heap m' !! l = env_view m !! variable
       ∧ ∀ s, env_view (poke l s m') = env_view m)
  ∧ (∀ m' l, pyi_getenv_mem_win32 variable e m = (m', Some l) →
       (l ∉ dom (heap m))
       ∧ heap m' !! l = pyi_getenv windows variable e
       ∧ ∀ s, env_view (poke l s m') = env_view m).
Proof.
  split; [|split].
  - intros Hst. destruct (WIN32 b) eqn:Hb.
    + unfold pyi_getenv. rewrite (pyi_getenv_env_win32 b _ _ Hb).
      by destruct Hst as [-> | ->].
    + rewrite (pyi_getenv_posix b _ _ Hb).
      unfold stored_value in Hst. rewrite Hb in Hst.
      by destruct Hst as [-> | ->].
  - intros m' l. unfold pyi_getenv_mem.
    destruct (getenv_mem variable m) as [p|] eqn:Hp; [|done].
    destruct (heap m !! p) as [s0|] eqn:Hs; [|done].
    destruct (negb (String.eqb s0 EmptyString)); [|done].
    intros Hd. apply strdup_spec in Hd as (Hd & Hi & Hl & He & Hv).
    repeat split.
    + done.
    + intros [= ->]. apply Hi. by eapply elem_of_map_img_2.
    + unfold env_view. rewrite lookup_omap.
      unfold getenv_mem in Hp. rewrite Hp. simpl. congruence.
    + intros s. unfold poke. rewrite <- Hv. apply env_view_insert.
      by rewrite He.
  - intros m' l. unfold pyi_getenv_mem_win32, pyi_getenv.
    destruct (pyi_getenv_env windows variable e) as [s0|]; [|done].
    destruct (malloc_string s0 m) as [m1 env] eqn:Hm.
    pose proof (malloc_string_fresh s0 m) as [Hd1 Hi1].
    pose proof (env_view_malloc s0 m) as [Hv1 He1].
    assert (heap m1 !! env = Some s0) as Henv.
    { unfold malloc_string in Hm. injection Hm as <- <-. simpl.
      by rewrite lookup_insert_eq. }
    assert (dom (heap m) ⊆ dom (heap m1)) as Hsub.
    { unfold malloc_string in Hm. injection Hm as <- _. simpl.
      rewrite dom_insert. set_solver. }
    rewrite Hm in *. simpl in *.
    destruct (negb (String.eqb s0 EmptyString)); [|done].
    intros Hd. apply strdup_spec in Hd as (Hd & Hi & Hl & He & Hv).
    repeat split.
    + set_solver.
    + congruence.
    + intros s. unfold poke. rewrite <- Hv1, <- Hv.
      apply env_view_insert. by rewrite He.
Qed.

(** An empty TMPDIR, and the blocks returned for a TMPDIR and a TMP that
    are set. *)
Lemma pyi_getenv_absent_or_copy_witness :
  let e : environment := {[ "TMPDIR"%string := EmptyString ]} in
  let m : memory :=
    {| heap := {[ 1%positive := "/var/tmp"%string ]};
       environ := {[ "TMPDIR"%string := 1%positive ]} |} in
  let r := pyi_getenv_mem "TMPDIR" m in
  let w := pyi_getenv_mem_win32 (H := ascii_externs) "TMP"
             {[ "TMP"%string := "C:/Temp"%string ]} m in
  pyi_getenv (H := ascii_externs) linux "TMPDIR" e = None
  ∧ (heap r.1 !! default 1%positive r.2 = Some "/var/tmp"%string
     ∧ env_view (poke (default 1%positive r.2) "junk" r.1) = env_view m)
  ∧ (heap w.1 !! default 1%positive w.2 = Some "C:/Temp"%string
     ∧ env_view (poke (default 1%positive w.2) "junk" w.1) = env_view m).
Proof.
  intros e m r w. split; [|split].
  - apply (pyi_getenv_absent_or_copy (H := ascii_externs) linux "TMPDIR" e m).
    right. reflexivity.
  - destruct (pyi_getenv_absent_or_copy (H := ascii_externs) linux
                "TMPDIR" e m) as (_ & Hp & _).
    destruct (Hp r.1 (default 1%positive r.2)) as (_ & _ & Hl & Hv).
    + vm_compute. reflexivity.
    + split; [rewrite Hl; reflexivity | apply Hv].
  - destruct (pyi_getenv_absent_or_copy (H := ascii_externs) windows
                "TMP" {[ "TMP"%string := "C:/Temp"%string ]} m)
      as (_ & _ & Hw).
    destruct (Hw w.1 (default 1%positive w.2)) as (_ & Hl & Hv).
    + vm_compute. reflexivity.
    + split; [rewrite Hl; reflexivity | apply Hv].
Defined.

(** C4: on Windows [pyi_getenv] calls ExpandEnvironmentStringsW but
    returns the contents of [buf1], the unexpanded value: with
    [USERPROFILE=C:/Users/me] and [TMP=%USERPROFILE%/Temp], the expansion
    is [C:/Users/me/Temp] and [pyi_getenv "TMP"] is [%USERPROFILE%/Temp]. *)
Theorem pyi_getenv_win32_returns_unexpanded :
  let e : environment :=
    {[ "USERPROFILE"%string := "C:/Users/me"%string;
       "TMP"%string := "%USERPROFILE%/Temp"%string ]} in
  (ExpandEnvironmentStringsW (Externs := ascii_externs) e
     "%USERPROFILE%/Temp").2 = "C:/Users/me/Temp"%string
  ∧ pyi_getenv (H := ascii_externs) windows "TMP" e
    = Some "%USERPROFILE%/Temp"%string.
Proof. split; vm_compute; reflexivity. Qed.

(** ** Paths *)

Lemma split_sep_nonempty (s : string) : split_sep s ≠ [].
Proof.
  induction s as [|c s IH]; simpl; [done|].
  destruct (Ascii.eqb c PYI_SEP); [done|].
  by destruct (split_sep s).
Qed.

Lemma split_sep_app (a b : string) :
  split_sep (a +:+ String PYI_SEP b) = split_sep a ++ split_sep b.
Proof.
  induction a as [|c a IH].
  - rewrite append_empty_l. simpl. done.
  - rewrite append_cons. simpl. rewrite IH.
    destruct (Ascii.eqb c PYI_SEP); [done|].
    pose proof (split_sep_nonempty a).
    by destruct (split_sep a).
Qed.

Lemma last_char_sep (s : string) :
  last_char s = Some PYI_SEP → ∃ a, s = (a +:+ PYI_SEPSTR)%string.
Proof.
  induction s as [|c s IH]; simpl; [done|].
  destruct s as [|c' s'].
  - intros [= ->]. by exists EmptyString.
  - intros Hl. destruct (IH Hl) as [a Ha].
    exists (String c a). by rewrite append_cons, <- Ha.
Qed.

Lemma resolve_trailing_sep (a : string) :
  resolve (a +:+ PYI_SEPSTR) = resolve a.
Proof.
  unfold resolve, PYI_SEPSTR. rewrite split_sep_app. simpl.
  rewrite filter_app, filter_cons_False, filter_nil by tauto.
  by rewrite app_nil_r.
Qed.

Lemma resolve_entry (a n : string) :
  entry_name n →
  resolve (a +:+ PYI_SEPSTR +:+ n) = resolve a ++ [n].
Proof.
  intros [Hne Hn]. unfold resolve, PYI_SEPSTR.
  change ("/" +:+ n)%string with (String PYI_SEP n).
  rewrite split_sep_app, Hn, filter_app.
  by rewrite filter_cons_True, filter_nil.
Qed.

(** The buffer [fnm] of [pyi_remove_temp_path] after the separator has
    been appended where it was missing. *)
Lemma fnm_entry (dir n : string) :
  entry_name n →
  resolve
    (strcat (if bool_decide (last_char dir ≠ Some PYI_SEP)
             then strcat dir PYI_SEPSTR else dir) n)
  = resolve dir ++ [n].
Proof.
  intros Hn. unfold strcat. case_bool_decide as Hl.
  - rewrite append_assoc. by apply resolve_entry.
  - destruct (last_char_sep dir Hl) as [a ->].
    rewrite append_assoc, resolve_trailing_sep. by apply resolve_entry.
Qed.

Lemma substring_all (s : string) : substring 0 (String.length s) s = s.
Proof. induction s as [|c s IH]; simpl; [done | by rewrite IH]. Qed.

Lemma length_append (s t : string) :
  String.length (s +:+ t) = (String.length s + String.length t)%nat.
Proof.
  induction s as [|c s IH]; [done|]. rewrite append_cons. simpl.
  by rewrite IH.
Qed.

Lemma strlen_strcat (s t : string) :
  strlen (strcat s t) = strlen s + strlen t.
Proof. unfold strlen, strcat. rewrite length_append. lia. Qed.

Lemma substring_strlen (s : string) :
  substring 0 (Z.to_nat (strlen s)) s = s.
Proof. unfold strlen. rewrite Nat2Z.id. apply substring_all. Qed.

(** ** File-system invariants *)

Lemma below_app (d r : list string) : r ≠ [] → below d (d ++ r).
Proof.
  intros Hr. split; [by exists r|].
  intros Heq. apply Hr. apply (app_inv_head d). by rewrite app_nil_r.
Qed.

Lemma below_inv (d k : list string) :
  below d k → ∃ n r, k = d ++ n :: r.
Proof.
  intros [[r ->] Hne]. destruct r as [|n r].
  - by rewrite app_nil_r in Hne.
  - by exists n, r.
Qed.

Lemma below_prefix (d k : list string) : below d k → d `prefix_of` k.
Proof. by intros [? _]. Qed.

Lemma prefix_below_or_eq (d k : list string) :
  d `prefix_of` k → d = k ∨ below d k.
Proof.
  intros Hp. destruct (decide (d = k)); [by left | by right].
Qed.

Lemma below_length (d k : list string) :
  below d k → (length d < length k)%nat.
Proof.
  intros (n & r & ->)%below_inv. rewrite length_app. simpl. lia.
Qed.

Lemma below_asym (d k : list string) : below d k → ¬ k `prefix_of` d.
Proof.
  intros Hb [r Hr]. apply below_length in Hb.
  rewrite Hr, length_app in Hb. lia.
Qed.

Lemma below_trans_prefix (c d k : list string) :
  below d c → c `prefix_of` k → below d k.
Proof.
  intros Hb Hp. split.
  - etrans; [by apply below_prefix | done].
  - intros ->. by eapply below_asym.
Qed.

Lemma below_child (d : list string) (n : string) : below d (d ++ [n]).
Proof. by apply below_app. Qed.

Lemma fs_wf_lookup (fs : filesystem) (k : list string) (x : node_kind) :
  fs_wf fs → fs !! k = Some x →
  Forall proper_name k ∧ k ≠ []
  ∧ lookup_node (removelast k) fs = Some KDir.
Proof. intros Hwf Hk. exact (Hwf k x Hk). Qed.

Lemma lookup_node_nonroot (fs : filesystem) (k : list string) :
  k ≠ [] → lookup_node k fs = fs !! k.
Proof. intros Hk. unfold lookup_node. by rewrite decide_False. Qed.

(** All the ancestors of a node are directories. *)
Lemma fs_wf_ancestor (fs : filesystem) (p r : list string) :
  fs_wf fs → p ≠ [] → r ≠ [] → is_Some (fs !! (p ++ r)) →
  fs !! p = Some KDir.
Proof.
  intros Hwf Hp. induction r as [|n r IH] using rev_ind; [done|].
  intros _ [x Hx].
  destruct (fs_wf_lookup _ _ _ Hwf Hx) as (_ & _ & Hpar).
  rewrite app_assoc, removelast_last in Hpar.
  destruct (decide (r = [])) as [->|Hr].
  - rewrite app_nil_r in Hpar. by rewrite lookup_node_nonroot in Hpar.
  - apply IH; [done|].
    rewrite lookup_node_nonroot in Hpar by (by destruct p).
    by rewrite Hpar.
Qed.

Lemma fs_wf_below (fs : filesystem) (p k : list string) :
  fs_wf fs → p ≠ [] → below p k → is_Some (fs !! k) →
  fs !! p = Some KDir.
Proof.
  intros Hwf Hp (n & r & ->)%below_inv Hk.
  by apply (fs_wf_ancestor fs p (n :: r)).
Qed.

Lemma fs_wf_nonroot (fs : filesystem) (k : list string) :
  fs_wf fs → is_Some (fs !! k) → k ≠ [].
Proof. intros Hwf [x Hx]. by destruct (fs_wf_lookup _ _ _ Hwf Hx) as (_&?&_). Qed.

(** Nothing lies below a node that is absent or a file. *)
Lemma fs_wf_leaf (fs : filesystem) (c k : list string) :
  fs_wf fs → c ≠ [] → fs !! c ≠ Some KDir → below c k → fs !! k = None.
Proof.
  intros Hwf Hc Hnd Hb.
  destruct (fs !! k) as [x|] eqn:Hk; [|done].
  exfalso. apply Hnd. by apply (fs_wf_below fs c k).
Qed.

(** Removing nodes keeps the invariant when no node is orphaned. *)
Lemma fs_wf_shrink (fs fs' : filesystem) :
  fs_wf fs →
  (∀ k, fs' !! k = None ∨ fs' !! k = fs !! k) →
  (∀ k, is_Some (fs' !! k) → removelast k ≠ [] →
        is_Some (fs' !! removelast k)) →
  fs_wf fs'.
Proof.
  intros Hwf Hsub Hclosed k x Hk.
  assert (fs !! k = Some x) as Hk0.
  { destruct (Hsub k) as [Hn|He]; congruence. }
  destruct (fs_wf_lookup _ _ _ Hwf Hk0) as (Hnames & Hne & Hpar).
  repeat split; try done.
  unfold lookup_node in *. case_decide as Hr; [done|].
  destruct (Hclosed k) as [y Hy]; [by eexists | done |].
  destruct (Hsub (removelast k)) as [Hn|He]; congruence.
Qed.

Lemma removelast_below (k : list string) :
  k ≠ [] → below (removelast k) k.
Proof.
  intros Hk. destruct (exists_last Hk) as (l & a & ->).
  rewrite removelast_last. apply below_child.
Qed.

(** Removing everything at or below [c]. *)
Lemma fs_wf_remove_subtree (fs fs' : filesystem) (c : list string) :
  fs_wf fs →
  (∀ k, fs' !! k = if decide (c `prefix_of` k) then None else fs !! k) →
  fs_wf fs'.
Proof.
  intros Hwf Hfs. apply (fs_wf_shrink fs); [done| |].
  - intros k. rewrite Hfs. case_decide; auto.
  - intros k [x Hk] Hr. rewrite Hfs in Hk. case_decide as Hck; [done|].
    rewrite Hfs. rewrite decide_False.
    + destruct (fs_wf_lookup _ _ _ Hwf Hk) as (_ & Hne & Hpar).
      rewrite lookup_node_nonroot in Hpar by done. by rewrite Hpar.
    + intros Hp. apply Hck. etrans; [done|].
      apply below_prefix, removelast_below.
      by apply (fs_wf_nonroot fs); [|eexists].
Qed.

(** ** Traces of removals *)

Lemma removed_app (tr1 tr2 : list call) :
  removed (tr1 ++ tr2) = removed tr1 ++ removed tr2.
Proof. apply omap_app. Qed.

Lemma postorder_nil : postorder [].
Proof. intros i j p q Hi. by rewrite lookup_nil in Hi. Qed.

Lemma postorder_singleton (k : list string) : postorder [k].
Proof.
  intros i j p q Hi Hj [_ Hne].
  apply list_lookup_singleton_Some in Hi as [-> <-].
  apply list_lookup_singleton_Some in Hj as [-> <-]. done.
Qed.

Lemma postorder_app (l1 l2 : list (list string)) :
  postorder l1 → postorder l2 →
  (∀ p q, p ∈ l1 → q ∈ l2 → ¬ below p q) →
  postorder (l1 ++ l2).
Proof.
  intros H1 H2 Hcross i j p q Hi Hj Hb.
  apply lookup_app_Some in Hi as [Hi|[Hil Hi]];
    apply lookup_app_Some in Hj as [Hj|[Hjl Hj]].
  - by eapply H1.
  - exfalso. eapply Hcross; [| |done].
    + by eapply list_elem_of_lookup_2.
    + by eapply list_elem_of_lookup_2.
  - apply lookup_lt_Some in Hj. lia.
  - pose proof (H2 _ _ _ _ Hi Hj Hb). lia.
Qed.

Section Shrinks.
Variable region : list string → Prop.

(** A call that removes nothing. *)
Lemma shrinks_log (c : call) (w : world) :
  fs_wf (w_fs w) → removal c = None → shrinks region w (log c w) [c].
Proof.
  intros Hwf Hc. unfold shrinks, log, removed. simpl. rewrite Hc. simpl.
  split_and!; try done; try by auto.
  intros k. split.
  - by intros ?%elem_of_nil.
  - intros [[x Hx] Hn]. congruence.
Qed.

Lemma shrinks_refl (w : world) : fs_wf (w_fs w) → shrinks region w w [].
Proof.
  intros Hwf. unfold shrinks. rewrite app_nil_r.
  split_and!; try done; try by auto.
  intros k. split.
  - by intros ?%elem_of_nil.
  - intros [[x Hx] Hn]. congruence.
Qed.

(** The removal of one node that has nothing below it. *)
Lemma shrinks_delete (c : call) (k : list string) (w : world) :
  fs_wf (w_fs w) → removal c = Some k → region k →
  is_Some (w_fs w !! k) →
  (∀ k', below k k' → w_fs w !! k' = None) →
  shrinks region w (log c (set_fs (delete k (w_fs w)) w)) [c].
Proof.
  intros Hwf Hc Hreg Hk Hleaf. unfold shrinks, log, set_fs, removed. simpl.
  rewrite Hc. simpl.
  assert (∀ k', delete k (w_fs w) !! k' = None
                ∨ delete k (w_fs w) !! k' = w_fs w !! k') as Hsub.
  { intros k'. destruct (decide (k = k')) as [->|Hne].
    - left. apply lookup_delete_eq.
    - right. by apply lookup_delete_ne. }
  split_and!; try done.
  - apply (fs_wf_shrink (w_fs w)); [done | done |].
    intros k' [x Hx] Hr.
    assert (k ≠ k') as Hne
      by (intros ->; by rewrite lookup_delete_eq in Hx).
    rewrite lookup_delete_ne in Hx by done.
    destruct (fs_wf_lookup _ _ _ Hwf Hx) as (_ & Hne' & Hpar).
    rewrite lookup_node_nonroot in Hpar by done.
    rewrite lookup_delete_ne; [by rewrite Hpar|].
    intros ->. pose proof (Hleaf k' (removelast_below k' Hne')). congruence.
  - intros k' Hk'. apply lookup_delete_ne. by intros ->.
  - intros k'. rewrite list_elem_of_singleton. split.
    + intros ->. split; [done | apply lookup_delete_eq].
    + intros [Hs Hn].
      destruct (decide (k = k')) as [->|Hne]; [done|].
      rewrite lookup_delete_ne in Hn by done. destruct Hs. congruence.
  - apply postorder_singleton.
Qed.

Lemma shrinks_trans (w w1 w2 : world) (tr1 tr2 : list call) :
  fs_wf (w_fs w) →
  shrinks region w w1 tr1 → shrinks region w1 w2 tr2 →
  shrinks region w w2 (tr1 ++ tr2).
Proof.
  intros Hwf (Hwf1 & Hsub1 & Hfr1 & He1 & Hn1 & Ht1 & Hrm1 & Hpo1)
             (Hwf2 & Hsub2 & Hfr2 & He2 & Hn2 & Ht2 & Hrm2 & Hpo2).
  unfold shrinks. split_and!; try done; try congruence.
  - intros k. destruct (Hsub2 k) as [? | ->]; [by left | apply Hsub1].
  - intros k Hk. by rewrite Hfr2, Hfr1.
  - by rewrite Ht2, Ht1, app_assoc.
  - intros k. rewrite removed_app, elem_of_app, Hrm1, Hrm2. split.
    + intros [[Hs Hn]|[[x Hx] Hn]].
      * split; [done|]. destruct (Hsub2 k); congruence.
      * split; [|done].
        destruct (Hsub1 k) as [? | <-]; [congruence | by eexists].
    + intros [Hs Hn].
      destruct (w_fs w1 !! k) as [x|] eqn:Hk1.
      * right. split; [by eexists | done].
      * by left.
  - rewrite removed_app. apply postorder_app; [done | done |].
    intros p q Hp Hq Hb.
    apply Hrm1 in Hp as [Hps Hpn]. apply Hrm2 in Hq as [Hqs _].
    assert (w_fs w1 !! p = Some KDir); [|congruence].
    apply (fs_wf_below _ p q); try done.
    by apply (fs_wf_nonroot (w_fs w)).
Qed.

End Shrinks.

Lemma shrinks_mono (R R' : list string → Prop) (w w' : world)
    (tr : list call) :
  (∀ k, R k → R' k) → shrinks R w w' tr → shrinks R' w w' tr.
Proof.
  intros HR (Hwf & Hsub & Hfr & Hrest). split_and!; try apply Hrest.
  - done.
  - done.
  - intros k Hk. apply Hfr. intros ?. apply Hk. by apply HR.
Qed.

(** ** Recursive removal *)

Lemma has_entries_false (d : list string) (fs : filesystem) :
  (∀ k, below d k → fs !! k = None) → has_entries d fs = false.
Proof.
  intros Hd. unfold has_entries. apply bool_decide_eq_false_2.
  intros (k & x & Hk & Hb). rewrite (Hd k Hb) in Hk. done.
Qed.

Lemma depth_ok_lookup (d k : list string) (fuel : nat) (fs : filesystem) :
  depth_ok d fuel fs → is_Some (fs !! k) → d `prefix_of` k →
  (length k < length d + fuel)%nat.
Proof. intros Hd [x Hx]. exact (Hd k x Hx). Qed.

Lemma depth_ok_shrink (d : list string) (fuel : nat) (fs fs' : filesystem) :
  depth_ok d fuel fs → (∀ k, fs' !! k = None ∨ fs' !! k = fs !! k) →
  depth_ok d fuel fs'.
Proof.
  intros Hd Hsub k x Hk. apply (depth_ok_lookup d k fuel fs Hd).
  destruct (Hsub k) as [?|<-]; [congruence | by eexists].
Qed.

Lemma depth_ok_tree_fuel (d : list string) (fuel : nat) (fs : filesystem) :
  (tree_fuel fs ≤ fuel)%nat → depth_ok d fuel fs.
Proof.
  intros Hfuel k x Hk _. unfold tree_fuel in Hfuel.
  assert (length k ≤ max_list ((λ kv, length kv.1) <$> map_to_list fs))%nat.
  { apply max_list_elem_of_le, list_elem_of_fmap.
    exists (k, x). split; [done | by apply elem_of_map_to_list]. }
  lia.
Qed.

Lemma depth_ok_child (d : list string) (n : string) (fuel : nat)
    (fs : filesystem) :
  depth_ok d (S fuel) fs → depth_ok (d ++ [n]) fuel fs.
Proof.
  intros Hd k x Hk Hp.
  assert (d `prefix_of` k) as Hdk.
  { etrans; [|done]. by exists [n]. }
  pose proof (Hd k x Hk Hdk). rewrite length_app. simpl. lia.
Qed.

(** A path with an improper component names no node. *)
Lemma fs_wf_improper (fs : filesystem) (d k : list string) (n : string) :
  fs_wf fs → ¬ proper_name n → (d ++ [n]) `prefix_of` k → fs !! k = None.
Proof.
  intros Hwf Hn [r ->]. destruct (fs !! _) as [x|] eqn:Hk; [|done].
  destruct (fs_wf_lookup _ _ _ Hwf Hk) as (Hall & _).
  rewrite !Forall_app, Forall_singleton in Hall. tauto.
Qed.

Lemma unlink_file (p : string) (w : world) :
  w_fs w !! resolve p = Some KFile →
  unlink p w = log (SysUnlink p 0) (set_fs (delete (resolve p) (w_fs w)) w).
Proof. intros Hp. unfold unlink. by rewrite Hp. Qed.

Lemma rmdir_empty (p : string) (w : world) :
  w_fs w !! resolve p = Some KDir →
  (∀ k, below (resolve p) k → w_fs w !! k = None) →
  rmdir p w = log (SysRmdir p 0) (set_fs (delete (resolve p) (w_fs w)) w).
Proof.
  intros Hp Hempty. unfold rmdir. by rewrite Hp, has_entries_false.
Qed.

Section RemovalFacts.
Variable readdir_all : list string → filesystem → list string.
Hypothesis readdir_names :
  ∀ d fs, fs_wf fs → Forall entry_name (readdir_all d fs).
Hypothesis readdir_complete :
  ∀ d fs n, fs_wf fs → is_Some (fs !! (d ++ [n])) → n ∈ readdir_all d fs.

(** What [remove_one] does with one entry, given what the recursive call
    does with a directory. *)
Lemma remove_one_spec (recurse : string → world → outcome world)
    (d : list string) (pnm : string) (pos : Z) (fuel : nat) :
  (∀ dir w, fs_wf (w_fs w) → w_fs w !! resolve dir = Some KDir →
     depth_ok (resolve dir) fuel (w_fs w) →
     ∃ w', recurse dir w = Done w' ∧ removes_tree dir w w') →
  (∀ n, entry_name n →
     resolve (strcat (substring 0 (Z.to_nat pos) pnm) n) = d ++ [n]) →
  ∀ fnm w, entry_name fnm → fs_wf (w_fs w) →
    depth_ok d (S fuel) (w_fs w) →
    ∃ w' tr, remove_one recurse pnm pos fnm w = Done w'
      ∧ shrinks (below d) w w' tr
      ∧ ∀ k, (d ++ [fnm]) `prefix_of` k → w_fs w' !! k = None.
Proof.
  intros Hrec Hpnm fnm w Hfnm Hwf Hdepth. unfold remove_one.
  assert (d ++ [fnm] ≠ []) as Hc by (by destruct d).
  destruct (String.eqb fnm "." || String.eqb fnm "..") eqn:Hdots.
  - exists w, []. split; [done|]. split.
    + by apply shrinks_refl.
    + intros k Hk. apply (fs_wf_improper _ d k fnm); [done| |done].
      unfold proper_name.
      apply orb_true_iff in Hdots as [->%String.eqb_eq | ->%String.eqb_eq];
        tauto.
  - set (path := strcat (substring 0 (Z.to_nat pos) pnm) fnm).
    assert (resolve path = d ++ [fnm]) as Hpath by (by apply Hpnm).
    unfold stat. rewrite Hpath, lookup_node_nonroot by done.
    set (w1 := log _ w).
    assert (shrinks (below d) w w1 [SysStat path
              match w_fs w !! (d ++ [fnm]) with Some _ => 0 | None => -1 end])
      as Hstat by (by apply shrinks_log).
    destruct (w_fs w !! (d ++ [fnm])) as [[|]|] eqn:Hnode.
    + (* a file *)
      simpl. exists (unlink path w1), ([SysStat path 0] ++ [SysUnlink path 0]).
      split; [done|].
      assert (∀ k', below (d ++ [fnm]) k' → w_fs w1 !! k' = None) as Hleaf.
      { intros k' Hk'. apply (fs_wf_leaf (w_fs w) (d ++ [fnm])); try done.
        congruence. }
      rewrite (unlink_file path w1) by (by rewrite Hpath).
      split.
      * apply (shrinks_trans (below d) w w1); [done | exact Hstat |].
        apply shrinks_delete.
        -- done.
        -- reflexivity.
        -- rewrite Hpath. apply below_child.
        -- rewrite Hpath. by exists KFile.
        -- by rewrite Hpath.
      * intros k Hk. rewrite Hpath.
        change (delete (d ++ [fnm]) (w_fs w) !! k = None).
        destruct (prefix_below_or_eq _ _ Hk) as [<-|Hb].
        -- apply lookup_delete_eq.
        -- rewrite lookup_delete_ne by (by destruct Hb). by apply Hleaf.
    + (* a directory *)
      simpl. destruct (Hrec path w1) as (w' & Hrun & tr & Hsh & Hnone).
      * done.
      * by rewrite Hpath.
      * rewrite Hpath. by apply depth_ok_child.
      * exists w', ([SysStat path 0] ++ (tr ++ [SysRmdir path 0])).
        split; [done|]. split.
        -- apply (shrinks_trans (below d) w w1); [done | exact Hstat |].
           eapply shrinks_mono; [|exact Hsh].
           intros k Hk. simpl in Hk. rewrite Hpath in Hk.
           eapply below_trans_prefix; [apply below_child | done].
        -- intros k Hk. apply Hnone. by rewrite Hpath.
    + (* vanished *)
      exists w1, [SysStat path (-1)]. split; [done|]. split; [done|].
      intros k Hk. simpl.
      destruct (prefix_below_or_eq _ _ Hk) as [<-|Hb]; [done|].
      apply (fs_wf_leaf (w_fs w) (d ++ [fnm])); try done. congruence.
Qed.

(** The [readdir] loop removes what lies below each entry it visits. *)
Lemma readdir_loop_spec (recurse : string → world → outcome world)
    (d : list string) (pnm : string) (pos : Z) (fuel : nat) :
  (∀ dir w, fs_wf (w_fs w) → w_fs w !! resolve dir = Some KDir →
     depth_ok (resolve dir) fuel (w_fs w) →
     ∃ w', recurse dir w = Done w' ∧ removes_tree dir w w') →
  (∀ n, entry_name n →
     resolve (strcat (substring 0 (Z.to_nat pos) pnm) n) = d ++ [n]) →
  ∀ entries w, Forall entry_name entries → fs_wf (w_fs w) →
    depth_ok d (S fuel) (w_fs w) →
    ∃ w' tr,
      readdir_loop (remove_one recurse pnm pos) entries w = Done w'
      ∧ shrinks (below d) w w' tr
      ∧ ∀ n k, n ∈ entries → (d ++ [n]) `prefix_of` k →
               w_fs w' !! k = None.
Proof.
  intros Hrec Hpnm entries.
  induction entries as [|n entries IH]; intros w Hnames Hwf Hdepth.
  - exists w, []. split; [done|]. split; [by apply shrinks_refl|].
    by intros n k ?%elem_of_nil.
  - apply Forall_cons in Hnames as [Hn Hnames].
    destruct (remove_one_spec recurse d pnm pos fuel Hrec Hpnm n w)
      as (w1 & tr1 & Hrun1 & Hsh1 & Hnone1); try done.
    destruct Hsh1 as (Hwf1 & Hsub1 & Hrest1).
    destruct (IH w1) as (w2 & tr2 & Hrun2 & Hsh2 & Hnone2); try done.
    { by apply (depth_ok_shrink d (S fuel) (w_fs w)). }
    exists w2, (tr1 ++ tr2). simpl. rewrite Hrun1. simpl.
    split; [done|]. split.
    + apply (shrinks_trans (below d) w w1); [done | | done].
      by split_and!; try apply Hrest1.
    + intros n' k [->|Hin]%elem_of_cons Hk.
      * destruct Hsh2 as (_ & Hsub2 & _).
        destruct (Hsub2 k) as [? | ->]; [done | by apply Hnone1].
      * by apply (Hnone2 n').
Qed.

(** With fuel for the depth of the tree, [pyi_remove_temp_path] returns
    and has removed the directory and everything in it. *)
Lemma pyi_remove_temp_path_spec (fuel : nat) :
  ∀ dir w, fs_wf (w_fs w) → w_fs w !! resolve dir = Some KDir →
    depth_ok (resolve dir) fuel (w_fs w) →
    ∃ w', pyi_remove_temp_path readdir_all fuel dir w = Done w'
          ∧ removes_tree dir w w'.
Proof.
  induction fuel as [|fuel IH]; intros dir w Hwf Hdir Hdepth.
  { assert (length (resolve dir) < length (resolve dir) + 0)%nat; [|lia].
    apply (depth_ok_lookup _ _ _ _ Hdepth); [by eexists | done]. }
  set (d := resolve dir) in *.
  assert (d ≠ []) as Hd
    by (apply (fs_wf_nonroot (w_fs w)); [done | by eexists]).
  set (w1 := log (SysOpendir dir 0) w).
  set (fnm := if bool_decide (last_char dir ≠ Some PYI_SEP)
              then strcat dir PYI_SEPSTR else dir).
  assert (pyi_remove_temp_path readdir_all (S fuel) dir w
          = obind (readdir_loop
                     (remove_one (pyi_remove_temp_path readdir_all fuel)
                        fnm (strlen fnm))
                     (readdir_all d (w_fs w1)) w1)
                  (λ w2, Done (rmdir dir w2))) as ->.
  { simpl. fold d. rewrite lookup_node_nonroot, Hdir by done.
    subst fnm. case_bool_decide; [|done].
    by rewrite strlen_strcat. }
  destruct (readdir_loop_spec (pyi_remove_temp_path readdir_all fuel) d
              fnm (strlen fnm) fuel IH) with
    (entries := readdir_all d (w_fs w1)) (w := w1)
    as (w2 & tr & Hrun & Hsh & Hnone); try done.
  { intros n Hn. rewrite substring_strlen. by apply fnm_entry. }
  { by apply readdir_names. }
  rewrite Hrun. simpl.
  assert (shrinks (below d) w w1 [SysOpendir dir 0]) as Hopen
    by (by apply shrinks_log).
  pose proof Hsh as (Hwf2 & Hsub2 & Hfr2 & _).
  assert (w_fs w2 !! d = Some KDir) as Hdir2.
  { rewrite Hfr2; [done | by intros [_ ?]]. }
  assert (∀ k, below d k → w_fs w2 !! k = None) as Hempty.
  { intros k Hb. destruct (w_fs w2 !! k) as [x|] eqn:Hk; [|done].
    assert (w_fs w1 !! k = Some x) as Hk1.
    { destruct (Hsub2 k) as [? | <-]; congruence. }
    destruct (below_inv _ _ Hb) as (n & r & ->).
    assert (is_Some (w_fs w1 !! (d ++ [n]))) as Hn.
    { destruct r as [|n' r]; [by eexists|].
      exists KDir. apply (fs_wf_ancestor (w_fs w1) (d ++ [n]) (n' :: r));
        [done | by destruct d | done |].
      rewrite <- app_assoc. by eexists. }
    rewrite <- Hk. apply (Hnone n).
    - by apply readdir_complete.
    - exists r. by rewrite <- app_assoc. }
  rewrite (rmdir_empty dir w2) by done. fold d.
  eexists. split; [done|].
  exists ([SysOpendir dir 0] ++ tr). split.
  - rewrite <- app_assoc.
    apply (shrinks_trans _ w w1); [done | |].
    { eapply shrinks_mono; [|exact Hopen]. intros k. apply below_prefix. }
    apply (shrinks_trans _ w1 w2); [done | |].
    { eapply shrinks_mono; [|exact Hsh]. intros k. apply below_prefix. }
    by apply shrinks_delete.
  - intros k Hk. change (delete d (w_fs w2) !! k = None).
    destruct (prefix_below_or_eq _ _ Hk) as [<-|Hb].
    + apply lookup_delete_eq.
    + rewrite lookup_delete_ne by (by destruct Hb). by apply Hempty.
Qed.

End RemovalFacts.

(** The listing computed from the file system is a listing as [readdir]
    gives it. *)
Lemma drop_prefix_Some (d k r : list string) :
  drop_prefix d k = Some r ↔ k = d ++ r.
Proof.
  revert k. induction d as [|x d IH]; intros k; simpl.
  - split; congruence.
  - destruct k as [|y k]; [done|].
    case_decide as Hxy.
    + subst y. rewrite IH. split; congruence.
    + split; congruence.
Qed.

Lemma child_name_Some (d k : list string) (n : string) :
  child_name d k = Some n ↔ k = d ++ [n].
Proof.
  unfold child_name. destruct (drop_prefix d k) as [r|] eqn:Hr.
  - apply drop_prefix_Some in Hr as ->.
    destruct r as [|n' [|n'' r]]; split; try done.
    + intros Heq. apply (f_equal length) in Heq.
      rewrite !length_app in Heq. simpl in Heq. lia.
    + by intros [= ->].
    + by intros [= <-]%app_inv_head.
    + by intros ?%app_inv_head.
  - split; [done|]. intros ->.
    assert (drop_prefix d (d ++ [n]) = Some [n]) by (by apply drop_prefix_Some).
    congruence.
Qed.

Lemma proper_entry_name (n : string) : proper_name n → entry_name n.
Proof. intros (? & _ & _ & ?). by split. Qed.

Lemma readdir_with_ghost_names (d : list string) (fs : filesystem) :
  fs_wf fs → Forall entry_name (readdir_with_ghost d fs).
Proof.
  intros Hwf. unfold readdir_with_ghost.
  repeat (apply Forall_cons; split; [by split|]).
  apply Forall_forall. intros n (k & Hk & Hn)%list_elem_of_omap.
  apply child_name_Some in Hn.
  apply list_elem_of_fmap in Hk as ([k' x] & Hk' & Hkx).
  apply elem_of_map_to_list in Hkx. simpl in *. subst k k'.
  destruct (fs_wf_lookup _ _ _ Hwf Hkx) as (Hall & _).
  rewrite Forall_app, Forall_singleton in Hall.
  apply proper_entry_name, Hall.
Qed.

Lemma readdir_with_ghost_complete (d : list string) (fs : filesystem)
    (n : string) :
  fs_wf fs → is_Some (fs !! (d ++ [n])) → n ∈ readdir_with_ghost d fs.
Proof.
  intros _ [x Hx]. unfold readdir_with_ghost.
  do 3 apply list_elem_of_further.
  apply list_elem_of_omap. exists (d ++ [n]). split.
  - apply list_elem_of_fmap. exists (d ++ [n], x). split; [done|].
    by apply elem_of_map_to_list.
  - by apply child_name_Some.
Qed.


(** ** Creation of the scratch directory *)

Lemma lookup_node_None (k : list string) (fs : filesystem) :
  lookup_node k fs = None → fs !! k = None.
Proof. unfold lookup_node. by case_decide. Qed.

Lemma mkdir_spec (p : string) (w w' : world) (err : Z) :
  mkdir p w = (w', err) →
  w_env w' = w_env w ∧ w_names w' = w_names w
  ∧ ((err = 0 ∧ created (resolve p) w w')
     ∨ (err ≠ 0 ∧ w_fs w' = w_fs w))
  ∧ ∃ rc, w_trace w' = w_trace w ++ [SysMkdir p rc].
Proof.
  unfold mkdir. case_bool_decide as Herr; intros [= <- <-]; simpl.
  - split_and!; [done | done | | by eexists].
    left. split; [done|]. split; [|apply lookup_insert_eq].
    unfold mkdir_errno in Herr. case_bool_decide; [|done].
    destruct (lookup_node (resolve p) (w_fs w)) eqn:Hk; [done|].
    by apply lookup_node_None.
  - split_and!; [done | done | | by eexists]. by right.
Qed.

Lemma mkdtemp_loop_spec (stem : string) (names : list string) :
  ∀ w w' r, mkdtemp_loop stem names w = (w', r) →
    w_env w' = w_env w
    ∧ match r with
      | Some p => created (resolve p) w w'
      | None => w_fs w' = w_fs w
      end
    ∧ ∃ sys, w_trace w' = w_trace w ++ sys ∧ Forall is_mkdir sys.
Proof.
  induction names as [|n names IH]; intros w w' r; simpl.
  - intros [= <- <-]. split_and!; try done. exists []. by rewrite app_nil_r.
  - destruct (mkdir (stem +:+ n) w) as [w1 err] eqn:Hmk.
    destruct (mkdir_spec _ _ _ _ Hmk) as (He & _ & Hfs & rc & Ht).
    case_bool_decide as Herr.
    + intros [= <- <-]. simpl. split_and!; [done | | ].
      * destruct Hfs as [[_ Hc]|[? _]]; done.
      * exists [SysMkdir (stem +:+ n) rc]. split; [done|].
        by apply Forall_singleton.
    + destruct Hfs as [[? _]|[_ Hfs]]; [done|].
      case_bool_decide; [intros Hloop | intros [= <- <-]].
      * destruct (IH _ _ _ Hloop) as (He' & Hr & sys & Ht' & Hsys).
        split_and!; [congruence | |].
        -- destruct r; [|congruence].
           unfold created in *. by rewrite <- Hfs.
        -- exists (SysMkdir (stem +:+ n) rc :: sys). split.
           ++ rewrite Ht', Ht, <- app_assoc. done.
           ++ by apply Forall_cons.
      * simpl. split_and!; [done | done |].
        exists [SysMkdir (stem +:+ n) rc]. split; [done|].
        by apply Forall_singleton.
Qed.

Lemma template_stem_cons (c : ascii) (t : string) :
  template_stem (String c t) =
    if String.eqb (String c t) "XXXXXX" then Some EmptyString
    else String c <$> template_stem t.
Proof. reflexivity. Qed.

Lemma template_stem_append (stem : string) :
  template_stem (stem +:+ "XXXXXX") = Some stem.
Proof.
  induction stem as [|c stem IH]; [done|].
  rewrite append_cons, template_stem_cons.
  destruct (String.eqb_spec (String c (stem +:+ "XXXXXX")) "XXXXXX")
    as [Heq|_].
  - apply (f_equal String.length) in Heq. simpl in Heq.
    rewrite length_append in Heq. simpl in Heq. lia.
  - by rewrite IH.
Qed.

Lemma mkdtemp_loop_name (stem : string) (names : list string) :
  ∀ w w' p, mkdtemp_loop stem names w = (w', Some p) →
    ∃ n, n ∈ names ∧ p = (stem +:+ n)%string.
Proof.
  induction names as [|n names IH]; intros w w' p; simpl; [done|].
  destruct (mkdir (stem +:+ n) w) as [w1 err].
  case_bool_decide.
  - intros [= <- <-]. exists n. split; [by left | done].
  - case_bool_decide; [|done]. intros Hloop.
    destruct (IH _ _ _ Hloop) as (n' & Hn' & ->).
    exists n'. split; [by right | done].
Qed.

(** [pyi_test_temp_path] calls [mkdtemp] once; it returns 1 with the
    directory [_MEI] followed by a generated name created under [buff],
    or 0 with the file system as it was. *)
Lemma pyi_test_temp_path_spec (buff : string) (w w' : world)
    (buff' : string) (rc : Z) :
  pyi_test_temp_path buff w = (w', buff', rc) →
  w_env w' = w_env w
  ∧ ((rc = 1 ∧ created (resolve buff') w w'
      ∧ ∃ n, n ∈ w_names w
             ∧ buff' = (with_sep buff +:+ "_MEI" +:+ n)%string)
     ∨ (rc = 0 ∧ w_fs w' = w_fs w))
  ∧ ∃ sys r, w_trace w' = w_trace w ++ sys ++ [LibMkdtemp (template_of buff) r]
             ∧ Forall is_mkdir sys
             ∧ (rc = 1 ↔ is_Some r).
Proof.
  unfold pyi_test_temp_path. fold (with_sep buff). fold (template_of buff).
  unfold mkdtemp.
  assert (template_stem (template_of buff)
          = Some (with_sep buff +:+ "_MEI")%string) as ->.
  { unfold template_of, strcat.
    change "_MEIXXXXXX"%string with ("_MEI" +:+ "XXXXXX")%string.
    rewrite <- append_assoc. apply template_stem_append. }
  destruct (mkdtemp_loop _ (w_names w) w) as [w1 r] eqn:Hloop.
  destruct (mkdtemp_loop_spec _ _ _ _ _ Hloop)
    as (He & Hr & sys & Ht & Hsys).
  destruct r as [p|]; intros [= <- <- <-]; simpl.
  - split_and!; [done | |].
    + left. split_and!; [done | done |].
      destruct (mkdtemp_loop_name _ _ _ _ _ Hloop) as (n & Hn & ->).
      exists n. split; [done|]. by rewrite append_assoc.
    + exists sys, (Some p). rewrite Ht, <- app_assoc.
      split_and!; try done.
      all: try (split; [by eexists | done]).
  - split_and!; [done | by right |].
    exists sys, None. rewrite Ht, <- app_assoc.
    split_and!; try done.
    all: try (split; [done | by intros [? ?]]).
Qed.

Lemma first_created_app (l1 l2 : list string) :
  ∀ buff w,
    first_created (l1 ++ l2) buff w =
      let '(w1, buff1, rc) := first_created l1 buff w in
      if bool_decide (rc ≠ 0) then (w1, buff1, 1)
      else first_created l2 buff1 w1.
Proof.
  induction l1 as [|c l1 IH]; intros buff w; simpl; [done|].
  destruct (pyi_test_temp_path c w) as [[w1 buff1] rc].
  case_bool_decide; [done|]. apply IH.
Qed.

Lemma first_created_spec (cands : list string) :
  ∀ buff w w' buff' rc,
    first_created cands buff w = (w', buff', rc) →
    w_env w' = w_env w
    ∧ ((rc = 1 ∧ ∃ k, resolve buff' = k ∧ created k w w')
       ∨ (rc = 0 ∧ w_fs w' = w_fs w)).
Proof.
  induction cands as [|c cands IH]; intros buff w w' buff' rc; simpl.
  - intros [= <- <- <-]. split; [done | by right].
  - destruct (pyi_test_temp_path c w) as [[w1 buff1] rc1] eqn:Htest.
    destruct (pyi_test_temp_path_spec _ _ _ _ _ Htest) as (He & Hfs & _).
    case_bool_decide as Hrc.
    + intros [= <- <- <-]. split; [done|]. left. split; [done|].
      destruct Hfs as [(_ & Hc & _)|[? _]]; [by eexists | done].
    + destruct Hfs as [[? _]|[_ Hfs]]; [lia|].
      intros Hrest. destruct (IH _ _ _ _ _ Hrest) as (He' & Hres).
      split; [congruence|]. unfold created in *. by rewrite <- Hfs.
Qed.

Section ScratchFacts.
Context `{Externs}.

Lemma probe_envname_first (b : build) (names : list string) :
  ∀ buff w,
    probe_envname b names buff w =
      let '(w1, buff1, rc) :=
        first_created (omap (λ name, pyi_getenv b name (w_env w)) names)
          buff w in
      (w1, buff1, bool_decide (rc ≠ 0)).
Proof.
  induction names as [|name names IH]; intros buff w; simpl; [done|].
  destruct (pyi_getenv b name (w_env w)) as [p|]; simpl; [|apply IH].
  destruct (pyi_test_temp_path p w) as [[w1 buff1] rc] eqn:Htest.
  destruct (pyi_test_temp_path_spec _ _ _ _ _ Htest) as (He & _).
  case_bool_decide; [done|]. rewrite IH. by rewrite He.
Qed.

Lemma probe_dirname_first (dirs : list string) :
  ∀ buff w,
    probe_dirname dirs buff w =
      let '(w1, buff1, rc) := first_created dirs buff w in
      (w1, buff1, bool_decide (rc ≠ 0)).
Proof.
  induction dirs as [|d dirs IH]; intros buff w; simpl; [done|].
  destruct (pyi_test_temp_path d w) as [[w1 buff1] rc].
  case_bool_decide; [done|]. apply IH.
Qed.

Lemma first_created_rc (cands : list string) (buff : string) (w : world) :
  (first_created cands buff w).2 = 0 ∨ (first_created cands buff w).2 = 1.
Proof.
  destruct (first_created cands buff w) as [[w' buff'] rc] eqn:Hf.
  destruct (first_created_spec _ _ _ _ _ _ Hf) as (_ & [[-> _]|[-> _]]);
    simpl; auto.
Qed.

(** Without an override the POSIX [pyi_get_temp_path] returns the first
    candidate under which the directory can be created. *)
Lemma pyi_get_temp_path_posix_first (b : build) (buff : string) (w : world) :
  pyi_get_temp_path_posix b buff None w
  = first_created (candidates b (w_env w)) buff w.
Proof.
  unfold pyi_get_temp_path_posix, candidates.
  rewrite probe_envname_first, first_created_app.
  pose proof (first_created_rc
                (omap (λ name, pyi_getenv b name (w_env w)) envname)
                buff w) as Hrc.
  destruct (first_created _ buff w) as [[w1 buff1] rc]. simpl in Hrc.
  case_bool_decide; [done|].
  rewrite probe_dirname_first.
  pose proof (first_created_rc dirname buff1 w1) as Hrc2.
  destruct (first_created dirname buff1 w1) as [[w2 buff2] rc2].
  simpl in Hrc2. case_bool_decide; destruct Hrc2; congruence.
Qed.

End ScratchFacts.

(** *** The Windows loop *)

Lemma attempts_app (tr1 tr2 : list call) :
  attempts (tr1 ++ tr2) = (attempts tr1 + attempts tr2)%nat.
Proof. unfold attempts. by rewrite filter_app, length_app. Qed.

Lemma tmp_seen_app (tr1 tr2 : list call) :
  tmp_seen (tr1 ++ tr2) = tmp_seen tr1 ++ tmp_seen tr2.
Proof. apply omap_app. Qed.

Lemma proposals_app (tr1 tr2 : list call) :
  proposals (tr1 ++ tr2) = proposals tr1 ++ proposals tr2.
Proof. apply omap_app. Qed.

Lemma mkdir_results_app (tr1 tr2 : list call) :
  mkdir_results (tr1 ++ tr2) = mkdir_results tr1 ++ mkdir_results tr2.
Proof. apply omap_app. Qed.

Lemma _wtempnam_spec (dir prefix : string) (w w' : world)
    (r : option string) :
  _wtempnam dir prefix w = (w', r) →
  w_env w' = w_env w ∧ w_fs w' = w_fs w
  ∧ w_trace w' = w_trace w ++ [LibWtempnam (w_env w !! "TMP"%string) r].
Proof.
  unfold _wtempnam. destruct (w_names w); by intros [= <- <-].
Qed.

Lemma _wmkdir_spec (p : option string) (w w' : world) (rc : Z) :
  _wmkdir p w = (w', rc) →
  w_env w' = w_env w
  ∧ ((rc = 0 ∧ ∃ wret, p = Some wret ∧ created (resolve wret) w w')
     ∨ (rc ≠ 0 ∧ w_fs w' = w_fs w))
  ∧ ∃ sys, w_trace w' = w_trace w ++ sys ∧ attempts sys = 0%nat
           ∧ tmp_seen sys = [].
Proof.
  unfold _wmkdir. destruct p as [p|].
  - destruct (mkdir p w) as [w1 err] eqn:Hmk.
    destruct (mkdir_spec _ _ _ _ Hmk) as (He & _ & Hfs & rc' & Ht).
    intros [= <- <-]. split_and!; [done | | by eexists [_]].
    destruct Hfs as [[-> Hc]|[Herr Hfs]].
    + left. split; [done | by eexists].
    + right. by rewrite bool_decide_eq_false_2.
  - intros [= <- <-]. split_and!; [done | by right |].
    exists []. by rewrite app_nil_r.
Qed.

Section Win32Facts.
Context `{Externs}.

Lemma restore_TMP_spec (orig : option string) (w : world) :
  w_fs (restore_TMP orig w) = w_fs w
  ∧ w_trace (restore_TMP orig w) = w_trace w
  ∧ ∀ w0, w_env w0 = w_env w →
          w_env (restore_TMP orig w) = w_env (restore_TMP orig w0).
Proof.
  unfold restore_TMP. destruct orig; simpl; split_and!; try done.
  all: by intros w0 ->.
Qed.

Lemma win32_attempts_spec (n : nat) (wbuf prefix : string)
    (rt orig : option string) :
  ∀ buffer w w' buffer' ret,
    win32_attempts n wbuf prefix rt orig buffer w = (w', buffer', ret) →
    ∃ tr, w_trace w' = w_trace w ++ tr
      ∧ (attempts tr ≤ n)%nat
      ∧ Forall (λ t, t = w_env w !! "TMP"%string) (tmp_seen tr)
      ∧ (ret = false →
           attempts tr = n ∧ w_fs w' = w_fs w ∧ w_env w' = w_env w)
      ∧ (ret = true →
           (∃ wret, created (resolve wret) w w'
                    ∧ buffer' = default buffer
                                  (pyi_win32_utils_to_utf8 wret))
           ∧ w_env w' = match rt with
                        | Some _ => w_env (restore_TMP orig w)
                        | None => w_env w
                        end).
Proof.
  induction n as [|n IH]; intros buffer w w' buffer' ret; simpl.
  - intros [= <- <- <-]. exists []. rewrite app_nil_r.
    split_and!; try done; by apply Forall_nil.
  - destruct (_wtempnam wbuf prefix w) as [w1 wchar_ret] eqn:Hname.
    destruct (_wtempnam_spec _ _ _ _ _ Hname) as (He1 & Hfs1 & Ht1).
    destruct (_wmkdir wchar_ret w1) as [w2 rc] eqn:Hmk.
    destruct (_wmkdir_spec _ _ _ _ Hmk)
      as (He2 & Hfs2 & sys & Ht2 & Hsys & Hseen).
    case_bool_decide as Hrc.
    + intros [= <- <- <-].
      exists (LibWtempnam (w_env w !! "TMP"%string) wchar_ret :: sys).
      destruct (restore_TMP_spec orig w2) as (Hrfs & Hrt & Hre).
      split_and!.
      * destruct rt; rewrite ?Hrt, Ht2, Ht1, <- app_assoc; done.
      * change (_ :: sys) with ([LibWtempnam (w_env w !! "TMP"%string)
                                   wchar_ret] ++ sys).
        rewrite attempts_app, Hsys. simpl. lia.
      * change (_ :: sys) with ([LibWtempnam (w_env w !! "TMP"%string)
                                   wchar_ret] ++ sys).
        rewrite tmp_seen_app, Hseen. by apply Forall_singleton.
      * done.
      * intros _. destruct Hfs2 as [[_ (wret & -> & Hc)]|[? _]]; [|done].
        split.
        -- exists wret. split; [|done].
           unfold created in *. rewrite Hfs1 in Hc.
           destruct rt; rewrite ?Hrfs; done.
        -- destruct rt; [|congruence]. apply Hre. congruence.
    + intros Hrest.
      destruct (IH _ _ _ _ _ Hrest) as (tr & Ht & Hle & Hall & Hf & Hs).
      destruct Hfs2 as [[? _]|[_ Hfs2]]; [done|].
      exists ([LibWtempnam (w_env w !! "TMP"%string) wchar_ret]
              ++ sys ++ tr).
      split_and!.
      * rewrite Ht, Ht2, Ht1, <- !app_assoc. done.
      * rewrite !attempts_app, Hsys. simpl.
        change (attempts [LibWtempnam _ _]) with 1%nat. lia.
      * rewrite !tmp_seen_app, Hseen. simpl.
        apply Forall_cons. split; [done|].
        by rewrite He2, He1 in Hall.
      * intros Hret. destruct (Hf Hret) as (Hn & Hfs & He).
        rewrite !attempts_app, Hsys, Hn.
        change (attempts [LibWtempnam _ _]) with 1%nat.
        split_and!; [lia | congruence | congruence].
      * intros Hret. destruct (Hs Hret) as ((wret & Hc & Hb) & He).
        split.
        -- exists wret. split; [|done].
           unfold created in *. by rewrite Hfs2, Hfs1 in Hc.
        -- rewrite He. destruct rt; [|congruence].
           destruct (restore_TMP_spec orig w2) as (_ & _ & Hre).
           apply Hre. congruence.
Qed.

(** Every attempt asks [_wtempnam] for a name and passes it to [_wmkdir];
    the loop ends at the first directory made. *)
Lemma _wmkdir_exact (p : option string) (w : world) :
  let r := _wmkdir p w in
  w_env r.1 = w_env w
  ∧ ((r.2 = 0
      ∧ ∃ wret, p = Some wret ∧ w_fs w !! resolve wret = None
                ∧ w_fs r.1 = <[resolve wret := KDir]> (w_fs w)
                ∧ w_trace r.1 = w_trace w ++ [SysMkdir wret 0])
     ∨ (r.2 = -1 ∧ w_fs r.1 = w_fs w
        ∧ w_trace r.1
          = w_trace w ++ match p with
                         | Some wret => [SysMkdir wret (-1)]
                         | None => []
                         end)).
Proof.
  unfold _wmkdir. destruct p as [p|]; simpl.
  2: { split; [done|]. right. by rewrite app_nil_r. }
  unfold mkdir. case_bool_decide as Herr; simpl.
  - split; [done|]. left.
    split; [done|]. exists p. split_and!; try done.
    unfold mkdir_errno in Herr. case_bool_decide; [|done].
    destruct (lookup_node (resolve p) (w_fs w)) eqn:Hk; [done|].
    by apply lookup_node_None.
  - rewrite bool_decide_eq_false_2 by done. split; [done|]. by right.
Qed.

Lemma win32_attempts_exact (n : nat) (wbuf prefix : string)
    (rt orig : option string) :
  ∀ buffer w,
    let r := win32_attempts n wbuf prefix rt orig buffer w in
    ∃ tr, w_trace r.1.1 = w_trace w ++ tr
      ∧ (attempts tr ≤ n)%nat
      ∧ (rt = None → w_env r.1.1 = w_env w)
      ∧ if r.2 then
          ∃ wret failed,
            w_fs w !! resolve wret = None
            ∧ w_fs r.1.1 = <[resolve wret := KDir]> (w_fs w)
            ∧ r.1.2 = default buffer (pyi_win32_utils_to_utf8 wret)
            ∧ last (proposals tr) = Some (Some wret)
            ∧ last tr = Some (SysMkdir wret 0)
            ∧ mkdir_results tr = failed ++ [0]
            ∧ Forall (λ rc, rc = -1) failed
        else
          attempts tr = n ∧ w_fs r.1.1 = w_fs w ∧ r.1.2 = buffer
          ∧ Forall (λ rc, rc = -1) (mkdir_results tr).
Proof.
  induction n as [|n IH]; intros buffer w; simpl.
  { exists []. rewrite app_nil_r.
    split_and!; first [done | apply Forall_nil]. }
  destruct (_wtempnam wbuf prefix w) as [w1 wchar_ret] eqn:Hname.
  destruct (_wtempnam_spec _ _ _ _ _ Hname) as (He1 & Hfs1 & Ht1).
  pose proof (_wmkdir_exact wchar_ret w1) as Hmk.
  destruct (_wmkdir wchar_ret w1) as [w2 rc]. simpl in Hmk.
  destruct Hmk as [He2 Hmk].
  set (name := LibWtempnam (w_env w !! "TMP"%string) wchar_ret) in *.
  destruct Hmk as [(-> & wret & -> & Hnone & Hfs2 & Ht2)
                  |(-> & Hfs2 & Ht2)].
  - rewrite bool_decide_eq_true_2 by done. simpl.
    destruct (restore_TMP_spec orig w2) as (Hrfs & Hrt & _).
    exists [name; SysMkdir wret 0]. split_and!.
    + destruct rt; rewrite ?Hrt, Ht2, Ht1, <- app_assoc; done.
    + change (attempts [name; SysMkdir wret 0]) with 1%nat. lia.
    + intros ->. congruence.
    + exists wret, []. rewrite <- Hfs1.
      split_and!; try done.
      destruct rt; rewrite ?Hrfs; done.
  - rewrite bool_decide_eq_false_2 by done.
    destruct (IH buffer w2) as (tr & Ht & Hle & Henv & Hres).
    set (r := win32_attempts n wbuf prefix rt orig buffer w2) in *.
    clearbody r.
    set (one := match wchar_ret with
                | Some wret => [SysMkdir wret (-1)]
                | None => []
                end) in *.
    assert (attempts one = 0%nat ∧ proposals one = []
            ∧ Forall (λ rc, rc = -1) (mkdir_results one)) as (Ha & Hp & Hm).
    { subst one. destruct wchar_ret; split_and!;
        first [done | by apply Forall_singleton | apply Forall_nil]. }
    exists ([name] ++ one ++ tr). split_and!.
    + rewrite Ht, Ht2, Ht1, <- !app_assoc. done.
    + rewrite !attempts_app, Ha.
      change (attempts [name]) with 1%nat. lia.
    + intros Hrt. rewrite (Henv Hrt). congruence.
    + destruct r.2.
      * destruct Hres as (wret & failed & Hnone & Hfs & Hb & Hlp & Hl & Hr
                          & Hf).
        exists wret, (mkdir_results one ++ failed).
        rewrite Hfs2, Hfs1 in *.
        split_and!; try done.
        -- rewrite !proposals_app, Hp.
           destruct (proposals tr) as [|x l]; [done|]. exact Hlp.
        -- destruct tr as [|c tr]; [done|].
           rewrite app_assoc.
           by rewrite (last_app_cons ([name] ++ one) tr c).
        -- rewrite !mkdir_results_app, Hr.
           change (mkdir_results [name]) with (@nil Z).
           by rewrite app_nil_l, app_assoc.
        -- by apply Forall_app.
      * destruct Hres as (Hn & Hfs & Hb & Hf).
        rewrite !attempts_app, Ha, Hn.
        change (attempts [name]) with 1%nat.
        split_and!; [done | congruence | done |].
        rewrite !mkdir_results_app.
        change (mkdir_results [name]) with (@nil Z).
        rewrite app_nil_l. by apply Forall_app.
Qed.

End Win32Facts.

(** *** The result of [pyi_get_temp_path] *)

Section TempPathFacts.
Context `{Externs}.

Lemma pyi_get_temp_path_win32_spec (buffer : string)
    (rt : option string) (w w' : world) (buffer' : string) (rc : Z) :
  pyi_get_temp_path_win32 buffer rt w = (w', buffer', rc) →
  ∃ tr, w_trace w' = w_trace w ++ tr
    ∧ (attempts tr ≤ 5)%nat
    ∧ ((rc = 0 ∧ attempts tr = 5%nat ∧ w_fs w' = w_fs w)
       ∨ (rc = 1 ∧ ∃ wret, created (resolve wret) w w'
                     ∧ buffer' = default buffer
                                   (pyi_win32_utils_to_utf8 wret))).
Proof.
  unfold pyi_get_temp_path_win32.
  set (start := match rt with
                | Some dir => _
                | None => (w, None)
                end).
  assert (w_fs start.1 = w_fs w ∧ w_trace start.1 = w_trace w) as [Hfs0 Ht0]
    by (subst start; by destruct rt).
  destruct start as [w1 orig]. simpl in Hfs0, Ht0.
  destruct (win32_attempts 5 _ _ rt orig buffer w1)
    as [[w2 buffer2] ret] eqn:Hloop.
  destruct (win32_attempts_spec _ _ _ _ _ _ _ _ _ _ Hloop)
    as (tr & Ht & Hle & _ & Hf & Hs).
  destruct ret; intros [= <- <- <-].
  - exists tr. split_and!; [congruence | done |]. right. split; [done|].
    destruct (Hs eq_refl) as ((wret & Hc & Hb) & _).
    exists wret. split; [|done]. unfold created in *. by rewrite <- Hfs0.
  - destruct (Hf eq_refl) as (Hn & Hfs & _).
    destruct (restore_TMP_spec orig w2) as (Hrfs & Hrt & _).
    exists tr. split_and!.
    + destruct rt; rewrite ?Hrt; congruence.
    + done.
    + left. split_and!; [done | done |].
      destruct rt; rewrite ?Hrfs; congruence.
Qed.

Lemma pyi_get_temp_path_spec (b : build) (buffer : string)
    (rt : option string) (w w' : world) (buffer' : string) (rc : Z) :
  (WIN32 b = true → ∀ ws, is_Some (pyi_win32_utils_to_utf8 ws)) →
  pyi_get_temp_path b buffer rt w = (w', buffer', rc) →
  rc = 0 ∨ (rc = 1 ∧ ∃ k, denotes b buffer' k ∧ created k w w').
Proof.
  intros Hutf8. unfold pyi_get_temp_path, denotes.
  destruct (WIN32 b) eqn:Hb.
  - intros Hrun.
    destruct (pyi_get_temp_path_win32_spec _ _ _ _ _ _ Hrun)
      as (tr & _ & _ & [[-> _]|[-> (wret & Hc & Hbuf)]]); [by left|].
    right. split; [done|]. exists (resolve wret). split; [|done].
    exists wret. split; [|done].
    destruct (Hutf8 eq_refl wret) as [s Hs]. rewrite Hs in Hbuf.
    by rewrite Hbuf.
  - destruct rt as [dir|].
    + unfold pyi_get_temp_path_posix.
      destruct (pyi_test_temp_path dir w) as [[w1 buff1] rc1] eqn:Htest.
      destruct (pyi_test_temp_path_spec _ _ _ _ _ Htest) as (_ & Hfs & _).
      case_bool_decide; intros [= <- <- <-]; [|by left].
      destruct Hfs as [(_ & Hc & _)|[? _]]; [|done].
      right. split; [done | by eexists].
    + rewrite pyi_get_temp_path_posix_first. intros Hf.
      destruct (first_created_spec _ _ _ _ _ _ Hf)
        as (_ & [[-> (k & Hk & Hc)]|[-> _]]); [|by left].
      right. split; [done | by exists k].
Qed.

End TempPathFacts.

(** C6: without an override the POSIX [pyi_get_temp_path] tries, in this
    order, the values of TMPDIR, TEMP and TMP that [pyi_getenv] finds and
    then /tmp, /var/tmp and /usr/tmp, and returns 1 at the first one under
    which the directory is created, 0 when all fail; every candidate costs
    exactly one call of [mkdtemp], which on success has created a new
    directory named [_MEI] and a generated name under the candidate.
    The Windows [pyi_get_temp_path] asks [_wtempnam] for a name at most
    5 times and passes each name to [_wmkdir]: it returns 1 at the first
    directory made, which is the one node added to the file system, is
    the name of the last attempt and is what the buffer names, every
    [mkdir] before it having failed; it returns 0 only after 5 attempts
    that made nothing, with the file system and the buffer as before.
    The environment is unchanged.  When [pyi_get_temp_path] returns 0,
    [pyi_create_temp_path] logs the fatal error and returns -1. *)
Theorem pyi_get_temp_path_candidates `{Externs} (b : build) (buff : string)
    (w : world) (status : ARCHIVE_STATUS) :
  candidates b (w_env w) =
    omap (λ name, pyi_getenv b name (w_env w)) ["TMPDIR"; "TEMP"; "TMP"]%string
    ++ ["/tmp"; "/var/tmp"; "/usr/tmp"]%string
  ∧ (WIN32 b = false →
       pyi_get_temp_path b buff None w
       = first_created (candidates b (w_env w)) buff w
       ∧ ∀ c w0,
           (∃ sys r,
              w_trace (pyi_test_temp_path c w0).1.1
              = w_trace w0 ++ sys ++ [LibMkdtemp (template_of c) r]
              ∧ Forall is_mkdir sys
              ∧ ((pyi_test_temp_path c w0).2 = 1 ↔ is_Some r))
           ∧ ((pyi_test_temp_path c w0).2 = 0
              ∨ (pyi_test_temp_path c w0).2 = 1
                ∧ created (resolve (pyi_test_temp_path c w0).1.2) w0
                    (pyi_test_temp_path c w0).1.1
                ∧ ∃ n, n ∈ w_names w0
                       ∧ (pyi_test_temp_path c w0).1.2
                         = (with_sep c +:+ "_MEI" +:+ n)%string))
  ∧ (WIN32 b = true →
       ∃ tr,
         w_trace (pyi_get_temp_path b buff None w).1.1 = w_trace w ++ tr
         ∧ (attempts tr ≤ 5)%nat
         ∧ w_env (pyi_get_temp_path b buff None w).1.1 = w_env w
         ∧ ((pyi_get_temp_path b buff None w).2 = 0
            ∨ (pyi_get_temp_path b buff None w).2 = 1)
         ∧ ((pyi_get_temp_path b buff None w).2 = 0 →
            attempts tr = 5%nat
            ∧ w_fs (pyi_get_temp_path b buff None w).1.1 = w_fs w
            ∧ (pyi_get_temp_path b buff None w).1.2 = buff
            ∧ Forall (λ rc, rc = -1) (mkdir_results tr))
         ∧ ((pyi_get_temp_path b buff None w).2 = 1 →
            ∃ wret failed,
              w_fs w !! resolve wret = None
              ∧ w_fs (pyi_get_temp_path b buff None w).1.1
                = <[resolve wret := KDir]> (w_fs w)
              ∧ (pyi_get_temp_path b buff None w).1.2
                = default buff (pyi_win32_utils_to_utf8 wret)
              ∧ last (proposals tr) = Some (Some wret)
              ∧ last tr = Some (SysMkdir wret 0)
              ∧ mkdir_results tr = failed ++ [0]
              ∧ Forall (λ rc, rc = -1) failed))
  ∧ (has_temp_directory status = false →
     (pyi_get_temp_path b (temppath status)
        (pyi_arch_get_option status "pyi-runtime-tmpdir") w).2 = 0 →
     (pyi_create_temp_path b status w).2 = -1
     ∧ last (w_trace (pyi_create_temp_path b status w).1.2)
       = Some (LogFatal
                 "INTERNAL ERROR: cannot create temporary directory!")).
Proof.
  split_and!.
  - done.
  - intros Hb. split.
    + unfold pyi_get_temp_path. rewrite Hb.
      apply pyi_get_temp_path_posix_first.
    + intros c w0.
      destruct (pyi_test_temp_path c w0) as [[w1 buff1] rc] eqn:Htest.
      destruct (pyi_test_temp_path_spec _ _ _ _ _ Htest)
        as (_ & Hfs & sys & r & Hr).
      split; [by exists sys, r|]. simpl.
      destruct Hfs as [?|[? _]]; [by right | by left].
  - intros Hb. unfold pyi_get_temp_path. rewrite Hb.
    unfold pyi_get_temp_path_win32.
    destruct (win32_attempts_exact 5 (GetTempPathW (w_env w))
                wprefix_MEI_pid None None buff w)
      as (tr & Ht & Hle & Henv & Hres).
    destruct (win32_attempts 5 _ _ None None buff w)
      as [[w2 buffer2] returned].
    cbn [fst snd] in *. exists tr.
    destruct returned; cbn [fst snd].
    + split_and!; [done | done | by apply Henv | by right | done |].
      intros _. exact Hres.
    + destruct Hres as (Hn & Hfs & Hb' & Hfailed).
      split_and!; [done | done | by apply Henv | by left | done | done].
  - intros Hflag Hrc. unfold pyi_create_temp_path. rewrite Hflag. simpl.
    destruct (pyi_get_temp_path b (temppath status) _ w)
      as [[w1 buffer] rc]. simpl in Hrc. subst rc. simpl.
    split; [done | apply last_snoc].
Qed.

(** Probing when TMPDIR names a missing directory and /tmp exists, and
    when no candidate exists. *)
Lemma pyi_get_temp_path_candidates_witness :
  pyi_get_temp_path (H := ascii_externs) linux EmptyString None world_with_tmp
  = first_created ["/var/folders"; "/tmp"; "/var/tmp"; "/usr/tmp"]%string
      EmptyString world_with_tmp
  ∧ (pyi_get_temp_path (H := ascii_externs) linux EmptyString None
       world_with_tmp).1.2 = "/tmp/_MEIbbbbbb"%string
  ∧ (∃ wret,
       (pyi_get_temp_path (H := ascii_externs) windows EmptyString None
          world_without_tmp).1.2 = wret
       ∧ w_fs (pyi_get_temp_path (H := ascii_externs) windows EmptyString
                 None world_without_tmp).1.1
         = <[resolve wret := KDir]> (w_fs world_without_tmp))
  ∧ (pyi_create_temp_path (H := ascii_externs) linux empty_status
       world_without_tmp).2 = -1.
Proof.
  split_and!.
  - destruct (pyi_get_temp_path_candidates (H := ascii_externs) linux EmptyString
                world_with_tmp empty_status) as (_ & Hposix & _).
    destruct (Hposix eq_refl) as [Heq _]. exact Heq.
  - destruct (pyi_get_temp_path_candidates (H := ascii_externs) linux EmptyString
                world_with_tmp empty_status) as (_ & Hposix & _).
    destruct (Hposix eq_refl) as [Heq _]. rewrite Heq.
    vm_compute. reflexivity.
  - destruct (pyi_get_temp_path_candidates (H := ascii_externs) windows EmptyString
                world_without_tmp empty_status) as (_ & _ & Hwin & _).
    destruct (Hwin eq_refl) as (tr & _ & _ & _ & _ & _ & Hmade).
    destruct Hmade as (wret & failed & _ & Hfs & Hbuf & _);
      [vm_compute; reflexivity|].
    exists wret. split; [exact Hbuf | exact Hfs].
  - destruct (pyi_get_temp_path_candidates (H := ascii_externs) linux EmptyString
                world_without_tmp empty_status) as (_ & _ & _ & Hfatal).
    apply Hfatal; vm_compute; reflexivity.
Defined.

Lemma pyi_create_temp_path_set `{Externs} (b : build)
    (status : ARCHIVE_STATUS) (w : world) :
  has_temp_directory status = true →
  pyi_create_temp_path b status w = (status, w, 0).
Proof. intros Hflag. unfold pyi_create_temp_path. by rewrite Hflag. Qed.

Lemma pyi_create_temp_path_unset `{Externs} (b : build)
    (status : ARCHIVE_STATUS) (w : world) :
  has_temp_directory status = false →
  pyi_create_temp_path b status w =
    let '(w1, buffer, rc) :=
      pyi_get_temp_path b (temppath status)
        (pyi_arch_get_option status "pyi-runtime-tmpdir") w in
    if bool_decide (rc = 0) then
      ({| has_temp_directory := false; temppath := buffer;
          homepath := homepath status; options := options status |},
       log (LogFatal "INTERNAL ERROR: cannot create temporary directory!")
         w1,
       -1)
    else
      ({| has_temp_directory := true; temppath := buffer;
          homepath := homepath status; options := options status |},
       w1, 0).
Proof.
  intros Hflag. unfold pyi_create_temp_path. rewrite Hflag. simpl.
  by destruct (pyi_get_temp_path _ _ _ _) as [[? ?] ?].
Qed.

(** C7: when [has_temp_directory] is set, [pyi_create_temp_path] returns
    0 and changes neither the status nor the world (no call is made); when
    it is not set, the call either returns 0, sets the flag and
    [temppath] names a directory that did not exist before and exists
    now, or returns -1 and leaves the flag unset; and a call that follows
    a successful one changes nothing and returns 0. *)
Theorem pyi_create_temp_path_idempotent `{Externs} (b : build)
    (status : ARCHIVE_STATUS) (w : world) :
  (WIN32 b = true → ∀ ws, is_Some (pyi_win32_utils_to_utf8 ws)) →
  let r := pyi_create_temp_path b status w in
  (has_temp_directory status = true → r = (status, w, 0))
  ∧ (has_temp_directory status = false →
       (r.2 = 0 ∧ has_temp_directory r.1.1 = true
        ∧ ∃ k, denotes b (temppath r.1.1) k ∧ created k w r.1.2)
       ∨ (r.2 = -1 ∧ has_temp_directory r.1.1 = false))
  ∧ (r.2 = 0 → pyi_create_temp_path b r.1.1 r.1.2 = (r.1.1, r.1.2, 0)).
Proof.
  intros Hutf8 r. subst r.
  destruct (has_temp_directory status) eqn:Hflag.
  - rewrite (pyi_create_temp_path_set b status w Hflag). simpl.
    split_and!; [done | done |]. intros _.
    by apply pyi_create_temp_path_set.
  - rewrite (pyi_create_temp_path_unset b status w Hflag).
    destruct (pyi_get_temp_path b (temppath status) _ w)
      as [[w1 buffer] rc] eqn:Hrun.
    destruct (pyi_get_temp_path_spec _ _ _ _ _ _ _ Hutf8 Hrun)
      as [-> | [-> Hk]]; simpl.
    + split_and!; [done | by intros _; right | done].
    + split_and!; [done | by intros _; left |].
      intros _. by apply pyi_create_temp_path_set.
Qed.

(** Two calls in succession on Linux. *)
Lemma pyi_create_temp_path_idempotent_witness :
  let r := pyi_create_temp_path (H := ascii_externs) linux empty_status
             world_with_tmp in
  r.2 = 0
  ∧ temppath r.1.1 = "/tmp/_MEIbbbbbb"%string
  ∧ w_fs r.1.2 !! ["tmp"; "_MEIbbbbbb"]%string = Some KDir
  ∧ pyi_create_temp_path (H := ascii_externs) linux r.1.1 r.1.2
    = (r.1.1, r.1.2, 0).
Proof.
  intros r.
  destruct (pyi_create_temp_path_idempotent (H := ascii_externs) linux
              empty_status world_with_tmp) as (_ & Hfirst & Hsecond).
  - intros [=].
  - assert (r.2 = 0) as Hrc by (vm_compute; reflexivity).
    split_and!.
    + exact Hrc.
    + vm_compute. reflexivity.
    + destruct (Hfirst eq_refl) as [(_ & _ & k & Hden & _ & Hc)|[Hbad _]].
      * unfold denotes in Hden. simpl in Hden.
        assert (resolve (temppath r.1.1) = ["tmp"; "_MEIbbbbbb"]%string)
          as Hres by (vm_compute; reflexivity).
        fold r in Hden. rewrite Hres in Hden. subst k. exact Hc.
      * fold r in Hbad. rewrite Hrc in Hbad. discriminate Hbad.
    + apply Hsecond. exact Hrc.
Defined.



(** ** The child process launcher *)

(** [strstr(arg, needle) == arg] tests whether [arg] begins with
    [needle]. *)
Lemma strstr_prefix (arg needle : string) :
  strstr arg needle = Some 0%nat ↔ String.prefix needle arg = true.
Proof.
  unfold strstr. rewrite prefix_correct. split.
  - intros Hi. by apply index_correct1 in Hi.
  - intros Hp. destruct (index 0 needle arg) as [m|] eqn:Hi.
    + destruct m as [|m]; [done|]. exfalso.
      apply (index_correct2 _ _ _ _ Hi 0%nat); [lia | lia | done].
    + exfalso. destruct (decide (needle = EmptyString)) as [->|Hne].
      * apply index_correct4 in Hi. lia.
      * by apply (index_correct3 _ 0%nat _ _ Hi Hne).
Qed.

Lemma copy_argv_spec (b : build) (argv : list string) :
  copy_argv b argv =
    if APPLE b && WINDOWED b
    then filter (λ arg, String.prefix "-psn" arg = false) argv
    else argv.
Proof.
  unfold copy_argv.
  assert (∀ acc,
    fold_left
      (λ argv_pyi arg,
         if APPLE b && WINDOWED b
            && bool_decide (strstr arg "-psn" = Some 0%nat)
         then argv_pyi else argv_pyi ++ [arg]) argv acc
    = acc ++ (if APPLE b && WINDOWED b
              then filter (λ arg, String.prefix "-psn" arg = false) argv
              else argv)) as Hgen.
  { induction argv as [|arg argv IH]; intros acc; simpl.
    - destruct (APPLE b && WINDOWED b); by rewrite ?filter_nil, app_nil_r.
    - rewrite IH. destruct (APPLE b && WINDOWED b); simpl.
      + case_bool_decide as Hs.
        * apply strstr_prefix in Hs.
          rewrite filter_cons_False; [done | congruence].
        * rewrite filter_cons_True, <- app_assoc; [done|].
          destruct (String.prefix "-psn" arg) eqn:Hp; [|done].
          by apply strstr_prefix in Hp.
      + by rewrite <- app_assoc. }
  apply (Hgen []).
Qed.

(** C9: the vector [argv_pyi] that the copy loop builds, and that the
    child passes to [execvp], is [argv] without the arguments that begin
    with "-psn" on the windowed macOS build (in the original order), and
    all of [argv] on the other builds; on the windowed macOS build the
    documents of the OpenDocument events received before the fork are
    appended to it. *)
Theorem pyi_utils_create_child_filters_argv `{Externs} (b : build)
    (plat : signal_platform) (thisfile : string) (status : ARCHIVE_STATUS)
    (argv : list string) (h : happenings) (st : process) :
  let passed :=
    if APPLE b && WINDOWED b
    then filter (λ arg, String.prefix "-psn" arg = false) argv
         ++ apple_docs h
    else argv in
  copy_argv b argv =
    (if APPLE b && WINDOWED b
     then filter (λ arg, String.prefix "-psn" arg = false) argv
     else argv)
  ∧ (fork_result h = 0 →
     CallExecvp thisfile passed
       ∈ calls (pyi_utils_create_child b plat thisfile status argv h st).1
     ∧ (execvp_fails h = false →
        (pyi_utils_create_child b plat thisfile status argv h st).2
        = Replaced thisfile passed)).
Proof.
  intros passed. split; [apply copy_argv_spec|].
  intros Hfork. unfold pyi_utils_create_child.
  rewrite Hfork. simpl.
  set (st1 := if APPLE b && WINDOWED b then _ else _).
  assert (argv_pyi st1 = passed) as Hargv.
  { subst st1 passed. rewrite copy_argv_spec.
    by destruct (APPLE b && WINDOWED b). }
  unfold set_systemd_env.
  assert (∀ st2, argv_pyi st2 = passed →
    CallExecvp thisfile passed
      ∈ calls (if execvp_fails h
               then cleanup plat (-1) 0
                      (record (CallExecvp thisfile (argv_pyi st2)) st2)
               else (record (CallExecvp thisfile (argv_pyi st2)) st2,
                     Replaced thisfile (argv_pyi st2))).1
    ∧ (execvp_fails h = false →
       (if execvp_fails h
        then cleanup plat (-1) 0
               (record (CallExecvp thisfile (argv_pyi st2)) st2)
        else (record (CallExecvp thisfile (argv_pyi st2)) st2,
              Replaced thisfile (argv_pyi st2))).2
       = Replaced thisfile passed)) as Hexec.
  { intros st2 ->. destruct (execvp_fails h); simpl.
    - split; [|done]. unfold cleanup. simpl.
      rewrite !elem_of_app, !list_elem_of_singleton. auto.
    - split; [|done]. rewrite elem_of_app, list_elem_of_singleton. auto. }
  destruct (pyi_getenv b "LISTEN_PID" _) as [pid|].
  - destruct (pyi_setenv b "LISTEN_PID" _ _) as [e rc]. by apply Hexec.
  - by apply Hexec.
Qed.

(** A launch from the Finder: the argument -psn_0_12345 is dropped. *)
Lemma pyi_utils_create_child_filters_argv_witness :
  let argv :=
    ["/Applications/App"; "-psn_0_12345"; "a.txt"; "b.txt"]%string in
  (pyi_utils_create_child (H := ascii_externs) macos_windowed linux_signals
     "/Applications/App" empty_status argv in_child (fresh_process ∅)).2
  = Replaced "/Applications/App"
      ["/Applications/App"; "a.txt"; "b.txt"]%string.
Proof.
  intros argv.
  destruct (pyi_utils_create_child_filters_argv (H := ascii_externs)
              macos_windowed linux_signals "/Applications/App"
              empty_status argv in_child (fresh_process ∅))
    as (_ & Hchild).
  destruct (Hchild eq_refl) as (_ & Hend).
  rewrite (Hend eq_refl). vm_compute. reflexivity.
Defined.

(** *** Signal dispositions *)


Section SignalFacts.
Variable plat : signal_platform.

Lemma signal_spec (signum : Z) (handler : sighandler) (st : process) :
  calls (signal plat signum handler st)
  = calls st ++ [CallSignal signum handler]
  ∧ handlers (signal plat signum handler st)
    = (if settable plat signum then <[signum := handler]> (handlers st)
       else handlers st)
  ∧ child_pid (signal plat signum handler st) = child_pid st
  ∧ argv_pyi (signal plat signum handler st) = argv_pyi st.
Proof. unfold signal. by destruct (settable plat signum). Qed.

(** A loop that calls [signal] for the selected numbers of a list. *)
Lemma signal_loop_spec (f : process → Z → process) (sel : Z → bool)
    (handler : sighandler) :
  (∀ st s, f st s = if sel s then signal plat s handler st else st) →
  ∀ l st,
    calls (fold_left f l st)
    = calls st ++ map (λ s, CallSignal s handler)
                    (filter (λ s, sel s = true) l)
    ∧ (∀ s, handlers (fold_left f l st) !! s =
            if bool_decide (s ∈ l ∧ sel s = true ∧ settable plat s = true)
            then Some handler else handlers st !! s)
    ∧ child_pid (fold_left f l st) = child_pid st
    ∧ argv_pyi (fold_left f l st) = argv_pyi st.
Proof.
  intros Hf l. induction l as [|a l IH]; intros st; simpl.
  - rewrite ?filter_nil. simpl. rewrite app_nil_r. by split_and!.
  - destruct (IH (f st a)) as (Hc & Hh & Hp & Ha).
    destruct (signal_spec a handler st) as (Hc1 & Hh1 & Hp1 & Ha1).
    rewrite (Hf st a) in *.
    destruct (sel a) eqn:Hsel.
    + rewrite filter_cons_True by done. simpl.
      rewrite Hc, Hp, Ha, Hc1, Hp1, Ha1, <- app_assoc.
      split_and!; try done.
      intros s. rewrite Hh, Hh1.
      destruct (decide (s ∈ l ∧ sel s = true ∧ settable plat s = true))
        as [Hin|Hnin].
      { rewrite !bool_decide_eq_true_2; [done | | done].
        destruct Hin as (? & ? & ?). split_and!; [|done|done].
        by apply elem_of_cons; right. }
      rewrite (bool_decide_eq_false_2 _ Hnin).
      destruct (decide (s = a)) as [->|Hne].
      * destruct (settable plat a) eqn:Hset.
        -- rewrite lookup_insert_eq, bool_decide_eq_true_2; [done|].
           split_and!; [|done|done]. by apply elem_of_cons; left.
        -- rewrite bool_decide_eq_false_2; [done|].
           intros (_ & _ & ?). congruence.
      * rewrite bool_decide_eq_false_2.
        -- destruct (settable plat a); [|done].
           by rewrite lookup_insert_ne.
        -- intros (Hin & ? & ?). apply Hnin. split_and!; [|done|done].
           apply elem_of_cons in Hin as [?|?]; [congruence | done].
    + rewrite filter_cons_False by congruence.
      rewrite Hc, Hp, Ha. split_and!; try done.
      intros s. rewrite Hh.
      apply (f_equal (λ c : bool, if c then Some handler
                                  else handlers st !! s)).
      apply bool_decide_ext. split.
      * intros (Hin & ? & ?). split_and!; [|done|done].
        by apply elem_of_cons; right.
      * intros (Hin & Hs & Hset). split; [|done].
        apply elem_of_cons in Hin as [->|?]; [congruence | done].
Qed.

Lemma install_handlers_spec (handler : sighandler) (st : process) :
  calls (install_handlers plat handler st)
  = calls st ++ map (λ s, CallSignal s handler)
                  (filter (λ s, s ≠ SIGCHLD plat ∧ s ≠ SIGCLD plat)
                     (seqZ 0 65))
  ∧ (∀ s, handlers (install_handlers plat handler st) !! s =
          if bool_decide (caught plat s) then Some handler
          else handlers st !! s)
  ∧ child_pid (install_handlers plat handler st) = child_pid st
  ∧ argv_pyi (install_handlers plat handler st) = argv_pyi st.
Proof.
  unfold install_handlers.
  destruct (signal_loop_spec _
              (λ s, bool_decide (s ≠ SIGCHLD plat)
                    && bool_decide (s ≠ SIGCLD plat)) handler
              (λ st s, eq_refl) (seqZ 0 (Z.of_nat num_signals)) st)
    as (Hc & Hh & Hp & Ha).
  split_and!; try done.
  - rewrite Hc. do 2 f_equal. apply list_filter_iff. intros s.
    rewrite andb_true_iff, !bool_decide_eq_true. done.
  - intros s. rewrite Hh.
    apply (f_equal (λ c : bool, if c then Some handler
                                else handlers st !! s)).
    apply bool_decide_ext. unfold caught.
    rewrite elem_of_seqZ, andb_true_iff, !bool_decide_eq_true.
    unfold num_signals. simpl. intuition lia.
Qed.

Lemma restore_handlers_spec (st : process) :
  calls (restore_handlers plat st)
  = calls st ++ map (λ s, CallSignal s SIG_DFL) (seqZ 0 65)
  ∧ (∀ s, handlers (restore_handlers plat st) !! s =
          if bool_decide (0 ≤ s < 65 ∧ settable plat s = true)
          then Some SIG_DFL else handlers st !! s)
  ∧ child_pid (restore_handlers plat st) = child_pid st
  ∧ argv_pyi (restore_handlers plat st) = argv_pyi st.
Proof.
  unfold restore_handlers.
  destruct (signal_loop_spec _ (λ _, true) SIG_DFL
              (λ st s, eq_refl) (seqZ 0 (Z.of_nat num_signals)) st)
    as (Hc & Hh & Hp & Ha).
  split_and!; try done.
  intros s. rewrite Hh.
    apply (f_equal (λ c : bool, if c then Some SIG_DFL
                                else handlers st !! s)).
    apply bool_decide_ext.
  rewrite elem_of_seqZ. unfold num_signals. simpl. intuition lia.
Qed.

End SignalFacts.

(** *** The wait status *)




(** *** Delivery of signals and the wait *)

Section LauncherFacts.
Variable plat : signal_platform.





End LauncherFacts.

Lemma poll_child_spec (n : nat) (h : happenings) :
  ∀ st,
    (poll_child n h st).1.2 = (wait_result h).1
    ∧ (poll_child n h st).2 = (wait_result h).2
    ∧ handlers (poll_child n h st).1.1 = handlers st
    ∧ child_pid (poll_child n h st).1.1 = child_pid st
    ∧ argv_pyi (poll_child n h st).1.1 = argv_pyi st
    ∧ ∃ waits, calls (poll_child n h st).1.1 = calls st ++ waits
               ∧ Forall is_wait_call waits.
Proof.
  induction n as [|n IH]; intros st; simpl.
  - destruct (wait_result h) as [wait_rc rc]. simpl.
    split_and!; try done. eexists [_]. split; [done|].
    by apply Forall_singleton.
  - destruct (IH (record CallProcessAppleEvents
                    (record (CallWaitpid (child_pid st) WNOHANG 0 0) st)))
      as (H1 & H2 & H3 & H4 & H5 & waits & Hc & Hw).
    split_and!; try done.
    exists ([CallWaitpid (child_pid st) WNOHANG 0 0;
             CallProcessAppleEvents] ++ waits).
    split.
    + rewrite Hc. simpl. by rewrite <- !app_assoc.
    + apply Forall_app. split; [|done]. by repeat constructor.
Qed.

Lemma wait_for_child_spec (b : build) (h : happenings) (st : process) :
  (wait_for_child b h st).1.2 = (wait_result h).1
  ∧ (wait_for_child b h st).2 = (wait_result h).2
  ∧ handlers (wait_for_child b h st).1.1 = handlers st
  ∧ child_pid (wait_for_child b h st).1.1 = child_pid st
  ∧ argv_pyi (wait_for_child b h st).1.1 = argv_pyi st
  ∧ ∃ waits, calls (wait_for_child b h st).1.1 = calls st ++ waits
             ∧ Forall is_wait_call waits.
Proof.
  unfold wait_for_child. destruct (APPLE b && WINDOWED b).
  - apply poll_child_spec.
  - destruct (wait_result h) as [wait_rc rc]. simpl.
    split_and!; try done. eexists [_]. split; [done|].
    by apply Forall_singleton.
Qed.

(** *** The exit translation *)

Section CleanupFacts.
Variable plat : signal_platform.






End CleanupFacts.







(** * Properties of the rest of [pyi_utils.c] *)

(** ** Joining strings *)

Lemma from_option_strlen_int (o : option string) :
  strlen (default EmptyString o) < 2 ^ 31 →
  from_option strlen_int 0 o = strlen (default EmptyString o).
Proof.
  intros Ho. destruct o as [s|]; simpl in *; [|done].
  unfold strlen_int. apply to_int_small.
  pose proof (strlen_nonneg s). lia.
Qed.

Lemma strlen_joined (f s t : string) :
  strlen (joined f s t) ≤ strlen f + strlen s + strlen t.
Proof.
  unfold joined. pose proof (strlen_nonneg s).
  case_bool_decide; rewrite ?strlen_strcat; unfold strlen;
    rewrite ?length_append; unfold strlen in *; lia.
Qed.

(** X1: for strings whose lengths add up to less than [INT_MAX],
    [pyi_strjoin] returns [first], [sep] and [second] in a row when both
    [first] and [second] are non-empty, and [first] followed by [second]
    without the separator otherwise; a NULL argument counts as the empty
    string; and the result with its terminator fits the block
    allocated. *)
Theorem pyi_strjoin_joined (first sep second : option string) :
  strlen (default EmptyString first) + strlen (default EmptyString sep)
    + strlen (default EmptyString second) + 1 < 2 ^ 31 →
  pyi_strjoin first sep second
  = joined (default EmptyString first) (default EmptyString sep)
      (default EmptyString second)
  ∧ strlen (pyi_strjoin first sep second) + 1
    ≤ pyi_strjoin_size first sep second.
Proof.
  set (f := default EmptyString first).
  set (s := default EmptyString sep).
  set (t := default EmptyString second).
  intros Hlen.
  pose proof (strlen_nonneg f). pose proof (strlen_nonneg s).
  pose proof (strlen_nonneg t).
  assert (pyi_strjoin first sep second = joined f s t) as Hjoin.
  { unfold pyi_strjoin, strcat.
    rewrite !from_option_strlen_int by (fold f s t; lia).
    fold f s t. unfold joined.
    assert (∀ x, bool_decide (strlen x ≠ 0)
                 = bool_decide (x ≠ EmptyString)) as Hnz.
    { intros x. apply bool_decide_ext. by rewrite strlen_zero_iff. }
    rewrite !Hnz.
    destruct (decide (f = EmptyString)) as [Hf|Hf];
      destruct (decide (s = EmptyString)) as [Hs|Hs];
      destruct (decide (t = EmptyString)) as [Ht|Ht];
      rewrite ?Hf, ?Hs, ?Ht;
      repeat first
        [ rewrite (bool_decide_eq_true_2 (_ ≠ EmptyString)) by done
        | rewrite (bool_decide_eq_false_2 (EmptyString ≠ EmptyString)%string)
            by tauto
        | rewrite (bool_decide_eq_true_2 (_ ∧ _)) by done
        | rewrite (bool_decide_eq_false_2 (_ ∧ _)) by tauto ];
      simpl; rewrite ?append_empty_r, ?append_empty_l, ?append_assoc;
      done. }
  split; [done|]. rewrite Hjoin.
  unfold pyi_strjoin_size.
  rewrite !from_option_strlen_int by (fold f s t; lia).
  fold f s t. rewrite to_int_small by lia.
  pose proof (strlen_joined f s t). lia.
Qed.

(** Joining a directory and a search path, and joining with NULL. *)
Lemma pyi_strjoin_joined_witness :
  pyi_strjoin (Some "/opt/app"%string) (Some ":"%string)
    (Some "/usr/lib"%string) = "/opt/app:/usr/lib"%string
  ∧ pyi_strjoin (Some "/opt/app"%string) (Some ":"%string) None
    = "/opt/app"%string
  ∧ strlen (pyi_strjoin (Some "/opt/app"%string) (Some ":"%string) None) + 1
    ≤ pyi_strjoin_size (Some "/opt/app"%string) (Some ":"%string) None.
Proof.
  destruct (pyi_strjoin_joined (Some "/opt/app"%string) (Some ":"%string)
              (Some "/usr/lib"%string)) as [H1 _];
    [vm_compute; reflexivity|].
  destruct (pyi_strjoin_joined (Some "/opt/app"%string) (Some ":"%string)
              None) as [H2 H3];
    [vm_compute; reflexivity|].
  split; [exact H1|]. split; [exact H2 | exact H3].
Defined.

(** ** Setting, removing and reading a variable *)

Section EnvironmentRoundTrips.
Context `{Externs}.

Lemma pyi_getenv_stored (b : build) (variable : string) (e : environment) :
  (WIN32 b = true → utf8_round_trip) →
  pyi_getenv b variable e =
    match stored_name b variable ≫= (e !!.) with
    | Some w =>
        if bool_decide (w ≠ EmptyString)
        then (if WIN32 b then pyi_win32_utils_to_utf8 w else Some w)
               ≫= (λ s, if bool_decide (s ≠ EmptyString) then Some s
                        else None)
        else None
    | None => None
    end.
Proof.
  intros Hutf. destruct (WIN32 b) eqn:Hb.
  - unfold pyi_getenv. rewrite (pyi_getenv_env_win32 b _ _ Hb).
    unfold stored_value, stored_name. rewrite Hb.
    destruct (pyi_win32_utils_from_utf8 variable ≫= (e !!.)) as [w|];
      [|done].
    case_bool_decide; [|done].
    destruct (pyi_win32_utils_to_utf8 w) as [s|]; [|done]. simpl.
    destruct (String.eqb_spec s EmptyString); simpl.
    + by rewrite bool_decide_eq_false_2 by tauto.
    + by rewrite bool_decide_eq_true_2.
  - rewrite (pyi_getenv_posix b _ _ Hb). unfold stored_name. rewrite Hb.
    simpl. destruct (e !! variable) as [w|]; [|done].
    by case_bool_decide.
Qed.

Lemma stored_name_inj (b : build) (x y : string) (n : string) :
  (WIN32 b = true → utf8_round_trip) →
  stored_name b x = Some n → stored_name b y = Some n → x = y.
Proof.
  intros Hutf. unfold stored_name. destruct (WIN32 b).
  - destruct (Hutf eq_refl) as [_ Hrt]. intros Hx Hy.
    apply Hrt in Hx. apply Hrt in Hy. congruence.
  - congruence.
Qed.

End EnvironmentRoundTrips.

(** X2: when [pyi_setenv variable value] returns 0, [pyi_getenv variable]
    returns [value], or NULL when [value] is the empty string, and
    [pyi_getenv] of every other variable returns what it returned before;
    when [pyi_setenv] returns another value the environment is
    unchanged.  On Windows this needs that the conversion to wide
    characters and back gives the string. *)
Theorem pyi_setenv_then_pyi_getenv `{Externs} (b : build)
    (variable value : string) (e : environment) :
  (WIN32 b = true → utf8_round_trip) →
  let r := pyi_setenv b variable value e in
  (r.2 = 0 →
     pyi_getenv b variable r.1
     = (if bool_decide (value ≠ EmptyString) then Some value else None)
     ∧ ∀ other, other ≠ variable →
                pyi_getenv b other r.1 = pyi_getenv b other e)
  ∧ (r.2 ≠ 0 → r.1 = e).
Proof.
  intros Hutf r. subst r. split.
  - intros Hrc.
    assert (∃ n w,
              stored_name b variable = Some n
              ∧ (if WIN32 b then pyi_win32_utils_from_utf8 value = Some w
                 else w = value)
              ∧ (pyi_setenv b variable value e).1
                = (if WIN32 b && bool_decide (w = EmptyString)
                   then delete n e else <[n := w]> e))
      as (n & w & Hn & Hw & He).
    { unfold pyi_setenv, stored_name in *. destruct (WIN32 b); simpl.
      - unfold _wputenv_s in *.
        destruct (pyi_win32_utils_from_utf8 variable) as [n|]; [|done].
        destruct (pyi_win32_utils_from_utf8 value) as [w|]; [|done].
        exists n, w. split_and!; [done | done |].
        destruct (String.eqb_spec w EmptyString).
        + by rewrite bool_decide_eq_true_2.
        + by rewrite bool_decide_eq_false_2.
      - unfold setenv in *. destruct (env_name_ok variable); [|done].
        by exists variable, value. }
    rewrite He. split.
    + rewrite (pyi_getenv_stored b variable _ Hutf), Hn. simpl.
      destruct (WIN32 b) eqn:Hb; simpl.
      * destruct (Hutf eq_refl) as [Hempty Hrt].
        pose proof (Hrt _ _ Hw) as Hback.
        case_bool_decide as Hwe.
        -- subst w. rewrite lookup_delete_eq.
           rewrite (Hrt _ _ Hempty) in Hback. injection Hback as <-.
           by rewrite bool_decide_eq_false_2 by tauto.
        -- rewrite lookup_insert_eq.
           rewrite bool_decide_eq_true_2 by done.
           rewrite Hback. done.
      * subst w. rewrite lookup_insert_eq. simpl.
        by destruct (bool_decide (value ≠ EmptyString)).
    + intros other Hother.
      rewrite !(pyi_getenv_stored b other _ Hutf).
      destruct (stored_name b other) as [n'|] eqn:Hn'; [|done]. simpl.
      assert (n' ≠ n) as Hne.
      { intros ->. apply Hother.
        by apply (stored_name_inj b other variable n). }
      destruct (WIN32 b && bool_decide (w = EmptyString)).
      * by rewrite lookup_delete_ne.
      * by rewrite lookup_insert_ne.
  - unfold pyi_setenv. destruct (WIN32 b).
    + unfold _wputenv_s.
      destruct (pyi_win32_utils_from_utf8 variable); [|done].
      destruct (pyi_win32_utils_from_utf8 value); [|done].
      by destruct (String.eqb _ _).
    + unfold setenv. by destruct (env_name_ok variable).
Qed.

Lemma ascii_externs_round_trip : utf8_round_trip (H := ascii_externs).
Proof. split; [done|]. by intros s w [= ->]. Qed.

(** Setting and reading _MEIPASS2 on Windows. *)
Lemma pyi_setenv_then_pyi_getenv_witness :
  pyi_getenv (H := ascii_externs) windows "_MEIPASS2"
    (pyi_setenv (H := ascii_externs) windows "_MEIPASS2" "C:/tmp/_MEI42"
       {[ "PATH"%string := "C:/bin"%string ]}).1
  = Some "C:/tmp/_MEI42"%string
  ∧ pyi_getenv (H := ascii_externs) windows "PATH"
      (pyi_setenv (H := ascii_externs) windows "_MEIPASS2" "C:/tmp/_MEI42"
         {[ "PATH"%string := "C:/bin"%string ]}).1
    = pyi_getenv (H := ascii_externs) windows "PATH"
        {[ "PATH"%string := "C:/bin"%string ]}.
Proof.
  destruct (pyi_setenv_then_pyi_getenv (H := ascii_externs) windows
              "_MEIPASS2" "C:/tmp/_MEI42"
              {[ "PATH"%string := "C:/bin"%string ]}
              (λ _, ascii_externs_round_trip)) as [Hset _].
  destruct (Hset eq_refl) as [Hget Hframe].
  split; [exact Hget|]. apply Hframe. discriminate.
Defined.

(** X3: after [pyi_unsetenv variable] has succeeded, [pyi_getenv variable]
    returns NULL on every build.  On a POSIX build without [unsetenv] the
    variable stays in the environment with the empty value; with
    [unsetenv], and on Windows, it is removed.  The variables stored
    under other names are unchanged.  On POSIX the call returns 0 on
    success; on Windows it returns the result of SetEnvironmentVariableW,
    which is not zero on success and zero on failure. *)
Theorem pyi_unsetenv_then_pyi_getenv `{Externs} (b : build)
    (variable : string) (e : environment) :
  let r := pyi_unsetenv b variable e in
  (WIN32 b = false → r.2 = 0) →
  pyi_getenv b variable r.1 = None
  ∧ (WIN32 b = false →
       r.1 !! variable
       = if HAVE_UNSETENV b then None else Some EmptyString)
  ∧ (WIN32 b = true →
       stored_value b variable r.1 = None
       ∧ (r.2 ≠ 0 ↔ is_Some (pyi_win32_utils_from_utf8 variable)))
  ∧ (∀ n, stored_name b variable ≠ Some n → r.1 !! n = e !! n).
Proof.
  intros r Hrc. subst r. unfold pyi_unsetenv in *.
  destruct (WIN32 b) eqn:Hb.
  - unfold SetEnvironmentVariableW_NULL.
    assert (stored_value b variable
              (match pyi_win32_utils_from_utf8 variable with
               | Some n => (delete n e, 1)
               | None => (e, 0)
               end).1 = None) as Hstored.
    { unfold stored_value. rewrite Hb.
      destruct (pyi_win32_utils_from_utf8 variable) as [n|]; simpl;
        [apply lookup_delete_eq | done]. }
    split_and!.
    + unfold pyi_getenv.
      by rewrite (pyi_getenv_env_win32 b _ _ Hb), Hstored.
    + done.
    + intros _. split; [done|].
      destruct (pyi_win32_utils_from_utf8 variable); simpl.
      * split; [by eexists | done].
      * split; [done | by intros [? ?]].
    + intros n Hn. unfold stored_name in Hn. rewrite Hb in Hn.
      destruct (pyi_win32_utils_from_utf8 variable) as [n'|]; [|done].
      simpl. apply lookup_delete_ne. congruence.
  - specialize (Hrc eq_refl).
    rewrite (pyi_getenv_posix b _ _ Hb).
    unfold stored_name. rewrite Hb.
    destruct (HAVE_UNSETENV b).
    + unfold unsetenv in *. destruct (env_name_ok variable); [|done].
      simpl. rewrite lookup_delete_eq.
      split_and!; [done | done | done |].
      intros n Hn. apply lookup_delete_ne. congruence.
    + unfold setenv in *. destruct (env_name_ok variable); [|done].
      simpl. rewrite lookup_insert_eq.
      rewrite bool_decide_eq_false_2 by tauto.
      split_and!; [done | done | done |].
      intros n Hn. apply lookup_insert_ne. congruence.
Qed.

(** Removing _MEIPASS2 on AIX, where [unsetenv] is not used. *)
Lemma pyi_unsetenv_then_pyi_getenv_witness :
  let e : environment := {[ "_MEIPASS2"%string := "/tmp/_MEIabc"%string ]} in
  pyi_getenv (H := ascii_externs) aix "_MEIPASS2"
    (pyi_unsetenv (H := ascii_externs) aix "_MEIPASS2" e).1 = None
  ∧ (pyi_unsetenv (H := ascii_externs) aix "_MEIPASS2" e).1
      !! "_MEIPASS2"%string = Some EmptyString.
Proof.
  intros e.
  destruct (pyi_unsetenv_then_pyi_getenv (H := ascii_externs) aix
              "_MEIPASS2" e) as (Hget & Hstay & _).
  - reflexivity.
  - split; [exact Hget | exact (Hstay eq_refl)].
Defined.

(** ** Staging of the environment *)

Section StagingFacts.
Context `{Externs}.

Lemma pyi_unsetenv_posix (b : build) (variable : string) (e : environment) :
  WIN32 b = false → env_name_ok variable = true →
  pyi_unsetenv b variable e
  = (if HAVE_UNSETENV b then delete variable e
     else <[variable := EmptyString]> e, 0).
Proof.
  intros Hb Hok. unfold pyi_unsetenv, unsetenv, setenv.
  rewrite Hb, Hok. by destruct (HAVE_UNSETENV b).
Qed.

(** Removing the variables of a list one after the other. *)
Lemma pyi_unsetenv_all (b : build) (l : list string) :
  WIN32 b = false → Forall (λ v, env_name_ok v = true) l →
  ∀ e,
    let e' := fold_left (λ e v, (pyi_unsetenv b v e).1) l e in
    (∀ v, v ∈ l → pyi_getenv b v e' = None)
    ∧ (∀ v, pyi_getenv b v e = None → pyi_getenv b v e' = None)
    ∧ (∀ x, x ∉ l → e' !! x = e !! x).
Proof.
  intros Hb. induction l as [|a l IH]; intros Hok e; simpl.
  - split_and!; [by intros v ?%elem_of_nil | done | done].
  - apply Forall_cons in Hok as [Ha Hok].
    rewrite (pyi_unsetenv_posix b a e Hb Ha). simpl.
    set (e1 := if HAVE_UNSETENV b then delete a e
               else <[a := EmptyString]> e).
    assert (pyi_getenv b a e1 = None) as Hgone.
    { rewrite (pyi_getenv_posix b _ _ Hb). subst e1.
      destruct (HAVE_UNSETENV b).
      - by rewrite lookup_delete_eq.
      - rewrite lookup_insert_eq.
        by rewrite bool_decide_eq_false_2 by tauto. }
    assert (∀ x, x ≠ a → e1 !! x = e !! x) as Hframe.
    { intros x Hx. subst e1. destruct (HAVE_UNSETENV b).
      - by apply lookup_delete_ne.
      - by apply lookup_insert_ne. }
    destruct (IH Hok e1) as (Hin & Hkeep & Hout).
    split_and!.
    + intros v [->|Hv]%elem_of_cons; [by apply Hkeep | by apply Hin].
    + intros v Hv. apply Hkeep.
      destruct (decide (v = a)) as [->|Hne]; [done|].
      rewrite (pyi_getenv_posix b v e1 Hb).
      rewrite (pyi_getenv_posix b v e Hb) in Hv. by rewrite Hframe.
    + intros x Hx. apply not_elem_of_cons in Hx as [Hne Hx].
      rewrite Hout by done. by apply Hframe.
Qed.

(** [set_dynamic_library_path] on strings whose length fits an [int]. *)
Lemma set_dynamic_library_path_posix (b : build) (path : string)
    (e : environment) :
  WIN32 b = false →
  strlen path < 2 ^ 31 →
  (∀ V, e !! env_var b = Some V → strlen V < 2 ^ 31) →
  set_dynamic_library_path b path e
  = (<[env_var b :=
         joined path ":" (default EmptyString (e !! env_var b))]>
       (match e !! env_var b with
        | Some V =>
            if bool_decide (V ≠ EmptyString)
            then <[env_var_orig b := V]> e else e
        | None => e
        end), 0).
Proof.
  intros Hb Hpath HV.
  destruct (env_var_ok b) as (Hok & Hok' & Hne).
  unfold set_dynamic_library_path.
  rewrite (pyi_getenv_posix b _ e Hb).
  destruct (e !! env_var b) as [V|] eqn:HeV; simpl.
  - specialize (HV V eq_refl). case_bool_decide as HVe.
    + rewrite (pyi_strjoin_colon path (Some V) Hpath)
        by (by intros ? [= <-]).
      rewrite (pyi_setenv_posix b _ _ _ Hb Hok').
      rewrite (pyi_setenv_posix b _ _ _ Hb Hok). done.
    + assert (V = EmptyString) as ->
        by (destruct (decide (V = EmptyString)); [done | tauto]).
      rewrite (pyi_strjoin_colon path None Hpath) by done.
      rewrite (pyi_setenv_posix b _ _ _ Hb Hok). unfold joined.
      rewrite bool_decide_eq_false_2 by tauto.
      by rewrite append_empty_r.
  - rewrite (pyi_strjoin_colon path None Hpath) by done.
    rewrite (pyi_setenv_posix b _ _ _ Hb Hok). unfold joined.
    rewrite bool_decide_eq_false_2 by tauto.
    by rewrite append_empty_r.
Qed.

End StagingFacts.

(** X4: on macOS [pyi_utils_set_environment] returns 0, and afterwards
    [pyi_getenv] returns NULL for each of the seven DYLD variables while
    every other variable, the library search path included, is as
    before. *)
Theorem pyi_utils_set_environment_macos `{Externs} (b : build)
    (status : ARCHIVE_STATUS) (e : environment) :
  WIN32 b = false → APPLE b = true →
  let r := pyi_utils_set_environment b status e in
  r.2 = 0
  ∧ (∀ v, v ∈ dyld_variables → pyi_getenv b v r.1 = None)
  ∧ (∀ x, x ∉ dyld_variables → r.1 !! x = e !! x).
Proof.
  intros Hb Ha r.
  assert (r = (fold_left (λ e v, (pyi_unsetenv b v e).1) dyld_variables e,
               0)) as ->.
  { subst r. unfold pyi_utils_set_environment. by rewrite Hb, Ha. }
  cbn [fst snd].
  destruct (pyi_unsetenv_all b dyld_variables Hb) with (e := e)
    as (Hin & _ & Hout).
  { by repeat constructor. }
  by split_and!.
Qed.

(** The environment of a process started from a shell on macOS. *)
Lemma pyi_utils_set_environment_macos_witness :
  let e : environment :=
    {[ "DYLD_LIBRARY_PATH"%string := "/opt/local/lib"%string;
       "HOME"%string := "/Users/me"%string ]} in
  let r := pyi_utils_set_environment (H := ascii_externs) macos_windowed
             empty_status e in
  r.2 = 0
  ∧ pyi_getenv (H := ascii_externs) macos_windowed "DYLD_LIBRARY_PATH" r.1
    = None
  ∧ r.1 !! "HOME"%string = Some "/Users/me"%string.
Proof.
  intros e r.
  destruct (pyi_utils_set_environment_macos (H := ascii_externs)
              macos_windowed empty_status e eq_refl eq_refl)
    as (Hrc & Hin & Hout).
  split; [exact Hrc|]. split.
  - apply Hin. apply (bool_decide_unpack _). vm_compute. exact I.
  - fold r. rewrite Hout; [reflexivity|].
    apply (bool_decide_unpack _). vm_compute. exact I.
Defined.

(** X5: on the POSIX builds other than macOS [pyi_utils_set_environment]
    stages [temppath] when it is not empty and [homepath] otherwise: the
    search-path variable then holds that directory joined by ":" to its
    prior value, the directory that was not chosen is not added, no
    variable other than the search-path variable and its shadow changes,
    and the call returns 0. *)
Theorem pyi_utils_set_environment_stages `{Externs} (b : build)
    (status : ARCHIVE_STATUS) (e : environment) :
  WIN32 b = false → APPLE b = false →
  strlen (temppath status) < 2 ^ 31 →
  strlen (homepath status) < 2 ^ 31 →
  (∀ V, e !! env_var b = Some V → strlen V < 2 ^ 31) →
  let r := pyi_utils_set_environment b status e in
  r.2 = 0
  ∧ r.1 !! env_var b
    = Some (joined
              (if bool_decide (temppath status ≠ EmptyString)
               then temppath status else homepath status)
              ":" (default EmptyString (e !! env_var b)))
  ∧ (∀ x, x ≠ env_var b → x ≠ env_var_orig b → r.1 !! x = e !! x).
Proof.
  intros Hb Ha Htemp Hhome HV r.
  assert (r = set_dynamic_library_path b (staged_directory status) e)
    as ->.
  { subst r. unfold pyi_utils_set_environment, staged_directory.
    rewrite Hb, Ha.
    destruct (String.eqb_spec (temppath status) EmptyString); simpl.
    - by rewrite bool_decide_eq_false_2 by tauto.
    - by rewrite bool_decide_eq_true_2. }
  rewrite (set_dynamic_library_path_posix b _ e Hb); [|  | done].
  2: { unfold staged_directory. by case_bool_decide. }
  cbn [fst snd]. fold (staged_directory status).
  split_and!; [done | apply lookup_insert_eq |].
  intros x Hx Hx'. rewrite lookup_insert_ne by done.
  destruct (e !! env_var b) as [V|]; [|done].
  case_bool_decide; [|done]. by rewrite lookup_insert_ne.
Qed.

(** Onefile mode on Linux: the scratch directory is staged, not the
    directory of the executable. *)
Lemma pyi_utils_set_environment_stages_witness :
  let status :=
    {| has_temp_directory := true; temppath := "/tmp/_MEIabc";
       homepath := "/opt/app"; options := ∅ |} in
  let e : environment :=
    {[ "LD_LIBRARY_PATH"%string := "/usr/lib"%string ]} in
  (pyi_utils_set_environment (H := ascii_externs) linux status e).1
    !! "LD_LIBRARY_PATH"%string
  = Some "/tmp/_MEIabc:/usr/lib"%string.
Proof.
  intros status e.
  destruct (pyi_utils_set_environment_stages (H := ascii_externs) linux
              status e) as (_ & Hvar & _).
  - reflexivity.
  - reflexivity.
  - vm_compute. reflexivity.
  - vm_compute. reflexivity.
  - intros V HV. vm_compute in HV. injection HV as <-.
    vm_compute. reflexivity.
  - exact Hvar.
Defined.

(** X6: [set_dynamic_library_path] is not idempotent.  After a first
    call with the non-empty [path1] and a second call with [path2], the
    search-path variable holds [path2] joined to what the first call
    left, and the shadow variable holds what the first call left in the
    search-path variable ([path1] joined to the original value): the
    value from before the first call is no longer in the shadow
    variable. *)
Theorem set_dynamic_library_path_twice `{Externs} (b : build)
    (path1 path2 : string) (e : environment) :
  WIN32 b = false →
  path1 ≠ EmptyString →
  strlen path2 < 2 ^ 31 →
  strlen path1 + 1 + strlen (default EmptyString (e !! env_var b))
    < 2 ^ 31 →
  let original := default EmptyString (e !! env_var b) in
  let e1 := (set_dynamic_library_path b path1 e).1 in
  let e2 := (set_dynamic_library_path b path2 e1).1 in
  e1 !! env_var b = Some (joined path1 ":" original)
  ∧ e2 !! env_var b = Some (joined path2 ":" (joined path1 ":" original))
  ∧ e2 !! env_var_orig b = Some (joined path1 ":" original)
  ∧ joined path1 ":" original ≠ original.
Proof.
  intros Hb Hne Hp2 Hlen original e1 e2.
  destruct (env_var_ok b) as (_ & _ & Hvars).
  assert (original = default EmptyString (e !! env_var b)) as Horig
    by done.
  clearbody original. rewrite <- Horig in Hlen.
  pose proof (strlen_nonneg path1). pose proof (strlen_nonneg original).
  assert (strlen (joined path1 ":" original) < 2 ^ 31) as Hjlen.
  { pose proof (strlen_joined path1 ":" original).
    change (strlen ":") with 1 in *. lia. }
  assert (joined path1 ":" original ≠ EmptyString) as Hjne.
  { unfold joined. case_bool_decide; by destruct path1. }
  assert (e1 !! env_var b = Some (joined path1 ":" original)) as He1.
  { subst e1. rewrite (set_dynamic_library_path_posix b path1 e Hb).
    - rewrite Horig. apply lookup_insert_eq.
    - lia.
    - intros V HV. rewrite HV in Horig. simpl in Horig. subst V. lia. }
  assert (e2 !! env_var b
          = Some (joined path2 ":" (joined path1 ":" original))
          ∧ e2 !! env_var_orig b = Some (joined path1 ":" original))
    as [He2 Hshadow].
  { subst e2. rewrite (set_dynamic_library_path_posix b path2 e1 Hb).
    - rewrite He1. cbn [fst default].
      rewrite bool_decide_eq_true_2 by done.
      rewrite lookup_insert_eq, lookup_insert_ne, lookup_insert_eq
        by done.
      done.
    - done.
    - intros V HV. rewrite He1 in HV. by injection HV as <-. }
  split_and!; [done | done | done |].
  unfold joined. intros Heq.
  apply (f_equal String.length) in Heq.
  case_bool_decide; rewrite !length_append in Heq;
    destruct path1; simpl in *; try done; lia.
Qed.

(** Two launches nested in each other on Linux. *)
Lemma set_dynamic_library_path_twice_witness :
  let e : environment :=
    {[ "LD_LIBRARY_PATH"%string := "/usr/lib"%string ]} in
  let e1 := (set_dynamic_library_path (H := ascii_externs) linux
               "/tmp/_MEIabc" e).1 in
  let e2 := (set_dynamic_library_path (H := ascii_externs) linux
               "/tmp/_MEIxyz" e1).1 in
  e2 !! "LD_LIBRARY_PATH"%string
  = Some "/tmp/_MEIxyz:/tmp/_MEIabc:/usr/lib"%string
  ∧ e2 !! "LD_LIBRARY_PATH_ORIG"%string
    = Some "/tmp/_MEIabc:/usr/lib"%string.
Proof.
  intros e e1 e2.
  destruct (set_dynamic_library_path_twice (H := ascii_externs) linux
              "/tmp/_MEIabc" "/tmp/_MEIxyz" e)
    as (_ & Hvar & Hshadow & _).
  - reflexivity.
  - discriminate.
  - vm_compute. reflexivity.
  - vm_compute. reflexivity.
  - split; [exact Hvar | exact Hshadow].
Defined.

(** ** The launcher *)

(** X7: in the child ([fork] returned 0) [pyi_utils_create_child] makes no
    call other than [execvp] with the vector built before the fork: no
    signal disposition is changed and nothing is waited for.  LISTEN_PID
    is set to the decimal process id of the child exactly when it held a
    non-empty value, and no other variable changes.  When [execvp] fails
    the vector is released and the call returns 1; otherwise the process
    image is replaced. *)
Theorem pyi_utils_create_child_in_child `{Externs} (b : build)
    (plat : signal_platform) (thisfile : string) (status : ARCHIVE_STATUS)
    (argv : list string) (h : happenings) (st : process) :
  WIN32 b = false →
  fork_result h = 0 →
  let r := pyi_utils_create_child b plat thisfile status argv h st in
  let passed := vector_built b argv h in
  calls r.1
  = calls st
    ++ (if APPLE b && WINDOWED b then [CallProcessAppleEvents] else [])
    ++ [CallFork 0; CallExecvp thisfile passed]
    ++ (if execvp_fails h then [CallFreeArgs passed] else [])
  ∧ r.2 = (if execvp_fails h then Returns 1 else Replaced thisfile passed)
  ∧ handlers r.1 = handlers st
  ∧ p_env r.1
    = match p_env st !! "LISTEN_PID"%string with
      | Some v =>
          if bool_decide (v ≠ EmptyString)
          then <["LISTEN_PID"%string := pretty.pretty (getpid_child h)]>
                 (p_env st)
          else p_env st
      | None => p_env st
      end.
Proof.
  intros Hb Hfork r passed. subst r passed.
  unfold pyi_utils_create_child, vector_built. rewrite Hfork.
  rewrite bool_decide_eq_false_2 by lia.
  rewrite bool_decide_eq_true_2 by done.
  unfold set_systemd_env, process_apple_events_argv.
  rewrite (pyi_getenv_posix b _ _ Hb).
  rewrite (pyi_setenv_posix b "LISTEN_PID" _ _ Hb eq_refl).
  unfold cleanup. rewrite bool_decide_eq_true_2 by lia.
  destruct (APPLE b && WINDOWED b); cbn [p_env set_argv_pyi record];
    destruct (p_env st !! "LISTEN_PID"%string) as [v|];
    try destruct (bool_decide (v ≠ EmptyString));
    destruct (execvp_fails h); cbn;
    rewrite <- ?app_assoc; done.
Qed.

(** A service started by socket activation: LISTEN_PID named the
    launcher and names the child afterwards. *)
Lemma pyi_utils_create_child_in_child_witness :
  let st := fresh_process {[ "LISTEN_PID"%string := "4000"%string;
                             "LISTEN_FDS"%string := "1"%string ]} in
  let r := pyi_utils_create_child (H := ascii_externs) linux linux_signals
             "/opt/app/run" empty_status ["run"%string] in_child st in
  r.2 = Replaced "/opt/app/run" ["run"%string]
  ∧ p_env r.1 !! "LISTEN_PID"%string = Some "4711"%string
  ∧ p_env r.1 !! "LISTEN_FDS"%string = Some "1"%string.
Proof.
  intros st r.
  destruct (pyi_utils_create_child_in_child (H := ascii_externs) linux
              linux_signals "/opt/app/run" empty_status ["run"%string]
              in_child st eq_refl eq_refl) as (_ & Hend & _ & Henv).
  split; [exact Hend|]. fold r in Henv. rewrite Henv.
  split; vm_compute; reflexivity.
Defined.

Lemma frees_app (tr1 tr2 : list pcall) :
  frees (tr1 ++ tr2) = frees tr1 ++ frees tr2.
Proof. apply omap_app. Qed.

Lemma frees_none (tr : list pcall) :
  Forall (λ c, freed c = None) tr → frees tr = [].
Proof.
  induction 1 as [|c tr Hc _ IH]; [done|].
  unfold frees in *. simpl. by rewrite Hc.
Qed.

Section ReleaseFacts.
Variable plat : signal_platform.

Lemma deliver_no_release (signum : Z) (st : process) :
  ∃ tr, calls (deliver plat signum st).1 = calls st ++ tr
        ∧ frees tr = []
        ∧ argv_pyi (deliver plat signum st).1 = argv_pyi st
        ∧ ((deliver plat signum st).2 = None
           ∨ (deliver plat signum st).2 = Some signum).
Proof.
  unfold deliver.
  destruct (disposition signum st); simpl;
    try destruct (default_terminates plat signum); simpl;
    first [ by exists []; rewrite app_nil_r; auto
          | by eexists [_]; auto ].
Qed.

Lemma deliver_all_no_release (signums : list Z) :
  ∀ st, ∃ tr, calls (deliver_all plat signums st).1 = calls st ++ tr
              ∧ frees tr = []
              ∧ argv_pyi (deliver_all plat signums st).1 = argv_pyi st.
Proof.
  induction signums as [|s signums IH]; intros st; simpl.
  - exists []. by rewrite app_nil_r.
  - destruct (deliver_no_release s st) as (tr1 & Hc1 & Hf1 & Ha1 & _).
    destruct (deliver plat s st) as [st1 [k|]]; simpl in *.
    + by exists tr1.
    + destruct (IH st1) as (tr2 & Hc2 & Hf2 & Ha2).
      exists (tr1 ++ tr2). rewrite Hc2, Hc1, Ha2, Ha1, <- app_assoc.
      split_and!; [done | | done]. by rewrite frees_app, Hf1, Hf2.
Qed.

(** From the label [cleanup] on, the vector is released once, before
    the signal is raised. *)
Lemma cleanup_releases (wait_rc rc : Z) (st : process) :
  ∃ after,
    calls (cleanup plat wait_rc rc st).1
    = calls st ++ CallFreeArgs (argv_pyi st) :: after
    ∧ frees after = []
    ∧ match (cleanup plat wait_rc rc st).2 with
      | Returns _ => True
      | Killed s => CallRaise s ∈ after
      | _ => False
      end.
Proof.
  unfold cleanup. case_bool_decide; simpl.
  { by exists []. }
  destruct (WIFEXITED rc); simpl.
  { by exists []. }
  destruct (WIFSIGNALED rc); simpl.
  2: { by exists []. }
  unfold raise.
  set (st1 := record (CallRaise (WTERMSIG rc))
                (record (CallFreeArgs (argv_pyi st)) st)).
  destruct (raise_accepts plat (WTERMSIG rc)).
  2: { exists [CallRaise (WTERMSIG rc)]. subst st1. simpl.
       by rewrite <- app_assoc. }
  destruct (deliver_no_release (WTERMSIG rc) st1)
    as (tr & Hc & Hf & _ & Hk).
  destruct (deliver plat (WTERMSIG rc) st1) as [st2 [k|]]; simpl in *.
  - destruct Hk as [Hk|[= ->]]; [done|].
    exists (CallRaise (WTERMSIG rc) :: tr). rewrite Hc. subst st1. simpl.
    rewrite <- !app_assoc. split_and!; [done | done | by left].
  - exists (CallRaise (WTERMSIG rc) :: tr). rewrite Hc. subst st1. simpl.
    rewrite <- !app_assoc. split_and!; done.
Qed.

End ReleaseFacts.

(** X8: whenever [pyi_utils_create_child] returns, the vector built
    before the fork has been released exactly once, on every path: after
    a failed [fork], after a failed [execvp] in the child, and in the
    parent after the wait, whatever its result.  When the process image
    is replaced nothing is released.  When the process is ended by a
    signal, either the signal came while the parent waited and nothing
    was released, or it is the signal raised after the release. *)
Theorem pyi_utils_create_child_releases_argv `{Externs} (b : build)
    (plat : signal_platform) (thisfile : string) (status : ARCHIVE_STATUS)
    (argv : list string) (h : happenings) (st : process) :
  ∃ tr,
    calls (pyi_utils_create_child b plat thisfile status argv h st).1
    = calls st ++ tr
    ∧ match (pyi_utils_create_child b plat thisfile status argv h st).2
      with
      | Returns _ => frees tr = [vector_built b argv h]
      | Replaced _ _ | StillWaiting => frees tr = []
      | Killed s =>
          frees tr = []
          ∨ (frees tr = [vector_built b argv h] ∧ CallRaise s ∈ tr)
      end.
Proof.
  unfold pyi_utils_create_child.
  set (st0 := if APPLE b && WINDOWED b then _ else _).
  assert (argv_pyi st0 = vector_built b argv h
          ∧ ∃ before, calls st0 = calls st ++ before ∧ frees before = [])
    as (Ha0 & before & Hc0 & Hf0).
  { subst st0. unfold vector_built.
    destruct (APPLE b && WINDOWED b); cbn.
    - split; [done|]. by eexists [_].
    - split; [done|]. exists []. by rewrite app_nil_r. }
  clearbody st0.
  (* what [cleanup] adds to a state that has released nothing *)
  assert (∀ wait_rc rc st1 tr1,
            argv_pyi st1 = vector_built b argv h →
            calls st1 = calls st ++ tr1 → frees tr1 = [] →
            ∃ tr,
              calls (cleanup plat wait_rc rc st1).1 = calls st ++ tr
              ∧ match (cleanup plat wait_rc rc st1).2 with
                | Returns _ => frees tr = [vector_built b argv h]
                | Replaced _ _ | StillWaiting => frees tr = []
                | Killed s =>
                    frees tr = []
                    ∨ (frees tr = [vector_built b argv h]
                       ∧ CallRaise s ∈ tr)
                end) as Hcleanup.
  { intros wait_rc rc st1 tr1 Ha1 Hc1 Hf1.
    destruct (cleanup_releases plat wait_rc rc st1)
      as (after & Hc & Hf & Hend).
    exists (tr1 ++ CallFreeArgs (argv_pyi st1) :: after).
    rewrite Hc, Hc1, <- app_assoc. split; [done|].
    assert (frees (tr1 ++ CallFreeArgs (argv_pyi st1) :: after)
            = [vector_built b argv h]) as Hfrees.
    { rewrite frees_app, Hf1. simpl.
      change (frees (CallFreeArgs (argv_pyi st1) :: after))
        with (argv_pyi st1 :: frees after).
      by rewrite Hf, Ha1. }
    destruct (cleanup plat wait_rc rc st1).2; try done.
    right. split; [done|].
    apply elem_of_app. right. by apply elem_of_cons; right. }
  case_bool_decide as Hneg.
  { apply (Hcleanup _ _ _ (before ++ [CallFork (fork_result h)])).
    - done.
    - cbn. by rewrite Hc0, <- app_assoc.
    - by rewrite frees_app, Hf0. }
  case_bool_decide as Hzero.
  { unfold set_systemd_env.
    set (st1 := record (CallFork (fork_result h)) st0).
    assert (∀ st2, argv_pyi st2 = argv_pyi st1 → calls st2 = calls st1 →
      ∃ tr,
        calls (if execvp_fails h
               then cleanup plat (-1) 0
                      (record (CallExecvp thisfile (argv_pyi st2)) st2)
               else (record (CallExecvp thisfile (argv_pyi st2)) st2,
                     Replaced thisfile (argv_pyi st2))).1
        = calls st ++ tr
        ∧ match (if execvp_fails h
                 then cleanup plat (-1) 0
                        (record (CallExecvp thisfile (argv_pyi st2)) st2)
                 else (record (CallExecvp thisfile (argv_pyi st2)) st2,
                       Replaced thisfile (argv_pyi st2))).2
          with
          | Returns _ => frees tr = [vector_built b argv h]
          | Replaced _ _ | StillWaiting => frees tr = []
          | Killed s =>
              frees tr = []
              ∨ (frees tr = [vector_built b argv h] ∧ CallRaise s ∈ tr)
          end) as Hexec.
    { intros st2 Ha2 Hc2.
      destruct (execvp_fails h).
      - apply (Hcleanup _ _ _
                 (before ++ [CallFork (fork_result h);
                             CallExecvp thisfile (argv_pyi st2)])).
        + cbn. by rewrite Ha2.
        + cbn. rewrite Hc2. subst st1. cbn.
          by rewrite Hc0, <- !app_assoc.
        + by rewrite frees_app, Hf0.
      - exists (before ++ [CallFork (fork_result h);
                           CallExecvp thisfile (argv_pyi st2)]).
        cbn. rewrite Hc2. subst st1. cbn.
        rewrite Hc0, <- !app_assoc. split; [done|].
        by rewrite frees_app, Hf0. }
    destruct (pyi_getenv b "LISTEN_PID" (p_env st1)).
    - destruct (pyi_setenv b "LISTEN_PID" _ (p_env st1)) as [e rc].
      exact (Hexec (set_p_env e st1) eq_refl eq_refl).
    - exact (Hexec st1 eq_refl eq_refl). }
  set (handler := if bool_decide _ then _ignoring_signal_handler
                  else _signal_handler).
  set (st1 := set_child_pid (fork_result h)
                (record (CallFork (fork_result h)) st0)).
  assert (calls st1 = calls st ++ before ++ [CallFork (fork_result h)]
          ∧ argv_pyi st1 = vector_built b argv h) as (Hc1 & Ha1).
  { subst st1. cbn. by rewrite Hc0, <- app_assoc. }
  clearbody st1.
  destruct (install_handlers_spec plat handler st1)
    as (Hc2 & _ & _ & Ha2).
  set (st2 := install_handlers plat handler st1) in *. clearbody st2.
  destruct (deliver_all_no_release plat (incoming h) st2)
    as (tr3 & Hc3 & Hf3 & Ha3).
  assert (∀ (f : Z → pcall) l, (∀ s, freed (f s) = None) →
            frees (map f l) = []) as Hmap.
  { intros f l Hfl. apply frees_none, Forall_forall.
    intros c (s & -> & _)%list_elem_of_fmap. apply Hfl. }
  destruct (deliver_all plat (incoming h) st2) as [st3 [k|]];
    cbn [fst snd] in *.
  { eexists. rewrite Hc3, Hc2, Hc1, <- !app_assoc. split; [done|].
    left. rewrite !frees_app, Hf0, Hf3. simpl.
    by rewrite Hmap. }
  destruct (wait_for_child_spec b h st3)
    as (_ & _ & _ & _ & Ha4 & waits & Hc4 & Hwaits).
  destruct (wait_for_child b h st3) as [[st4 wait_rc] rc].
  cbn [fst snd] in *.
  assert (frees waits = []) as Hf4.
  { apply frees_none. eapply Forall_impl; [exact Hwaits|].
    by intros []. }
  destruct (APPLE b && WINDOWED b && bool_decide (wait_rc = 0)).
  { eexists. cbn. rewrite Hc4, Hc3, Hc2, Hc1, <- !app_assoc.
    split; [done|].
    rewrite !frees_app, Hf0, Hf3, Hf4. simpl. by rewrite Hmap. }
  destruct (restore_handlers_spec plat st4) as (Hc5 & _ & _ & Ha5).
  eapply Hcleanup.
  - by rewrite Ha5, Ha4, Ha3, Ha2.
  - rewrite Hc5, Hc4, Hc3, Hc2, Hc1, <- !app_assoc. done.
  - rewrite !frees_app, Hf0, Hf3, Hf4. simpl. by rewrite !Hmap.
Qed.

(** ** The scratch directory: what creation adds and removal takes away *)

Lemma mkdir_made (p : string) (w w' : world) (err : Z) :
  mkdir p w = (w', err) →
  w_env w' = w_env w
  ∧ ((err = 0 ∧ made (resolve p) (w_fs w) (w_fs w'))
     ∨ (err ≠ 0 ∧ w_fs w' = w_fs w)).
Proof.
  unfold mkdir. case_bool_decide as Herr; intros [= <- <-]; simpl.
  - split; [done|]. left. split; [done|].
    unfold mkdir_errno in Herr. case_bool_decide; [|done].
    destruct (lookup_node (resolve p) (w_fs w)) eqn:Hk; [done|].
    destruct (lookup_node (removelast (resolve p)) (w_fs w))
      as [[|]|] eqn:Hpar; try done.
    unfold made. split_and!; [by apply lookup_node_None | | done | done].
    intros Hnil. unfold lookup_node in Hk. by rewrite Hnil in Hk.
  - split; [done|]. by right.
Qed.

Lemma mkdtemp_loop_made (stem : string) (names : list string) :
  ∀ w w' r, mkdtemp_loop stem names w = (w', r) →
    w_env w' = w_env w
    ∧ w_names w' `suffix_of` names
    ∧ match r with
      | Some p => made (resolve p) (w_fs w) (w_fs w')
      | None => w_fs w' = w_fs w
      end.
Proof.
  induction names as [|n names IH]; intros w w' r; simpl.
  - by intros [= <- <-].
  - destruct (mkdir (stem +:+ n) w) as [w1 err] eqn:Hmk.
    destruct (mkdir_made _ _ _ _ Hmk) as (He & Hfs).
    case_bool_decide as Herr.
    + intros [= <- <-]. simpl. split_and!; [done | by apply suffix_cons_r |].
      by destruct Hfs as [[_ ?]|[? _]].
    + destruct Hfs as [[? _]|[_ Hfs]]; [done|].
      case_bool_decide; [intros Hloop | intros [= <- <-]].
      * destruct (IH _ _ _ Hloop) as (He' & Hsuf & Hr).
        split_and!; [congruence | by apply suffix_cons_r |].
        by rewrite <- Hfs.
      * simpl. split_and!; [done | by apply suffix_cons_r | done].
Qed.

Lemma pyi_test_temp_path_made (buff : string) (w w' : world)
    (buff' : string) (rc : Z) :
  pyi_test_temp_path buff w = (w', buff', rc) →
  w_env w' = w_env w
  ∧ w_names w' `suffix_of` w_names w
  ∧ ((rc = 1 ∧ made (resolve buff') (w_fs w) (w_fs w')
      ∧ ∃ n, n ∈ w_names w
             ∧ buff' = (with_sep buff +:+ "_MEI" +:+ n)%string)
     ∨ (rc = 0 ∧ w_fs w' = w_fs w ∧ buff' ≠ EmptyString)).
Proof.
  unfold pyi_test_temp_path. fold (with_sep buff). fold (template_of buff).
  unfold mkdtemp.
  assert (template_stem (template_of buff)
          = Some (with_sep buff +:+ "_MEI")%string) as ->.
  { unfold template_of, strcat.
    change "_MEIXXXXXX"%string with ("_MEI" +:+ "XXXXXX")%string.
    rewrite <- append_assoc. apply template_stem_append. }
  destruct (mkdtemp_loop _ (w_names w) w) as [w1 r] eqn:Hloop.
  destruct (mkdtemp_loop_made _ _ _ _ _ Hloop) as (He & Hsuf & Hr).
  destruct r as [p|]; intros [= <- <- <-]; simpl.
  - split_and!; [done | done |]. left. split_and!; [done | done |].
    destruct (mkdtemp_loop_name _ _ _ _ _ Hloop) as (n & Hn & ->).
    exists n. split; [done|]. by rewrite append_assoc.
  - split_and!; [done | done |]. right. split_and!; [done | done |].
    unfold template_of, strcat. intros Heq.
    apply (f_equal String.length) in Heq.
    rewrite length_append in Heq. simpl in Heq. lia.
Qed.

Lemma first_created_made (cands : list string) :
  ∀ buff w w' buff' rc,
    first_created cands buff w = (w', buff', rc) →
    w_env w' = w_env w
    ∧ w_names w' `suffix_of` w_names w
    ∧ ((rc = 1 ∧ made (resolve buff') (w_fs w) (w_fs w')
        ∧ ∃ c n, n ∈ w_names w
                 ∧ buff' = (with_sep c +:+ "_MEI" +:+ n)%string)
       ∨ (rc = 0 ∧ w_fs w' = w_fs w
          ∧ (cands ≠ [] → buff' ≠ EmptyString))).
Proof.
  induction cands as [|c cands IH]; intros buff w w' buff' rc; simpl.
  - intros [= <- <- <-]. split_and!; [done | done |]. by right.
  - destruct (pyi_test_temp_path c w) as [[w1 buff1] rc1] eqn:Htest.
    destruct (pyi_test_temp_path_made _ _ _ _ _ Htest)
      as (He & Hsuf & Hfs).
    case_bool_decide as Hrc.
    + intros [= <- <- <-]. split_and!; [done | done |]. left.
      destruct Hfs as [(_ & Hm & n & Hn & ->)|[? _]]; [|done].
      split_and!; [done | done |]. by exists c, n.
    + intros Hrest.
      destruct Hfs as [[? _]|(_ & Hfs & Hbuff)]; [lia|].
      destruct (IH _ _ _ _ _ Hrest) as (He' & Hsuf' & Hres).
      split_and!; [congruence | by etrans |].
      destruct Hres as [(-> & Hm & c' & n & Hn & ->)|(-> & Hfs' & Hb)].
      * left. split_and!; [done | by rewrite <- Hfs |].
        exists c', n. split; [|done].
        destruct Hsuf as [l ->]. apply elem_of_app. by right.
      * right. split_and!; [done | congruence |].
        intros _. destruct cands as [|c2 cands]; [|by apply Hb].
        simpl in Hrest. by injection Hrest as _ <-.
Qed.

Lemma MEI_proper_name (n : string) :
  entry_name n → proper_name ("_MEI" +:+ n).
Proof.
  intros [_ Hn].
  change ("_MEI" +:+ n)%string
    with (String "_" (String "M" (String "E" (String "I" n)))).
  unfold proper_name. split_and!; try done.
  simpl. by rewrite Hn.
Qed.

(** A new directory in an existing one keeps the invariant. *)
Lemma fs_wf_made (k : list string) (fs fs' : filesystem) :
  fs_wf fs → made k fs fs' → (∀ n, last k = Some n → proper_name n) →
  fs_wf fs'.
Proof.
  intros Hwf (Hnone & Hne & Hpar & ->) Hlast.
  destruct (exists_last Hne) as (d & n & ->).
  rewrite removelast_last in Hpar.
  assert (Forall proper_name d) as Hd.
  { unfold lookup_node in Hpar. case_decide as Hroot; [by subst d|].
    by destruct (fs_wf_lookup _ _ _ Hwf Hpar). }
  assert (d ≠ d ++ [n]) as Hdn.
  { intros Heq. apply (f_equal length) in Heq.
    rewrite length_app in Heq. simpl in Heq. lia. }
  assert (∀ p, lookup_node p fs = Some KDir →
               lookup_node p (<[d ++ [n] := KDir]> fs) = Some KDir)
    as Hkeep.
  { intros p. unfold lookup_node. case_decide; [done|]. intros Hp.
    destruct (decide (d ++ [n] = p)) as [<-|Hnp].
    - apply lookup_insert_eq.
    - by rewrite lookup_insert_ne. }
  apply map_Forall_insert_2.
  - split_and!; [|done|].
    + apply Forall_app. split; [done|]. apply Forall_singleton.
      apply Hlast. by rewrite last_snoc.
    + rewrite removelast_last. by apply Hkeep.
  - intros k x Hk.
    destruct (fs_wf_lookup _ _ _ Hwf Hk) as (Hnames & Hk0 & Hkpar).
    split_and!; [done | done | by apply Hkeep].
Qed.

Section RoundTripFacts.
Context `{Externs}.

(** The POSIX [pyi_get_temp_path] adds one directory or nothing. *)
Lemma pyi_get_temp_path_posix_made (b : build) (buff : string)
    (runtime_tmpdir : option string) (w w' : world) (buff' : string)
    (rc : Z) :
  pyi_get_temp_path_posix b buff runtime_tmpdir w = (w', buff', rc) →
  w_env w' = w_env w
  ∧ ((rc = 1 ∧ made (resolve buff') (w_fs w) (w_fs w')
      ∧ ∃ c n, n ∈ w_names w
               ∧ buff' = (with_sep c +:+ "_MEI" +:+ n)%string)
     ∨ (rc = 0 ∧ w_fs w' = w_fs w ∧ buff' ≠ EmptyString)).
Proof.
  destruct runtime_tmpdir as [dir|].
  - unfold pyi_get_temp_path_posix.
    destruct (pyi_test_temp_path dir w) as [[w1 buff1] rc1] eqn:Htest.
    destruct (pyi_test_temp_path_made _ _ _ _ _ Htest)
      as (He & _ & Hfs).
    case_bool_decide as Hrc; intros [= <- <- <-]; (split; [done|]).
    + left. destruct Hfs as [(_ & Hm & n & Hn & ->)|[? _]]; [|done].
      split_and!; [done | done |]. by exists dir, n.
    + right. destruct Hfs as [[? _]|(_ & Hfs & Hb)]; [lia | done].
  - rewrite pyi_get_temp_path_posix_first. intros Hfirst.
    destruct (first_created_made _ _ _ _ _ _ Hfirst) as (He & _ & Hres).
    split; [done|].
    destruct Hres as [?|(-> & Hfs & Hb)]; [by left | right].
    split_and!; [done | done |]. apply Hb.
    unfold candidates, dirname. by destruct (omap _ envname).
Qed.

End RoundTripFacts.

(** X9: on the POSIX builds a call of [pyi_create_temp_path] that
    succeeds adds exactly one directory to the file system, named [_MEI]
    followed by a generated name, and [temppath] names it; a call that
    fails leaves the file system as it was.  [cleanUp] after a successful
    call removes that directory again: the file system and the
    environment are as before the creation. *)
Theorem pyi_create_temp_path_then_cleanUp `{Externs} (b : build)
    (readdir_all : list string → filesystem → list string)
    (status : ARCHIVE_STATUS) (w : world) (fuel : nat) :
  WIN32 b = false →
  (∀ d fs, fs_wf fs → Forall entry_name (readdir_all d fs)) →
  (∀ d fs n, fs_wf fs → is_Some (fs !! (d ++ [n])) →
             n ∈ readdir_all d fs) →
  fs_wf (w_fs w) →
  Forall entry_name (w_names w) →
  has_temp_directory status = false →
  let r := pyi_create_temp_path b status w in
  (tree_fuel (w_fs r.1.2) ≤ fuel)%nat →
  (r.2 = 0 →
     made (resolve (temppath r.1.1)) (w_fs w) (w_fs r.1.2)
     ∧ (∃ n, n ∈ w_names w
             ∧ last (resolve (temppath r.1.1)) = Some ("_MEI" +:+ n)%string)
     ∧ ∃ w', cleanUp readdir_all fuel r.1.1 r.1.2 = Done w'
             ∧ w_fs w' = w_fs w ∧ w_env w' = w_env w)
  ∧ (r.2 ≠ 0 → w_fs r.1.2 = w_fs w).
Proof.
  intros Hb Hnames Hcomplete Hwf Hgen Hflag r. subst r.
  rewrite (pyi_create_temp_path_unset b status w Hflag).
  unfold pyi_get_temp_path. rewrite Hb.
  destruct (pyi_get_temp_path_posix b (temppath status) _ w)
    as [[w1 buffer] rc] eqn:Hrun.
  destruct (pyi_get_temp_path_posix_made _ _ _ _ _ _ _ Hrun)
    as (He & Hres).
  destruct Hres as [(-> & Hmade & c & n & Hn & ->)|(-> & Hfs & _)].
  2: { simpl. intros _. split; [done | by intros _]. }
  simpl. intros Hfuel. split; [|done]. intros _.
  assert (entry_name n) as Hentry
    by (by eapply Forall_forall in Hgen).
  pose proof (MEI_proper_name n Hentry) as Hproper.
  assert (resolve (with_sep c +:+ "_MEI" +:+ n)
          = resolve c ++ ["_MEI" +:+ n]%string) as Hk.
  { apply (fnm_entry c ("_MEI" +:+ n)). by apply proper_entry_name. }
  rewrite Hk in *.
  assert (fs_wf (w_fs w1)) as Hwf1.
  { apply (fs_wf_made _ _ _ Hwf Hmade).
    intros n'. rewrite last_snoc. by intros [= <-]. }
  split_and!; [done | |].
  { exists n. split; [done|]. by rewrite last_snoc. }
  destruct Hmade as (Hnone & Hne & Hpar & Hfs1).
  destruct (pyi_remove_temp_path_spec readdir_all Hnames Hcomplete fuel
              (with_sep c +:+ "_MEI" +:+ n) w1) as (w2 & Hrm & Htree).
  { done. }
  { rewrite Hk, Hfs1. apply lookup_insert_eq. }
  { by apply depth_ok_tree_fuel. }
  exists w2. unfold cleanUp. simpl.
  destruct (String.eqb_spec (with_sep c +:+ "_MEI" +:+ n) EmptyString)
    as [Hempty|_].
  { apply (f_equal String.length) in Hempty.
    rewrite !length_append in Hempty. simpl in Hempty. lia. }
  simpl. split; [done|].
  destruct Htree as (tr & (_ & _ & Hframe & He2 & _) & Hnone2).
  rewrite Hk in *. split; [|congruence].
  apply map_eq. intros x.
  destruct (decide ((resolve c ++ ["_MEI" +:+ n]%string) `prefix_of` x))
    as [Hpre|Hnpre].
  - rewrite (Hnone2 x Hpre). symmetry.
    destruct (prefix_below_or_eq _ _ Hpre) as [<-|Hbelow]; [done|].
    apply (fs_wf_leaf (w_fs w) (resolve c ++ ["_MEI" +:+ n]%string));
      [done | done | congruence | done].
  - rewrite (Hframe x Hnpre), Hfs1. apply lookup_insert_ne.
    by intros <-.
Qed.

(** Creation under /tmp followed by [cleanUp]. *)
Lemma pyi_create_temp_path_then_cleanUp_witness :
  let r := pyi_create_temp_path (H := ascii_externs) linux empty_status
             world_with_tmp in
  temppath r.1.1 = "/tmp/_MEIbbbbbb"%string
  ∧ ∃ w', cleanUp readdir_with_ghost 5 r.1.1 r.1.2 = Done w'
          ∧ w_fs w' = w_fs world_with_tmp.
Proof.
  intros r. split; [vm_compute; reflexivity|].
  destruct (pyi_create_temp_path_then_cleanUp (H := ascii_externs) linux
              readdir_with_ghost empty_status world_with_tmp 5)
    as [Hok _].
  - reflexivity.
  - apply readdir_with_ghost_names.
  - apply readdir_with_ghost_complete.
  - apply (bool_decide_unpack _). vm_compute. exact I.
  - repeat (constructor; [split; [discriminate | reflexivity]|]).
    constructor.
  - reflexivity.
  - vm_compute. lia.
  - destruct (Hok eq_refl) as (_ & _ & w' & Hrun & Hfs & _).
    exists w'. split; [exact Hrun | exact Hfs].
Defined.

(** ** Removal with any directory listing *)

Lemma has_entries_empty (d : list string) (fs : filesystem) :
  has_entries d fs = false → ∀ k, below d k → fs !! k = None.
Proof.
  unfold has_entries. intros Hd%bool_decide_eq_false k Hb.
  destruct (fs !! k) as [x|] eqn:Hk; [|done].
  exfalso. apply Hd. by exists k, x.
Qed.

Section ShrinkingCalls.
Variable region : list string → Prop.

Lemma unlink_shrinks (p : string) (w : world) :
  fs_wf (w_fs w) → region (resolve p) →
  ∃ rc, shrinks region w (unlink p w) [SysUnlink p rc].
Proof.
  intros Hwf Hreg. unfold unlink.
  destruct (w_fs w !! resolve p) as [[|]|] eqn:Hp.
  - exists 0.
    assert (resolve p ≠ []) as Hne
      by (apply (fs_wf_nonroot (w_fs w)); [done | by eexists]).
    assert (∀ k, below (resolve p) k → w_fs w !! k = None) as Hleaf.
    { intros k Hk. apply (fs_wf_leaf (w_fs w) (resolve p)); try done.
      congruence. }
    apply (shrinks_delete region (SysUnlink p 0) (resolve p) w);
      [done | done | done | by eexists | done].
  - exists (-1). by apply shrinks_log.
  - exists (-1). by apply shrinks_log.
Qed.

Lemma rmdir_shrinks (p : string) (w : world) :
  fs_wf (w_fs w) → region (resolve p) →
  ∃ rc, shrinks region w (rmdir p w) [SysRmdir p rc].
Proof.
  intros Hwf Hreg. unfold rmdir.
  destruct (w_fs w !! resolve p) as [[|]|] eqn:Hp.
  - exists (-1). by apply shrinks_log.
  - destruct (has_entries (resolve p) (w_fs w)) eqn:Hentries.
    + exists (-1). by apply shrinks_log.
    + exists 0.
      apply (shrinks_delete region (SysRmdir p 0) (resolve p) w);
        [done | done | done | by eexists | by apply has_entries_empty].
  - exists (-1). by apply shrinks_log.
Qed.

End ShrinkingCalls.

Section RemovalSafety.
Variable readdir_all : list string → filesystem → list string.
Hypothesis readdir_names :
  ∀ d fs, fs_wf fs → Forall entry_name (readdir_all d fs).

Lemma remove_one_safe (recurse : string → world → outcome world)
    (d : list string) (pnm : string) (pos : Z) (fuel : nat) :
  (∀ dir w, fs_wf (w_fs w) →
     w_fs w !! resolve dir = Some KDir →
     depth_ok (resolve dir) fuel (w_fs w) →
     ∃ w' tr, recurse dir w = Done w'
              ∧ shrinks (λ k, resolve dir `prefix_of` k) w w' tr) →
  (∀ n, entry_name n →
     resolve (strcat (substring 0 (Z.to_nat pos) pnm) n) = d ++ [n]) →
  ∀ fnm w, entry_name fnm → fs_wf (w_fs w) →
    depth_ok d (S fuel) (w_fs w) →
    ∃ w' tr, remove_one recurse pnm pos fnm w = Done w'
             ∧ shrinks (below d) w w' tr.
Proof.
  intros Hrec Hpnm fnm w Hfnm Hwf Hdepth. unfold remove_one.
  assert (d ++ [fnm] ≠ []) as Hc by (by destruct d).
  destruct (String.eqb fnm "." || String.eqb fnm "..").
  { exists w, []. split; [done | by apply shrinks_refl]. }
  set (path := strcat (substring 0 (Z.to_nat pos) pnm) fnm).
  assert (resolve path = d ++ [fnm]) as Hpath by (by apply Hpnm).
  unfold stat. rewrite Hpath, lookup_node_nonroot by done.
  set (w1 := log _ w).
  assert (shrinks (below d) w w1 [SysStat path
            match w_fs w !! (d ++ [fnm]) with Some _ => 0 | None => -1 end])
    as Hstat by (by apply shrinks_log).
  destruct (w_fs w !! (d ++ [fnm])) as [[|]|] eqn:Hnode; simpl.
  - destruct (unlink_shrinks (below d) path w1) as [rc Hun]; [done| |].
    { rewrite Hpath. apply below_child. }
    eexists _, _. split; [done|].
    by apply (shrinks_trans (below d) w w1).
  - destruct (Hrec path w1) as (w' & tr & Hrun & Hsh).
    + done.
    + by rewrite Hpath.
    + rewrite Hpath. by apply depth_ok_child.
    + eexists _, _. split; [done|].
      apply (shrinks_trans (below d) w w1); [done | exact Hstat |].
      eapply shrinks_mono; [|exact Hsh].
      intros k Hk. simpl in Hk. rewrite Hpath in Hk.
      eapply below_trans_prefix; [apply below_child | done].
  - by eexists _, _.
Qed.

Lemma readdir_loop_safe (recurse : string → world → outcome world)
    (d : list string) (pnm : string) (pos : Z) (fuel : nat) :
  (∀ dir w, fs_wf (w_fs w) →
     w_fs w !! resolve dir = Some KDir →
     depth_ok (resolve dir) fuel (w_fs w) →
     ∃ w' tr, recurse dir w = Done w'
              ∧ shrinks (λ k, resolve dir `prefix_of` k) w w' tr) →
  (∀ n, entry_name n →
     resolve (strcat (substring 0 (Z.to_nat pos) pnm) n) = d ++ [n]) →
  ∀ entries w, Forall entry_name entries → fs_wf (w_fs w) →
    depth_ok d (S fuel) (w_fs w) →
    ∃ w' tr,
      readdir_loop (remove_one recurse pnm pos) entries w = Done w'
      ∧ shrinks (below d) w w' tr.
Proof.
  intros Hrec Hpnm entries.
  induction entries as [|n entries IH]; intros w Hnames Hwf Hdepth.
  - exists w, []. split; [done | by apply shrinks_refl].
  - apply Forall_cons in Hnames as [Hn Hnames].
    destruct (remove_one_safe recurse d pnm pos fuel Hrec Hpnm n w)
      as (w1 & tr1 & Hrun1 & Hsh1); try done.
    pose proof Hsh1 as (Hwf1 & Hsub1 & _).
    destruct (IH w1) as (w2 & tr2 & Hrun2 & Hsh2); try done.
    { by apply (depth_ok_shrink d (S fuel) (w_fs w)). }
    exists w2, (tr1 ++ tr2). simpl. rewrite Hrun1. simpl.
    split; [done|]. by apply (shrinks_trans (below d) w w1).
Qed.

(** One level of the recursion, for a directory or for the root. *)
Lemma pyi_remove_temp_path_level (fuel : nat) :
  (∀ dir w, fs_wf (w_fs w) →
     w_fs w !! resolve dir = Some KDir →
     depth_ok (resolve dir) fuel (w_fs w) →
     ∃ w' tr, pyi_remove_temp_path readdir_all fuel dir w = Done w'
              ∧ shrinks (λ k, resolve dir `prefix_of` k) w w' tr) →
  ∀ dir w, fs_wf (w_fs w) →
    lookup_node (resolve dir) (w_fs w) = Some KDir →
    depth_ok (resolve dir) (S fuel) (w_fs w) →
    ∃ w' tr, pyi_remove_temp_path readdir_all (S fuel) dir w = Done w'
             ∧ shrinks (λ k, resolve dir `prefix_of` k) w w' tr.
Proof.
  intros IH dir w Hwf Hdir Hdepth.
  set (d := resolve dir) in *.
  set (w1 := log (SysOpendir dir 0) w).
  set (fnm := if bool_decide (last_char dir ≠ Some PYI_SEP)
              then strcat dir PYI_SEPSTR else dir).
  assert (pyi_remove_temp_path readdir_all (S fuel) dir w
          = obind (readdir_loop
                     (remove_one (pyi_remove_temp_path readdir_all fuel)
                        fnm (strlen fnm))
                     (readdir_all d (w_fs w1)) w1)
                  (λ w2, Done (rmdir dir w2))) as ->.
  { simpl. fold d. rewrite Hdir.
    subst fnm. case_bool_decide; [|done].
    by rewrite strlen_strcat. }
  destruct (readdir_loop_safe (pyi_remove_temp_path readdir_all fuel) d
              fnm (strlen fnm) fuel IH) with
    (entries := readdir_all d (w_fs w1)) (w := w1)
    as (w2 & tr & Hrun & Hsh); try done.
  { intros n Hn. rewrite substring_strlen. by apply fnm_entry. }
  { by apply readdir_names. }
  rewrite Hrun. simpl.
  assert (shrinks (below d) w w1 [SysOpendir dir 0]) as Hopen
    by (by apply shrinks_log).
  pose proof Hsh as (Hwf2 & _).
  destruct (rmdir_shrinks (λ k, d `prefix_of` k) dir w2)
    as [rc Hrm]; [done | done |].
  eexists _, _. split; [done|].
  apply (shrinks_trans _ w w1); [done | |].
  { eapply shrinks_mono; [|exact Hopen]. intros k. apply below_prefix. }
  apply (shrinks_trans _ w1 w2); [done | | done].
  eapply shrinks_mono; [|exact Hsh]. intros k. apply below_prefix.
Qed.

Lemma pyi_remove_temp_path_safe (fuel : nat) :
  ∀ dir w, fs_wf (w_fs w) →
    w_fs w !! resolve dir = Some KDir →
    depth_ok (resolve dir) fuel (w_fs w) →
    ∃ w' tr, pyi_remove_temp_path readdir_all fuel dir w = Done w'
             ∧ shrinks (λ k, resolve dir `prefix_of` k) w w' tr.
Proof.
  induction fuel as [|fuel IH]; intros dir w Hwf Hdir Hdepth.
  { assert (length (resolve dir) < length (resolve dir) + 0)%nat; [|lia].
    apply (depth_ok_lookup _ _ _ _ Hdepth); [by eexists | done]. }
  apply (pyi_remove_temp_path_level fuel IH); [done | | done].
  rewrite lookup_node_nonroot; [done|].
  apply (fs_wf_nonroot (w_fs w)); [done | by eexists].
Qed.

End RemovalSafety.

(** ** Extraction of files to disk *)

(** The pieces between separators hold no separator. *)
Lemma split_sep_pieces (s : string) :
  Forall (λ t, split_sep t = [t]) (split_sep s).
Proof.
  induction s as [|c s IH]; simpl.
  - by apply Forall_singleton.
  - destruct (Ascii.eqb c PYI_SEP) eqn:Hc.
    + by apply Forall_cons.
    + pose proof (split_sep_nonempty s).
      destruct (split_sep s) as [|h t]; [done|].
      apply Forall_cons in IH as [Hh Ht].
      apply Forall_cons. split; [|done].
      simpl. by rewrite Hc, Hh.
Qed.

Lemma strtok_all_names (name : string) :
  Forall entry_name (strtok_all name).
Proof.
  unfold strtok_all, entry_name. apply Forall_forall.
  intros t [Ht Hin]%list_elem_of_filter. split; [done|].
  pose proof (split_sep_pieces name) as Hall.
  by eapply Forall_forall in Hall.
Qed.

Lemma assemble_snoc (path : string) (tokens : list string) (t : string) :
  assemble path (tokens ++ [t])
  = strcat (strcat (assemble path tokens) PYI_SEPSTR) t.
Proof. unfold assemble. by rewrite fold_left_app. Qed.

Lemma assemble_cons (path : string) (tokens : list string) (t : string) :
  assemble path (t :: tokens)
  = assemble (strcat (strcat path PYI_SEPSTR) t) tokens.
Proof. done. Qed.

Lemma resolve_assemble (path : string) (tokens : list string) :
  Forall entry_name tokens →
  resolve (assemble path tokens) = resolve path ++ tokens.
Proof.
  revert path. induction tokens as [|t tokens IH]; intros path Hall.
  - by rewrite app_nil_r.
  - apply Forall_cons in Hall as [Ht Hall].
    rewrite assemble_cons, IH by done.
    unfold strcat. rewrite append_assoc, resolve_entry by done.
    by rewrite <- app_assoc.
Qed.

Lemma strlen_assemble_le (path : string) (tokens : list string) :
  strlen path ≤ strlen (assemble path tokens).
Proof.
  revert path. induction tokens as [|t tokens IH]; intros path; [done|].
  rewrite assemble_cons. etrans; [|apply IH].
  rewrite !strlen_strcat. pose proof (strlen_nonneg t).
  pose proof (strlen_nonneg PYI_SEPSTR). lia.
Qed.

Lemma substring_short (s : string) (n : nat) :
  (String.length s ≤ n)%nat → substring 0 n s = s.
Proof.
  revert n. induction s as [|c s IH]; intros n Hn.
  - by destruct n.
  - destruct n as [|n]; simpl in *; [lia|]. rewrite IH; [done | lia].
Qed.

Lemma length_substring_0 (s : string) (n : nat) :
  String.length (substring 0 n s) = Nat.min n (String.length s).
Proof.
  revert n. induction s as [|c s IH]; intros n.
  - by destruct n.
  - destruct n as [|n]; simpl; [done|]. by rewrite IH.
Qed.

(** [strncpy] copies the whole string exactly when the last cell of the
    buffer stays free. *)
Lemma strncpy_fits (src : string) (n : Z) :
  0 < n →
  last_cell_used (strncpy src n) n = bool_decide (n ≤ strlen src)
  ∧ (strlen src < n → strncpy src n = src).
Proof.
  intros Hn. unfold last_cell_used, strncpy, strlen. split.
  - apply bool_decide_ext. rewrite length_substring_0. lia.
  - intros Hlen. apply substring_short. lia.
Qed.

Lemma mkdir_succeeds (p : string) (w : world) :
  names_fit (resolve p) →
  lookup_node (resolve p) (w_fs w) = None →
  lookup_node (removelast (resolve p)) (w_fs w) = Some KDir →
  w_fs (mkdir p w).1 = <[resolve p := KDir]> (w_fs w).
Proof.
  intros Hfit Hk Hpar. unfold mkdir, mkdir_errno.
  rewrite (bool_decide_eq_true_2 (names_fit _)) by done.
  by rewrite Hk, Hpar.
Qed.

Lemma lookup_node_mono (fs fs' : filesystem) (k : list string)
    (x : node_kind) :
  (∀ k x, fs !! k = Some x → fs' !! k = Some x) →
  lookup_node k fs = Some x → lookup_node k fs' = Some x.
Proof.
  intros Hmono. unfold lookup_node. case_decide; [done | apply Hmono].
Qed.

Section ExtractionFacts.
Variable PATH_MAX : Z.

Lemma open_target_loop_unfold (dir : string) (rest : list string)
    (fnm : string) (len : Z) (d : disk) :
  open_target_loop PATH_MAX dir rest fnm len d
  = if bool_decide (len + (strlen dir + strlen PYI_SEPSTR) >= PATH_MAX - 1)
    then (d, TooLong)
    else
      match strcat_in PATH_MAX fnm PYI_SEPSTR
              ≫= (λ fnm, strcat_in PATH_MAX fnm dir) with
      | None => (d, Overrun)
      | Some fnm1 =>
          match rest with
          | [] => (d, Path fnm1)
          | dir' :: rest' =>
              open_target_loop PATH_MAX dir' rest' fnm1
                (len + (strlen dir + strlen PYI_SEPSTR))
                (set_world
                   (match (stat fnm1 (d_world d)).2 with
                    | None => (mkdir fnm1 (stat fnm1 (d_world d)).1).1
                    | Some _ => (stat fnm1 (d_world d)).1
                    end) d)
          end
      end.
Proof. by destruct rest. Qed.

(** The loop of [pyi_open_target]: the path assembled, and the
    directories made on the way. *)
Lemma open_target_loop_spec (rest : list string) :
  ∀ dir fnm d,
    Forall entry_name (dir :: rest) →
    let tokens := dir :: rest in
    let r := open_target_loop PATH_MAX dir rest fnm (strlen fnm) d in
    r.2 = (if bool_decide (strlen (assemble fnm tokens) < PATH_MAX - 1)
           then Path (assemble fnm tokens) else TooLong)
    ∧ same_files d r.1
    ∧ (∀ k x, d_fs d !! k = Some x → d_fs r.1 !! k = Some x)
    ∧ (∀ k, d_fs d !! k = None → is_Some (d_fs r.1 !! k) →
            d_fs r.1 !! k = Some KDir
            ∧ ∃ i, (1 ≤ i ≤ length rest)%nat
                   ∧ k = resolve fnm ++ take i tokens)
    ∧ (lookup_node (resolve fnm) (d_fs d) = Some KDir →
       names_fit (resolve fnm ++ tokens) →
       (∀ i, (1 ≤ i ≤ length rest)%nat →
             d_fs d !! (resolve fnm ++ take i tokens) ≠ Some KFile) →
       r.2 ≠ TooLong →
       ∀ i, (i ≤ length rest)%nat →
            lookup_node (resolve fnm ++ take i tokens) (d_fs r.1)
            = Some KDir).
Proof.
  induction rest as [|dir' rest IH]; intros dir fnm d Hnames tokens r.
  all: apply Forall_cons in Hnames as [Hdir Hnames].
  all: pose proof (strlen_nonneg fnm) as Hfnm.
  all: pose proof (strlen_nonneg dir) as Hdirlen.
  all: set (fnm1 := strcat (strcat fnm PYI_SEPSTR) dir).
  all: assert (strlen fnm1 = strlen fnm + (strlen dir + strlen PYI_SEPSTR))
         as Hlen1
         by (subst fnm1; rewrite !strlen_strcat; lia).
  all: assert (strlen PYI_SEPSTR = 1) as Hsep by done.
  all: assert (strlen fnm1 < PATH_MAX - 1 →
               strcat_in PATH_MAX fnm PYI_SEPSTR
                 ≫= (λ fnm, strcat_in PATH_MAX fnm dir) = Some fnm1)
         as Hcat.
  1,3: intros Hfit; unfold strcat_in;
       rewrite bool_decide_eq_true_2 by lia; simpl;
       rewrite bool_decide_eq_true_2
         by (rewrite strlen_strcat; lia); done.
  - (* the last token *)
    subst r tokens. rewrite open_target_loop_unfold, <- Hlen1.
    change (assemble fnm [dir]) with fnm1.
    case_bool_decide as Hlong.
    + rewrite bool_decide_eq_false_2 by lia. simpl.
      split_and!; try done.
      intros k Hk [x Hx]. congruence.
    + rewrite bool_decide_eq_true_2 by lia.
      rewrite Hcat by lia. simpl.
      split_and!; try done.
      * intros k Hk [x Hx]. congruence.
      * intros Hroot _ _ _ i Hi.
        assert (i = 0%nat) as -> by (simpl in Hi; lia).
        by rewrite app_nil_r.
  - (* a directory on the way *)
    assert (resolve fnm1 = resolve fnm ++ [dir]) as Hres.
    { subst fnm1. unfold strcat. rewrite append_assoc.
      by apply resolve_entry. }
    assert (assemble fnm tokens = assemble fnm1 (dir' :: rest)) as Hasm
      by done.
    subst r. rewrite open_target_loop_unfold, <- Hlen1.
    case_bool_decide as Hlong.
    { rewrite bool_decide_eq_false_2.
      2: { rewrite Hasm.
           pose proof (strlen_assemble_le fnm1 (dir' :: rest)). lia. }
      simpl. split_and!; try done.
      intros k Hk [x Hx]. congruence. }
    rewrite Hcat by lia.
    set (w1 := (stat fnm1 (d_world d)).1).
    set (sbuf := (stat fnm1 (d_world d)).2).
    assert (w_fs w1 = d_fs d ∧ w_env w1 = w_env (d_world d)
            ∧ sbuf = lookup_node (resolve fnm1) (d_fs d))
      as (Hfs1 & He1 & Hsbuf) by done.
    clearbody w1 sbuf.
    set (w2 := match sbuf with
               | Some _ => w1
               | None => (mkdir fnm1 w1).1
               end).
    assert (w_env w2 = w_env (d_world d)) as He2.
    { subst w2. destruct sbuf; [done|].
      destruct (mkdir fnm1 w1) as [w' err] eqn:Hmk.
      destruct (mkdir_made _ _ _ _ Hmk) as [He _]. simpl. congruence. }
    assert (w_fs w2 = d_fs d
            ∨ (d_fs d !! resolve fnm1 = None
               ∧ w_fs w2 = <[resolve fnm1 := KDir]> (d_fs d))) as Hfs2.
    { subst w2. destruct sbuf; [by left|].
      destruct (mkdir fnm1 w1) as [w' err] eqn:Hmk.
      destruct (mkdir_made _ _ _ _ Hmk) as [_ Hm]. simpl.
      destruct Hm as [(_ & Hnone & _ & _ & ->)|[_ ->]].
      - right. by rewrite <- Hfs1.
      - by left. }
    assert (∀ k x, d_fs d !! k = Some x → w_fs w2 !! k = Some x) as Hmono2.
    { intros k x Hk. destruct Hfs2 as [->|[Hnone ->]]; [done|].
      rewrite lookup_insert_ne; [done|]. intros <-. congruence. }
    destruct (IH dir' fnm1 (set_world w2 d) Hnames)
      as (Hr & Hsame & Hmono & Hnew & Hdirs).
    set (r := open_target_loop PATH_MAX dir' rest fnm1 (strlen fnm1)
                (set_world w2 d)) in *.
    clearbody r.
    change (d_fs (set_world w2 d)) with (w_fs w2) in *.
    split_and!.
    + by rewrite Hasm.
    + destruct Hsame as (? & ? & ? & ? & He). unfold same_files.
      split_and!; try done. simpl in He. congruence.
    + intros k x Hk. by apply Hmono, Hmono2.
    + intros k Hk Hsome.
      destruct (w_fs w2 !! k) as [x|] eqn:Hk2.
      * (* made by this iteration *)
        destruct Hfs2 as [Hsame2|[Hnone Hins]]; [congruence|].
        rewrite Hins in Hk2.
        destruct (decide (resolve fnm1 = k)) as [<-|Hne].
        -- split.
           ++ apply Hmono. rewrite Hins. apply lookup_insert_eq.
           ++ exists 1%nat. simpl. split; [lia | done].
        -- rewrite lookup_insert_ne in Hk2 by done. congruence.
      * destruct (Hnew k Hk2 Hsome) as (Hkind & i & Hi & ->).
        split; [done|]. exists (S i). split; [simpl; lia|].
        rewrite Hres, <- app_assoc. done.
    + intros Hroot Hfit Hnofile Hnot i Hi.
      assert (names_fit (resolve fnm1)) as Hfit1.
      { rewrite Hres. unfold names_fit, tokens in *.
        rewrite Forall_app in *. destruct Hfit as [? Hfit].
        apply Forall_cons in Hfit as [? _].
        split; [done | by apply Forall_singleton]. }
      assert (lookup_node (resolve fnm1) (w_fs w2) = Some KDir) as Hdir1.
      { assert (resolve fnm1 ≠ []) as Hne1
          by (rewrite Hres; by destruct (resolve fnm)).
        rewrite lookup_node_nonroot by done.
        destruct (d_fs d !! resolve fnm1) as [[|]|] eqn:Hnode.
        - exfalso. apply (Hnofile 1%nat); [simpl; lia|].
          simpl. by rewrite <- Hres.
        - by apply Hmono2.
        - subst w2. rewrite Hsbuf, lookup_node_nonroot, Hnode by done.
          rewrite mkdir_succeeds.
          + apply lookup_insert_eq.
          + done.
          + by rewrite lookup_node_nonroot, Hfs1.
          + by rewrite Hres, removelast_last, Hfs1. }
      destruct i as [|i].
      { rewrite app_nil_r.
        apply (lookup_node_mono (d_fs d)); [|done].
        intros k x Hk. by apply Hmono, Hmono2. }
      replace (resolve fnm ++ take (S i) tokens)
        with (resolve fnm1 ++ take i (dir' :: rest))
        by (rewrite Hres, <- app_assoc; done).
      apply Hdirs; [done | | | done | simpl in Hi; lia].
      { by rewrite Hres, <- app_assoc. }
      intros j Hj Hfile.
      destruct Hfs2 as [Hsame2|[Hnone Hins]].
      * rewrite Hsame2 in Hfile.
        apply (Hnofile (S j)); [simpl; lia|].
        rewrite <- Hfile, Hres, <- app_assoc. done.
      * rewrite Hins in Hfile.
        rewrite lookup_insert_ne in Hfile.
        -- apply (Hnofile (S j)); [simpl; lia|].
           rewrite <- Hfile, Hres, <- app_assoc. done.
        -- intros Heq. apply (f_equal length) in Heq.
           rewrite length_app, length_take in Heq. simpl in Heq, Hj. lia.
Qed.

End ExtractionFacts.

Lemma fopen_wb_spec (p : string) (d : disk) :
  let r := fopen_wb p d in
  (d_mode r.1 = d_mode d ∧ d_room r.1 = d_room d
   ∧ d_warnings r.1 = d_warnings d
   ∧ w_env (d_world r.1) = w_env (d_world d))
  ∧ (∀ k x, d_fs d !! k = Some x → d_fs r.1 !! k = Some x)
  ∧ (∀ k, d_fs d !! k = None → is_Some (d_fs r.1 !! k) → k = resolve p)
  ∧ (∀ k, k ≠ resolve p → d_data r.1 !! k = d_data d !! k)
  ∧ (∀ f, r.2 = Some f →
          f = {| out_path := p; out_error := false |}
          ∧ d_fs r.1 !! resolve p = Some KFile
          ∧ contents (resolve p) r.1 = [])
  ∧ (names_fit (resolve p) →
     lookup_node (removelast (resolve p)) (d_fs d) = Some KDir →
     lookup_node (resolve p) (d_fs d) ≠ Some KDir →
     is_Some r.2).
Proof.
  unfold fopen_wb, contents, d_fs.
  case_bool_decide as Hfit.
  2: { cbn. split_and!; try done. intros k Hk' [x Hx]. congruence. }
  destruct (lookup_node (resolve p) (w_fs (d_world d))) as [[|]|] eqn:Hk.
  - (* an existing file is truncated *)
    cbn. split_and!; try done.
    + intros k Hk' [x Hx]. congruence.
    + intros k Hne. by apply lookup_insert_ne.
    + intros f [= <-]. split_and!; [done | | by rewrite lookup_insert_eq].
      unfold lookup_node in Hk. by case_decide.
  - cbn. split_and!; try done.
    intros k Hk' [x Hx]. congruence.
  - destruct (lookup_node (removelast (resolve p)) (w_fs (d_world d)))
      as [[|]|] eqn:Hpar; cbn.
    + split_and!; try done. intros k Hk' [x Hx]. congruence.
    + apply lookup_node_None in Hk.
      split_and!; try done.
      * intros k x Hx. rewrite lookup_insert_ne; [done|].
        intros <-. congruence.
      * intros k Hnone [x Hx].
        destruct (decide (resolve p = k)) as [<-|Hne]; [done|].
        rewrite lookup_insert_ne in Hx by done. congruence.
      * intros k Hne. by apply lookup_insert_ne.
      * intros f [= <-]. by rewrite !lookup_insert_eq.
    + split_and!; try done. intros k Hk' [x Hx]. congruence.
Qed.

Section OpenTargetFacts.
Variable PATH_MAX : Z.
Hypothesis PATH_MAX_pos : 0 < PATH_MAX.

(** With names that fit, the two copies are the strings themselves. *)
Lemma pyi_open_target_copied (path name_ : string) (d : disk) :
  pyi_open_target PATH_MAX path name_ d
  = if bool_decide (PATH_MAX ≤ strlen path)
       || bool_decide (PATH_MAX ≤ strlen name_)
    then (d, Null)
    else
      let '(d1, r) :=
        match strtok_all name_ with
        | [] => (d, Path path)
        | dir :: rest =>
            open_target_loop PATH_MAX dir rest path (strlen path) d
        end in
      match r with
      | TooLong => (d1, Null)
      | Overrun => (d1, WritesPastEnd)
      | Path fnm =>
          match
            pyi_path_fopen_wb fnm
              (match (stat fnm (d_world d1)).2 with
               | Some _ =>
                   warn (exists_warning fnm)
                     (set_world (stat fnm (d_world d1)).1 d1)
               | None => set_world (stat fnm (d_world d1)).1 d1
               end)
          with
          | (d4, Some f) => (d4, Stream f)
          | (d4, None) => (d4, Null)
          end
      end.
Proof.
  unfold pyi_open_target.
  destruct (strncpy_fits path PATH_MAX PATH_MAX_pos) as [-> Hpath].
  destruct (strncpy_fits name_ PATH_MAX PATH_MAX_pos) as [-> Hname].
  case_bool_decide as Hp; [done|].
  case_bool_decide as Hn; [done|]. simpl.
  by rewrite Hpath, Hname by lia.
Qed.

(** The part of [pyi_open_target] after the loop. *)
Lemma open_target_finish (fnm : string) (d1 : disk) :
  let r :=
    pyi_path_fopen_wb fnm
      (match (stat fnm (d_world d1)).2 with
       | Some _ =>
           warn (exists_warning fnm)
             (set_world (stat fnm (d_world d1)).1 d1)
       | None => set_world (stat fnm (d_world d1)).1 d1
       end) in
  (d_mode r.1 = d_mode d1 ∧ d_room r.1 = d_room d1
   ∧ w_env (d_world r.1) = w_env (d_world d1))
  ∧ d_warnings r.1
    = d_warnings d1
      ++ match lookup_node (resolve fnm) (d_fs d1) with
         | Some _ => [exists_warning fnm]
         | None => []
         end
  ∧ (∀ k x, d_fs d1 !! k = Some x → d_fs r.1 !! k = Some x)
  ∧ (∀ k, d_fs d1 !! k = None → is_Some (d_fs r.1 !! k) →
          k = resolve fnm)
  ∧ (∀ k, k ≠ resolve fnm → d_data r.1 !! k = d_data d1 !! k)
  ∧ (∀ f, r.2 = Some f →
          f = {| out_path := fnm; out_error := false |}
          ∧ d_fs r.1 !! resolve fnm = Some KFile
          ∧ contents (resolve fnm) r.1 = [])
  ∧ (names_fit (resolve fnm) →
     lookup_node (removelast (resolve fnm)) (d_fs d1) = Some KDir →
     lookup_node (resolve fnm) (d_fs d1) ≠ Some KDir →
     is_Some r.2).
Proof.
  set (d2 := match (stat fnm (d_world d1)).2 with
             | Some _ => _
             | None => _
             end).
  assert (d_fs d2 = d_fs d1 ∧ d_data d2 = d_data d1
          ∧ d_mode d2 = d_mode d1 ∧ d_room d2 = d_room d1
          ∧ w_env (d_world d2) = w_env (d_world d1)
          ∧ d_warnings d2
            = d_warnings d1
              ++ match lookup_node (resolve fnm) (d_fs d1) with
                 | Some _ => [exists_warning fnm]
                 | None => []
                 end)
    as (Hfs & Hdata & Hmode & Hroom & Henv & Hwarn).
  { subst d2. unfold stat, d_fs. simpl.
    destruct (lookup_node (resolve fnm) (w_fs (d_world d1))); simpl;
      by rewrite ?app_nil_r. }
  clearbody d2. intros r. subst r. unfold pyi_path_fopen_wb.
  destruct (fopen_wb_spec fnm d2)
    as ((Hm & Hr & Hw & He) & Hmono & Hnew & Hframe & Hpath & Hok).
  rewrite Hfs, ?Hdata in *.
  split_and!; try done; try congruence.
Qed.

Lemma take_prefix_of (i : nat) (l : list string) : take i l `prefix_of` l.
Proof. exists (drop i l). by rewrite take_drop. Qed.

(** What [pyi_open_target] does, for names that fit their buffers. *)
Lemma pyi_open_target_spec (path name_ : string) (d : disk) :
  strlen path < PATH_MAX → strlen name_ < PATH_MAX →
  let tokens := strtok_all name_ in
  let K := resolve path in
  let fnm := assemble path tokens in
  let r := pyi_open_target PATH_MAX path name_ d in
  r.2 ≠ WritesPastEnd
  ∧ (tokens ≠ [] → PATH_MAX - 1 ≤ strlen fnm → r.2 = Null)
  ∧ (∀ f, r.2 = Stream f →
          f = {| out_path := fnm; out_error := false |}
          ∧ strlen fnm < PATH_MAX
          ∧ d_fs r.1 !! (K ++ tokens) = Some KFile
          ∧ contents (K ++ tokens) r.1 = [])
  ∧ (d_mode r.1 = d_mode d ∧ d_room r.1 = d_room d
     ∧ w_env (d_world r.1) = w_env (d_world d))
  ∧ (∀ k x, d_fs d !! k = Some x → d_fs r.1 !! k = Some x)
  ∧ (∀ k, d_fs d !! k = None → is_Some (d_fs r.1 !! k) →
          K `prefix_of` k ∧ k `prefix_of` K ++ tokens)
  ∧ (∀ k, k ≠ K ++ tokens → d_data r.1 !! k = d_data d !! k)
  ∧ (tokens ≠ [] → strlen fnm < PATH_MAX - 1 →
     names_fit (K ++ tokens) →
     lookup_node K (d_fs d) = Some KDir →
     (∀ i, (1 ≤ i < length tokens)%nat →
           d_fs d !! (K ++ take i tokens) ≠ Some KFile) →
     d_fs d !! (K ++ tokens) ≠ Some KDir →
     r.2 = Stream {| out_path := fnm; out_error := false |}
     ∧ (∀ i, (i < length tokens)%nat →
             lookup_node (K ++ take i tokens) (d_fs r.1) = Some KDir)
     ∧ d_warnings r.1
       = d_warnings d
         ++ match d_fs d !! (K ++ tokens) with
            | Some _ => [exists_warning fnm]
            | None => []
            end).
Proof.
  intros Hpath Hname tokens K fnm r. subst r.
  rewrite pyi_open_target_copied.
  rewrite !bool_decide_eq_false_2 by lia. simpl orb. cbv iota.
  pose proof (strtok_all_names name_) as Hnames. fold tokens in Hnames.
  assert (resolve fnm = K ++ tokens) as Hres
    by (by apply resolve_assemble).
  fold tokens.
  destruct tokens as [|dir rest] eqn:Htokens.
  - (* no token: the path itself is opened *)
    change fnm with path in *. rewrite app_nil_r in *.
    destruct (open_target_finish path d)
      as ((Hm & Hr & He) & Hw & Hmono & Hnew & Hdata & Hout & _).
    set (o := pyi_path_fopen_wb path _) in *. clearbody o.
    destruct o as [d4 [f|]]; simpl in *.
    + split_and!; try done.
      * intros f' [= <-]. destruct (Hout f eq_refl) as (? & ? & ?).
        split_and!; [done | lia | done | done].
      * intros k Hk Hs. by rewrite (Hnew k Hk Hs).
    + split_and!; try done.
      intros k Hk Hs. by rewrite (Hnew k Hk Hs).
  - destruct (open_target_loop_spec PATH_MAX rest dir path d Hnames)
      as (Hloop & Hsame & Hmono1 & Hnew1 & Hdirs1).
    fold fnm in Hloop.
    set (r1 := open_target_loop PATH_MAX dir rest path (strlen path) d)
      in *.
    destruct r1 as [d1 a1]. simpl in Hloop, Hsame, Hmono1, Hnew1, Hdirs1.
    destruct Hsame as (Hdata1 & Hmode1 & Hroom1 & Hwarn1 & Henv1).
    assert (∀ k, d_fs d !! k = None → is_Some (d_fs d1 !! k) →
                 d_fs d1 !! k = Some KDir
                 ∧ K `prefix_of` k ∧ k `prefix_of` K ++ dir :: rest
                 ∧ k ≠ K ++ dir :: rest) as Hnew1'.
    { intros k Hk Hs. destruct (Hnew1 k Hk Hs) as (Hkind & i & Hi & ->).
      split_and!; [done | by eexists | |].
      - apply prefix_app, take_prefix_of.
      - intros Heq%(f_equal length). subst K.
        rewrite !length_app, length_take in Heq. simpl in Heq, Hi. lia. }
    case_bool_decide as Hfit; subst a1.
    2: { (* the path is too long *)
      simpl. split_and!; try done.
      all: try (intros k Hk Hs;
                by destruct (Hnew1' k Hk Hs) as (_ & ? & ? & _)).
      all: try (intros k _; by rewrite Hdata1).
      all: try (intros; lia). }
    destruct (open_target_finish fnm d1)
      as ((Hm & Hr & He) & Hw & Hmono & Hnew & Hdata & Hout & Hok).
    set (o := pyi_path_fopen_wb fnm _) in *. clearbody o.
    rewrite Hres in *.
    assert (∀ k x, d_fs d !! k = Some x → d_fs o.1 !! k = Some x)
      as Hmono'
      by (intros k x Hk; by apply Hmono, Hmono1).
    assert (∀ k, d_fs d !! k = None → is_Some (d_fs o.1 !! k) →
                 K `prefix_of` k ∧ k `prefix_of` K ++ dir :: rest)
      as Hnew'.
    { intros k Hk Hs.
      destruct (d_fs d1 !! k) as [x|] eqn:Hk1.
      - by destruct (Hnew1' k Hk) as (_ & ? & ? & _); [by eexists|].
      - rewrite (Hnew k Hk1 Hs). split; [by eexists | done]. }
    assert (∀ k, k ≠ K ++ dir :: rest → d_data o.1 !! k = d_data d !! k)
      as Hdata'
      by (intros k Hk; by rewrite Hdata, Hdata1).
    assert (dir :: rest ≠ [] → strlen fnm < PATH_MAX - 1 →
            names_fit (K ++ dir :: rest) →
            lookup_node K (d_fs d) = Some KDir →
            (∀ i, (1 ≤ i < length (dir :: rest))%nat →
                  d_fs d !! (K ++ take i (dir :: rest)) ≠ Some KFile) →
            d_fs d !! (K ++ dir :: rest) ≠ Some KDir →
            o.2 = Some {| out_path := fnm; out_error := false |}
            ∧ (∀ i, (i < length (dir :: rest))%nat →
                    lookup_node (K ++ take i (dir :: rest)) (d_fs o.1)
                    = Some KDir)
            ∧ d_warnings o.1
              = d_warnings d
                ++ match d_fs d !! (K ++ dir :: rest) with
                   | Some _ => [exists_warning fnm]
                   | None => []
                   end) as Hsuccess.
    { intros _ _ Hshort Hroot Hnofile Hnodir.
      assert (K ++ dir :: rest ≠ []) as Hne by (by destruct K).
      assert (d_fs d1 !! (K ++ dir :: rest) = d_fs d !! (K ++ dir :: rest))
        as Htarget.
      { destruct (d_fs d !! (K ++ dir :: rest)) as [x|] eqn:Hk.
        - by apply Hmono1.
        - destruct (d_fs d1 !! (K ++ dir :: rest)) as [x|] eqn:Hk1;
            [|done].
          by destruct (Hnew1' _ Hk) as (_ & _ & _ & ?); [by eexists|]. }
      assert (∀ i, (i ≤ length rest)%nat →
                   lookup_node (K ++ take i (dir :: rest)) (d_fs d1)
                   = Some KDir) as Hdirs.
      { apply Hdirs1; [done | done | | done].
        intros i Hi. apply Hnofile. simpl. lia. }
      destruct Hok as [f Ho].
      { done. }
      { rewrite removelast_app by done.
        rewrite removelast_firstn_len. simpl length. simpl Nat.pred.
        by apply Hdirs. }
      { rewrite lookup_node_nonroot, Htarget by done. done. }
      destruct (Hout f Ho) as (-> & _).
      split_and!; [done | |].
      - intros i Hi. apply (lookup_node_mono (d_fs d1)); [done|].
        apply Hdirs. simpl in Hi. lia.
      - rewrite Hw, Hwarn1, lookup_node_nonroot, Htarget by done. done. }
    clear Hok.
    destruct o as [d4 [f|]]; simpl in *.
    + split_and!; try done; try congruence.
      all: try (intros _ Hlong; lia).
      * intros f' [= <-]. destruct (Hout f eq_refl) as (? & ? & ?).
        split_and!; [done | lia | done | done].
      * intros Ht Hs Hshort Hroot Hnofile Hnodir.
        destruct (Hsuccess Ht Hs Hshort Hroot Hnofile Hnodir)
          as ([= ->] & Hrest). done.
    + split_and!; try done; try congruence.
      all: try (intros; lia).
      intros Ht Hs Hshort Hroot Hnofile Hnodir.
      by destruct (Hsuccess Ht Hs Hshort Hroot Hnofile Hnodir) as (? & _).
Qed.

End OpenTargetFacts.

(** X11: [pyi_open_target] never writes past the end of its buffer
    [fnm], whatever [path] and [name_] are.  It returns NULL, before any
    system call, when [path] or [name_] has [PATH_MAX] characters or
    more, and NULL when the assembled path would have [PATH_MAX - 1]
    characters or more.  The path it opens is [path] followed by the
    tokens of [name_], each after one separator (empty pieces of [name_]
    are dropped), and is shorter than [PATH_MAX]. *)
Theorem pyi_open_target_bounds (PATH_MAX : Z) (path name_ : string)
    (d : disk) :
  0 < PATH_MAX →
  let r := pyi_open_target PATH_MAX path name_ d in
  let fnm := assemble path (strtok_all name_) in
  r.2 ≠ WritesPastEnd
  ∧ (PATH_MAX ≤ strlen path ∨ PATH_MAX ≤ strlen name_ → r = (d, Null))
  ∧ (strtok_all name_ ≠ [] → PATH_MAX - 1 ≤ strlen fnm → r.2 = Null)
  ∧ (∀ f, r.2 = Stream f →
          f = {| out_path := fnm; out_error := false |}
          ∧ strlen fnm < PATH_MAX).
Proof.
  intros Hpos r fnm.
  destruct (decide (PATH_MAX ≤ strlen path ∨ PATH_MAX ≤ strlen name_))
    as [Hlong|Hfit].
  - assert (r = (d, Null)) as Hr.
    { subst r. rewrite pyi_open_target_copied by done.
      destruct Hlong.
      - by rewrite (bool_decide_eq_true_2 (PATH_MAX ≤ strlen path)).
      - rewrite (bool_decide_eq_true_2 (PATH_MAX ≤ strlen name_)) by done.
        by rewrite orb_true_r. }
    rewrite Hr. by split_and!.
  - destruct (pyi_open_target_spec PATH_MAX Hpos path name_ d)
      as (Hsafe & Hlong & Hstream & _); [lia | lia |].
    split_and!; [done | done | done |].
    intros f Hf. by destruct (Hstream f Hf) as (? & ? & _).
Qed.

(** A member of the archive extracted below the scratch directory. *)
Lemma pyi_open_target_bounds_witness :
  let r := pyi_open_target 4096 "/tmp/_MEIabc" "lib//python/os.pyc"
             scratch_disk in
  r.2 ≠ WritesPastEnd
  ∧ r.2 = Stream {| out_path := "/tmp/_MEIabc/lib/python/os.pyc";
                    out_error := false |}.
Proof.
  intros r.
  destruct (pyi_open_target_bounds 4096 "/tmp/_MEIabc" "lib//python/os.pyc"
              scratch_disk) as (Hsafe & _ & _ & Hstream); [lia|].
  split; [exact Hsafe|].
  destruct r.2 as [f| |] eqn:Hr.
  - destruct (Hstream f) as [-> _]; [exact Hr|]. reflexivity.
  - vm_compute in Hr. discriminate Hr.
  - vm_compute in Hr. discriminate Hr.
Defined.

(** X12: for a [path] and a [name_] that fit their buffers and hold no
    "." or ".." component, [pyi_open_target] removes no node and changes
    no kind; every node it adds lies on the way from [path] to the
    target, and only the contents of the target can change.  When, in
    addition, no component is longer than [NAME_MAX], [path] is a
    directory, no component on the way is a file and the target is not a
    directory, the call returns a stream for the target: every directory
    on the way exists afterwards, the target is a file with no contents
    (an existing target is truncated), and the warning is printed exactly
    when the target existed.  (The file system of the model is one of
    plain files and directories in which no call is refused for lack of
    permission.) *)
Theorem pyi_open_target_creates (PATH_MAX : Z) (path name_ : string)
    (d : disk) :
  0 < PATH_MAX →
  strlen path < PATH_MAX → strlen name_ < PATH_MAX →
  Forall proper_name (resolve path ++ strtok_all name_) →
  let tokens := strtok_all name_ in
  let K := resolve path in
  let fnm := assemble path tokens in
  let r := pyi_open_target PATH_MAX path name_ d in
  (∀ k x, d_fs d !! k = Some x → d_fs r.1 !! k = Some x)
  ∧ (∀ k, d_fs d !! k = None → is_Some (d_fs r.1 !! k) →
          K `prefix_of` k ∧ k `prefix_of` K ++ tokens)
  ∧ (∀ k, k ≠ K ++ tokens → d_data r.1 !! k = d_data d !! k)
  ∧ (d_mode r.1 = d_mode d ∧ d_room r.1 = d_room d)
  ∧ (tokens ≠ [] → strlen fnm < PATH_MAX - 1 →
     names_fit (K ++ tokens) →
     lookup_node K (d_fs d) = Some KDir →
     (∀ i, (1 ≤ i < length tokens)%nat →
           d_fs d !! (K ++ take i tokens) ≠ Some KFile) →
     d_fs d !! (K ++ tokens) ≠ Some KDir →
     r.2 = Stream {| out_path := fnm; out_error := false |}
     ∧ (∀ i, (i < length tokens)%nat →
             lookup_node (K ++ take i tokens) (d_fs r.1) = Some KDir)
     ∧ d_fs r.1 !! (K ++ tokens) = Some KFile
     ∧ contents (K ++ tokens) r.1 = []
     ∧ d_warnings r.1
       = d_warnings d
         ++ match d_fs d !! (K ++ tokens) with
            | Some _ => [exists_warning fnm]
            | None => []
            end).
Proof.
  intros Hpos Hpath Hname _ tokens K fnm r.
  destruct (pyi_open_target_spec PATH_MAX Hpos path name_ d Hpath Hname)
    as (_ & _ & Hstream & (Hmode & Hroom & _) & Hmono & Hnew & Hdata
        & Hsuccess).
  split_and!; try done.
  intros Ht Hfit Hshort Hroot Hnofile Hnodir.
  destruct (Hsuccess Ht Hfit Hshort Hroot Hnofile Hnodir)
    as (Hr & Hdirs & Hwarn).
  destruct (Hstream _ Hr) as (_ & _ & Hfile & Hempty).
  by split_and!.
Qed.

(** The directories lib and lib/python are made and os.pyc is created. *)
Lemma pyi_open_target_creates_witness :
  let r := pyi_open_target 4096 "/tmp/_MEIabc" "lib/python/os.pyc"
             scratch_disk in
  d_fs r.1 !! ["tmp"; "_MEIabc"; "lib"; "python"]%string = Some KDir
  ∧ d_fs r.1 !! ["tmp"; "_MEIabc"; "lib"; "python"; "os.pyc"]%string
    = Some KFile
  ∧ d_fs r.1 !! ["opt"; "app"; "data.bin"]%string = Some KFile.
Proof.
  intros r.
  destruct (pyi_open_target_creates 4096 "/tmp/_MEIabc"
              "lib/python/os.pyc" scratch_disk)
    as (Hmono & _ & _ & _ & Hsuccess).
  - lia.
  - vm_compute. reflexivity.
  - vm_compute. reflexivity.
  - apply (bool_decide_unpack _). vm_compute. exact I.
  - assert (strtok_all "lib/python/os.pyc"
            = ["lib"; "python"; "os.pyc"]%string) as Htokens
      by (vm_compute; reflexivity).
    assert (resolve "/tmp/_MEIabc" = ["tmp"; "_MEIabc"]%string) as Hk
      by (vm_compute; reflexivity).
    rewrite Htokens, Hk in Hsuccess.
    destruct Hsuccess as (_ & Hdirs & Hfile & _).
    + discriminate.
    + vm_compute. reflexivity.
    + apply (bool_decide_unpack _). vm_compute. exact I.
    + vm_compute. reflexivity.
    + intros i Hi.
      destruct i as [|[|[|i]]]; [simpl in Hi; lia | | | simpl in Hi; lia];
        vm_compute; discriminate.
    + vm_compute. discriminate.
    + assert (2 < 3)%nat as H23 by lia.
      pose proof (Hdirs 2%nat H23) as Hpython.
      change (["tmp"; "_MEIabc"]%string
              ++ take 2 ["lib"; "python"; "os.pyc"]%string)
        with ["tmp"; "_MEIabc"; "lib"; "python"]%string in Hpython.
      change (["tmp"; "_MEIabc"]%string ++ ["lib"; "python"; "os.pyc"]%string)
        with ["tmp"; "_MEIabc"; "lib"; "python"; "os.pyc"]%string in Hfile.
      rewrite lookup_node_nonroot in Hpython by discriminate.
      split; [exact Hpython|].
      split; [exact Hfile|].
      apply Hmono. vm_compute. reflexivity.
Defined.

(** *** Copying in blocks *)

Lemma BLOCK_pos : (0 < BLOCK)%nat.
Proof. unfold BLOCK. lia. Qed.

Lemma block_div_succ (len n : nat) :
  (len / BLOCK)%nat = S n →
  (BLOCK ≤ len)%nat ∧ ((len - BLOCK) / BLOCK)%nat = n.
Proof.
  pose proof BLOCK_pos as Hpos. intros Hdiv.
  assert (BLOCK ≤ len)%nat as Hle.
  { destruct (le_lt_dec BLOCK len) as [|Hlt]; [done|].
    rewrite Nat.div_small in Hdiv by done. done. }
  split; [done|].
  replace len with ((len - BLOCK) + 1 * BLOCK)%nat in Hdiv by lia.
  rewrite Nat.div_add in Hdiv by lia. lia.
Qed.

Lemma block_div_zero (len : nat) :
  (len / BLOCK)%nat = 0%nat → (len < BLOCK)%nat.
Proof.
  pose proof BLOCK_pos as Hpos. intros Hdiv.
  by apply Nat.div_small_iff in Hdiv; [|lia].
Qed.

Lemma to_size_t_minus_one : to_size_t (-1) ≠ 0 ∧ to_size_t (-1) ≠ 1.
Proof. by vm_compute. Qed.

Lemma contents_written (k : list string) (v : list Byte.byte)
    (room : nat) (d : disk) :
  contents k (set_room room (set_data (<[k := v]> (d_data d)) d)) = v.
Proof. unfold contents. cbn. by rewrite lookup_insert_eq. Qed.

Lemma data_written_ne (k k' : list string) (v : list Byte.byte)
    (room : nat) (d : disk) :
  k' ≠ k →
  d_data (set_room room (set_data (<[k := v]> (d_data d)) d)) !! k'
  = d_data d !! k'.
Proof. intros Hne. cbn. by rewrite lookup_insert_ne. Qed.

Section CopyFacts.
Variable PATH_MAX : Z.

Lemma copy_loop_unfold (fuel : nat) (buf : list Byte.byte)
    (in_ : FILE_in) (out : FILE_out) (d : disk) :
  copy_loop (S fuel) buf in_ out d
  = if in_eof in_ then Done (d, 0)
    else
      if bool_decide ((fread_block buf in_ d).2 = to_size_t (-1)) then
        if in_error (fread_block buf in_ d).1.2 then Done (d, -1)
        else copy_loop fuel (fread_block buf in_ d).1.1
               (fread_block buf in_ d).1.2 out d
      else
        let w := fwrite_block (fread_block buf in_ d).1.1 out d in
        if bool_decide (to_int w.2 ≤ 0) || out_error w.1.2
        then Done (w.1.1, -1)
        else copy_loop fuel (fread_block buf in_ d).1.1
               (fread_block buf in_ d).1.2 w.1.2 w.1.1.
Proof.
  simpl. destruct (in_eof in_); [done|].
  destruct (fread_block buf in_ d) as [[buf1 in1] n]. simpl.
  case_bool_decide; [done|].
  by destruct (fwrite_block buf1 out d) as [[d1 out1] m].
Qed.

(** [fread] returns 0 or 1, never [(size_t) -1]. *)
Lemma fread_block_count (buf : list Byte.byte) (f : FILE_in) (d : disk) :
  (fread_block buf f d).2 = 0 ∨ (fread_block buf f d).2 = 1.
Proof.
  unfold fread_block.
  destruct (lookup_node _ _) as [[|]|]; simpl; auto.
  case_bool_decide; simpl; auto.
Qed.

Lemma fread_block_file (buf : list Byte.byte) (f : FILE_in) (d : disk) :
  lookup_node (resolve (in_path f)) (d_fs d) = Some KFile →
  length buf = BLOCK →
  let data := contents (resolve (in_path f)) d in
  let left := (length data - in_pos f)%nat in
  fread_block buf f d
  = if bool_decide (BLOCK ≤ left)%nat
    then (take BLOCK (drop (in_pos f) data),
          {| in_path := in_path f; in_pos := (in_pos f + BLOCK)%nat;
             in_eof := in_eof f; in_error := in_error f |}, 1)
    else (drop (in_pos f) data ++ drop left buf,
          {| in_path := in_path f; in_pos := (in_pos f + left)%nat;
             in_eof := true; in_error := in_error f |}, 0).
Proof.
  intros Hfile Hbuf data left. unfold fread_block. rewrite Hfile.
  fold data.
  assert (length (take BLOCK (drop (in_pos f) data))
          = Nat.min BLOCK left) as Hlen
    by (by rewrite length_take, length_drop).
  pose proof BLOCK_pos.
  destruct (decide (BLOCK ≤ left)%nat) as [Hfull|Hshort].
  - rewrite (bool_decide_eq_true_2 (BLOCK ≤ left)%nat) by done.
    rewrite Hlen, Nat.min_l by done.
    rewrite bool_decide_eq_true_2 by done.
    rewrite (drop_ge buf) by lia. by rewrite app_nil_r.
  - rewrite (bool_decide_eq_false_2 (BLOCK ≤ left)%nat) by done.
    rewrite Hlen, Nat.min_r by lia.
    rewrite bool_decide_eq_false_2 by lia.
    rewrite take_ge by (rewrite length_drop; fold left; lia). done.
Qed.

Lemma fwrite_block_room (buf : list Byte.byte) (out : FILE_out)
    (d : disk) :
  out_error out = false →
  fwrite_block buf out d
  = if bool_decide (BLOCK ≤ d_room d)%nat
    then (set_room (d_room d - BLOCK)
            (set_data
               (<[resolve (out_path out)
                  := contents (resolve (out_path out)) d ++ take BLOCK buf]>
                  (d_data d)) d), out, 1)
    else (d, {| out_path := out_path out; out_error := true |}, 0).
Proof. done. Qed.

(** The loop on a regular file: every block read is written, and the
    last, incomplete block is written with what the buffer held. *)
Lemma copy_loop_file (src : string) (out : FILE_out) (n : nat) :
  ∀ fuel buf in_ d,
    in_path in_ = src → in_eof in_ = false →
    lookup_node (resolve src) (d_fs d) = Some KFile →
    resolve (out_path out) ≠ resolve src →
    out_error out = false →
    length buf = BLOCK →
    ((length (contents (resolve src) d) - in_pos in_) / BLOCK)%nat = n →
    (BLOCK * (n + 1) ≤ d_room d)%nat →
    (n + 2 ≤ fuel)%nat →
    ∃ d' pad,
      copy_loop fuel buf in_ out d = Done (d', 0)
      ∧ contents (resolve (out_path out)) d'
        = contents (resolve (out_path out)) d
          ++ drop (in_pos in_) (contents (resolve src) d) ++ pad
      ∧ length (drop (in_pos in_) (contents (resolve src) d) ++ pad)
        = (BLOCK * (n + 1))%nat
      ∧ d_world d' = d_world d
      ∧ (∀ k, k ≠ resolve (out_path out) → d_data d' !! k = d_data d !! k)
      ∧ d_mode d' = d_mode d
      ∧ d_warnings d' = d_warnings d.
Proof.
  pose proof BLOCK_pos as Hpos.
  pose proof to_size_t_minus_one as [Hm0 Hm1].
  induction n as [|n IH];
    intros fuel buf in_ d Hsrc Heof Hfile Hne Herr Hbuf Hdiv Hroom Hfuel.
  - (* less than a block is left *)
    apply block_div_zero in Hdiv.
    destruct fuel as [|[|fuel]]; [lia | lia |].
    set (data := contents (resolve src) d) in *.
    set (left := (length data - in_pos in_)%nat) in *.
    assert (fread_block buf in_ d
            = (drop (in_pos in_) data ++ drop left buf,
               {| in_path := in_path in_;
                  in_pos := (in_pos in_ + left)%nat;
                  in_eof := true; in_error := in_error in_ |}, 0))
      as Hread.
    { rewrite (fread_block_file buf in_ d) by (by rewrite ?Hsrc).
      rewrite Hsrc. fold data left.
      by rewrite bool_decide_eq_false_2 by lia. }
    rewrite copy_loop_unfold, Heof, Hread.
    cbn [fst snd]. rewrite bool_decide_eq_false_2 by done.
    rewrite (fwrite_block_room _ out d Herr).
    rewrite (bool_decide_eq_true_2 (BLOCK ≤ d_room d)%nat) by lia.
    cbn [fst snd]. change (to_int 1) with 1.
    rewrite bool_decide_eq_false_2 by lia. rewrite Herr. simpl orb.
    cbv iota. rewrite copy_loop_unfold. cbn [in_eof].
    exists (set_room (d_room d - BLOCK)
              (set_data
                 (<[resolve (out_path out)
                    := contents (resolve (out_path out)) d
                       ++ take BLOCK (drop (in_pos in_) data
                                      ++ drop left buf)]> (d_data d)) d)),
           (drop left buf).
    assert (length (drop (in_pos in_) data ++ drop left buf) = BLOCK)
      as Hlen.
    { rewrite length_app, !length_drop. fold left. lia. }
    split_and!; try done; try (rewrite Hlen; lia).
    + rewrite contents_written. by rewrite take_ge by lia.
    + intros k Hk. by apply data_written_ne.
  - (* a whole block *)
    apply block_div_succ in Hdiv as [Hle Hdiv].
    destruct fuel as [|fuel]; [lia|].
    set (data := contents (resolve src) d) in *.
    set (chunk := take BLOCK (drop (in_pos in_) data)).
    assert (fread_block buf in_ d
            = (chunk,
               {| in_path := in_path in_;
                  in_pos := (in_pos in_ + BLOCK)%nat;
                  in_eof := in_eof in_; in_error := in_error in_ |}, 1))
      as Hread.
    { rewrite (fread_block_file buf in_ d) by (by rewrite ?Hsrc).
      rewrite Hsrc. fold data.
      by rewrite bool_decide_eq_true_2 by lia. }
    rewrite copy_loop_unfold, Heof, Hread.
    cbn [fst snd]. rewrite bool_decide_eq_false_2 by done.
    rewrite (fwrite_block_room _ out d Herr).
    rewrite (bool_decide_eq_true_2 (BLOCK ≤ d_room d)%nat) by lia.
    cbn [fst snd]. change (to_int 1) with 1.
    rewrite bool_decide_eq_false_2 by lia. rewrite Herr. simpl orb.
    cbv iota.
    assert (length chunk = BLOCK) as Hchunk.
    { subst chunk. rewrite length_take, length_drop. lia. }
    set (d1 := set_room (d_room d - BLOCK)
                 (set_data
                    (<[resolve (out_path out)
                       := contents (resolve (out_path out)) d
                          ++ take BLOCK chunk]> (d_data d)) d)).
    assert (contents (resolve src) d1 = data) as Hdata1.
    { unfold contents. subst d1. by rewrite data_written_ne. }
    destruct (IH fuel chunk
                {| in_path := in_path in_;
                   in_pos := (in_pos in_ + BLOCK)%nat;
                   in_eof := in_eof in_; in_error := in_error in_ |} d1)
      as (d' & pad & Hrun & Hout & Hlen & Hworld & Hframe & Hmode & Hwarn);
      try done.
    { rewrite Hdata1. cbn [in_pos]. rewrite <- Hdiv. f_equal. lia. }
    { subst d1. cbn [d_room set_room]. lia. }
    { lia. }
    exists d', pad. rewrite Hdata1 in *. cbn [in_pos] in *.
    assert (drop (in_pos in_) data
            = chunk ++ drop (in_pos in_ + BLOCK) data) as Hsplit.
    { subst chunk. rewrite <- (take_drop BLOCK (drop (in_pos in_) data))
        at 1.
      by rewrite drop_drop. }
    split_and!; try done.
    + rewrite Hout. subst d1. rewrite contents_written.
      rewrite (take_ge chunk) by lia.
      by rewrite Hsplit, <- !app_assoc.
    + rewrite Hsplit, <- app_assoc, length_app, Hlen, Hchunk. lia.
    + intros k Hk. rewrite Hframe by done. subst d1.
      by apply data_written_ne.
Qed.

(** The loop ends on every input: a block is written in every round,
    and a failed write ends it.  It reports an error only when a write
    has failed. *)
Lemma copy_loop_ends (out_path0 : string) (n : nat) :
  ∀ fuel buf in_ (out : FILE_out) d,
    out_path out = out_path0 → out_error out = false →
    (d_room d / BLOCK)%nat = n →
    (n + 2 ≤ fuel)%nat →
    ∃ d' e,
      copy_loop fuel buf in_ out d = Done (d', e)
      ∧ (e = 0 ∨ (e = -1 ∧ (d_room d' < BLOCK)%nat))
      ∧ d_world d' = d_world d
      ∧ (∀ k, k ≠ resolve out_path0 → d_data d' !! k = d_data d !! k)
      ∧ d_mode d' = d_mode d.
Proof.
  pose proof BLOCK_pos as Hpos.
  pose proof to_size_t_minus_one as [Hm0 Hm1].
  induction n as [|n IH]; intros fuel buf in_ out d Hpath Herr Hdiv Hfuel.
  all: destruct fuel as [|fuel]; [lia|].
  all: rewrite copy_loop_unfold.
  all: destruct (in_eof in_); [by exists d, 0; split_and!; auto|].
  all: rewrite bool_decide_eq_false_2
         by (destruct (fread_block_count buf in_ d) as [-> | ->]; done).
  all: rewrite (fwrite_block_room _ out d Herr).
  - apply block_div_zero in Hdiv.
    rewrite (bool_decide_eq_false_2 (BLOCK ≤ d_room d)%nat) by lia. cbn.
    exists d, (-1). split_and!; auto.
  - apply block_div_succ in Hdiv as [Hle Hdiv].
    rewrite (bool_decide_eq_true_2 (BLOCK ≤ d_room d)%nat) by lia.
    cbn [fst snd]. change (to_int 1) with 1.
    rewrite bool_decide_eq_false_2 by lia. rewrite Herr. simpl orb.
    cbv iota.
    set (d1 := set_room _ _).
    destruct (IH fuel (fread_block buf in_ d).1.1
                (fread_block buf in_ d).1.2 out d1)
      as (d' & e & Hrun & He & Hworld & Hframe & Hmode);
      [done | done | done | lia |].
    exists d', e. split_and!; try done.
    intros k Hk. rewrite Hframe by done. subst d1.
    apply data_written_ne. by rewrite Hpath.
Qed.

End CopyFacts.

Section CopyFileFacts.
Variable PATH_MAX : Z.
Hypothesis PATH_MAX_pos : 0 < PATH_MAX.

Lemma pyi_open_target_room (path name_ : string) (d : disk) :
  d_room (pyi_open_target PATH_MAX path name_ d).1 = d_room d
  ∧ (pyi_open_target PATH_MAX path name_ d).2 ≠ WritesPastEnd.
Proof.
  destruct (decide (PATH_MAX ≤ strlen path ∨ PATH_MAX ≤ strlen name_))
    as [Hlong|Hfit].
  - rewrite pyi_open_target_copied by done.
    destruct Hlong.
    + by rewrite (bool_decide_eq_true_2 (PATH_MAX ≤ strlen path)).
    + rewrite (bool_decide_eq_true_2 (PATH_MAX ≤ strlen name_)) by done.
      by rewrite orb_true_r.
  - destruct (pyi_open_target_spec PATH_MAX PATH_MAX_pos path name_ d)
      as (Hsafe & _ & _ & (_ & Hroom & _) & _); [lia | lia |].
    done.
Qed.

(** A stream that [pyi_open_target] returns is a stream for the target,
    which is then a file without contents. *)
Lemma pyi_open_target_stream (path name_ : string) (d : disk)
    (out : FILE_out) :
  (pyi_open_target PATH_MAX path name_ d).2 = Stream out →
  let T := resolve path ++ strtok_all name_ in
  let d1 := (pyi_open_target PATH_MAX path name_ d).1 in
  resolve (out_path out) = T ∧ out_error out = false
  ∧ d_fs d1 !! T = Some KFile ∧ contents T d1 = []
  ∧ (∀ k x, d_fs d !! k = Some x → d_fs d1 !! k = Some x)
  ∧ (∀ k, k ≠ T → d_data d1 !! k = d_data d !! k)
  ∧ d_mode d1 = d_mode d ∧ d_room d1 = d_room d.
Proof.
  intros Hstream T d1. subst d1.
  destruct (decide (PATH_MAX ≤ strlen path ∨ PATH_MAX ≤ strlen name_))
    as [Hlong|Hfit].
  { exfalso. rewrite pyi_open_target_copied in Hstream by done.
    destruct Hlong.
    - by rewrite (bool_decide_eq_true_2 (PATH_MAX ≤ strlen path)) in Hstream.
    - rewrite (bool_decide_eq_true_2 (PATH_MAX ≤ strlen name_)) in Hstream
        by done.
      by rewrite orb_true_r in Hstream. }
  destruct (pyi_open_target_spec PATH_MAX PATH_MAX_pos path name_ d)
    as (_ & _ & Hs & (Hmode & Hroom & _) & Hmono & _ & Hdata & _);
    [lia | lia |].
  destruct (Hs out Hstream) as (-> & _ & Hfile & Hempty).
  split_and!; try done.
  apply resolve_assemble, strtok_all_names.
Qed.

End CopyFileFacts.

(** X13: [pyi_copy_file] writes whole blocks of 4096 bytes.  For a
    source that is a regular file of [n] bytes, with the target opened
    and room on the disk, the call returns 0 and the target holds the
    bytes of the source followed by padding up to the next multiple of
    4096 above [n]: it is always longer than the source, by a whole
    block when [n] is a multiple of 4096 (an empty source gives a target
    of 4096 bytes).  The source is unchanged and the target gets the
    permission bits 0700. *)
Theorem pyi_copy_file_pads (PATH_MAX : Z) (fuel : nat)
    (stack : list Byte.byte) (src dst filename : string) (d : disk)
    (out : FILE_out) :
  0 < PATH_MAX →
  length stack = BLOCK →
  lookup_node (resolve src) (d_fs d) = Some KFile →
  (pyi_open_target PATH_MAX dst filename d).2 = Stream out →
  resolve src ≠ resolve dst ++ strtok_all filename →
  (BLOCK * (length (contents (resolve src) d) / BLOCK + 1) ≤ d_room d)%nat →
  (length (contents (resolve src) d) / BLOCK + 2 ≤ fuel)%nat →
  ∃ d' pad,
    pyi_copy_file PATH_MAX fuel stack src dst filename d = Done (d', 0)
    ∧ contents (resolve dst ++ strtok_all filename) d'
      = contents (resolve src) d ++ pad
    ∧ length (contents (resolve dst ++ strtok_all filename) d')
      = (BLOCK * (length (contents (resolve src) d) / BLOCK + 1))%nat
    ∧ contents (resolve src) d' = contents (resolve src) d
    ∧ d_mode d' !! (resolve dst ++ strtok_all filename) = Some 448.
Proof.
  intros Hpos Hstack Hfile Hstream Hne Hroom Hfuel.
  destruct (pyi_open_target_stream PATH_MAX Hpos dst filename d out
              Hstream)
    as (Hout & Herr & Htarget & Hempty & Hmono & Hdata & Hmode & Hroom1).
  set (T := resolve dst ++ strtok_all filename) in *.
  unfold pyi_copy_file, pyi_path_fopen_rb, fopen_rb. rewrite Hfile.
  destruct (pyi_open_target PATH_MAX dst filename d) as [d1 o].
  cbn [fst snd] in *. subst o.
  assert (resolve src ≠ []) as Hnonroot.
  { intros Hroot. rewrite Hroot in Hfile. done. }
  assert (contents (resolve src) d1 = contents (resolve src) d) as Hsame.
  { unfold contents. by rewrite Hdata. }
  destruct (copy_loop_file src out
              (length (contents (resolve src) d) / BLOCK) fuel stack
              {| in_path := src; in_pos := 0; in_eof := false;
                 in_error := false |} d1)
    as (d2 & pad & Hrun & Hcontents & Hlen & Hworld & Hframe & Hmode2 & _).
  { done. }
  { done. }
  { rewrite lookup_node_nonroot by done. apply Hmono.
    by rewrite lookup_node_nonroot in Hfile. }
  { by rewrite Hout. }
  { done. }
  { done. }
  { cbn [in_pos]. by rewrite Hsame, Nat.sub_0_r. }
  { by rewrite Hroom1. }
  { done. }
  cbn [in_pos] in *. rewrite Hsame, drop_0, Hout, Hempty in *.
  rewrite app_nil_l in Hcontents.
  rewrite Hrun. cbn [obind].
  exists (fchmod out (Z.lor (Z.lor S_IRUSR S_IWUSR) S_IXUSR) d2), pad.
  split_and!.
  - done.
  - exact Hcontents.
  - change (contents T (fchmod out _ d2)) with (contents T d2).
    by rewrite Hcontents.
  - change (contents (resolve src) (fchmod out _ d2))
      with (contents (resolve src) d2).
    unfold contents in *. rewrite Hframe by done. done.
  - unfold fchmod. cbn [d_mode set_mode]. rewrite Hout.
    by rewrite lookup_insert_eq.
Qed.

(** Two bytes are copied: the target holds a whole block. *)
Lemma pyi_copy_file_pads_witness :
  ∃ d' pad,
    pyi_copy_file 4096 3 (replicate BLOCK Byte.x00) "/opt/app/data.bin"
      "/tmp/_MEIabc" "data.bin" scratch_disk = Done (d', 0)
    ∧ contents (resolve "/tmp/_MEIabc" ++ strtok_all "data.bin") d'
      = contents (resolve "/opt/app/data.bin") scratch_disk ++ pad
    ∧ length (contents (resolve "/tmp/_MEIabc" ++ strtok_all "data.bin") d')
      = BLOCK.
Proof.
  destruct (pyi_copy_file_pads 4096 3 (replicate BLOCK Byte.x00)
              "/opt/app/data.bin" "/tmp/_MEIabc" "data.bin" scratch_disk
              {| out_path := "/tmp/_MEIabc/data.bin"; out_error := false |})
    as (d' & pad & Hrun & Hcontents & Hlen & _).
  - lia.
  - apply length_replicate.
  - vm_compute. reflexivity.
  - vm_compute. reflexivity.
  - vm_compute. discriminate.
  - apply Nat.leb_le. vm_compute. reflexivity.
  - apply Nat.leb_le. vm_compute. reflexivity.
  - exists d', pad. split; [exact Hrun|]. split; [exact Hcontents|].
    rewrite Hlen. vm_compute. reflexivity.
Defined.

(** X14: [pyi_copy_file] returns on every input, with 0 or -1.  It
    returns -1 only when the source or the target could not be opened or a
    write has failed: a failed read is not reported (the result of
    [fread] is never [-1]), and blocks are written until the end of the
    source is seen or a write fails.  The target is opened even when the
    source cannot be opened: a target that could be opened is then left
    as an empty file. *)
Theorem pyi_copy_file_ends (PATH_MAX : Z) (fuel : nat)
    (stack : list Byte.byte) (src dst filename : string) (d : disk) :
  0 < PATH_MAX →
  (d_room d / BLOCK + 2 ≤ fuel)%nat →
  let opened := pyi_open_target PATH_MAX dst filename d in
  ∃ d' e,
    pyi_copy_file PATH_MAX fuel stack src dst filename d = Done (d', e)
    ∧ (e = 0 ∨ e = -1)
    ∧ (e = -1 →
       pyi_path_fopen_rb src d = None
       ∨ (∀ out, opened.2 ≠ Stream out)
       ∨ (d_room d' < BLOCK)%nat)
    ∧ (pyi_path_fopen_rb src d = None →
       e = -1 ∧ d' = opened.1
       ∧ ∀ out, opened.2 = Stream out →
           d_fs d' !! (resolve dst ++ strtok_all filename) = Some KFile
           ∧ contents (resolve dst ++ strtok_all filename) d' = []).
Proof.
  intros Hpos Hfuel opened.
  destruct (pyi_open_target_room PATH_MAX Hpos dst filename d)
    as [Hroom Hsafe].
  assert (∀ out, opened.2 = Stream out →
            d_fs opened.1 !! (resolve dst ++ strtok_all filename)
            = Some KFile
            ∧ contents (resolve dst ++ strtok_all filename) opened.1 = []
            ∧ out_error out = false) as Hstream.
  { intros out Hout.
    by destruct (pyi_open_target_stream PATH_MAX Hpos dst filename d out
                   Hout) as (_ & ? & ? & ? & _). }
  unfold pyi_copy_file. subst opened.
  destruct (pyi_open_target PATH_MAX dst filename d) as [d1 o].
  cbn [fst snd] in *.
  destruct o as [out| |]; [| |done].
  - destruct (pyi_path_fopen_rb src d) as [in_|] eqn:Hin.
    + destruct (Hstream out eq_refl) as (_ & _ & Herr).
      destruct (copy_loop_ends (out_path out) (d_room d1 / BLOCK) fuel
                  stack in_ out d1)
        as (d2 & e & Hrun & He & _); [done | done | done | |].
      { by rewrite Hroom. }
      rewrite Hrun. cbn [obind].
      eexists _, e. split; [done|].
      split_and!.
      * destruct He as [?|[? _]]; auto.
      * intros ->. destruct He as [?|[_ ?]]; [done|]. by right; right.
      * done.
    + exists d1, (-1). split_and!; auto.
      intros _. split_and!; [done | done |].
      intros out' [= <-]. by destruct (Hstream out eq_refl) as (? & ? & _).
  - exists d1, (-1).
    assert (∀ out, Null ≠ Stream out) as Hnull by done.
    destruct (pyi_path_fopen_rb src d);
      split_and!; auto; try done.
Qed.

(** The source is missing: -1 is returned and the target is left as an
    empty file. *)
Lemma pyi_copy_file_ends_witness :
  ∃ d',
    pyi_copy_file 4096 6 (replicate BLOCK Byte.x00) "/opt/app/missing"
      "/tmp/_MEIabc" "data.bin" scratch_disk = Done (d', -1)
    ∧ d_fs d' !! (resolve "/tmp/_MEIabc" ++ strtok_all "data.bin")
      = Some KFile.
Proof.
  destruct (pyi_copy_file_ends 4096 6 (replicate BLOCK Byte.x00)
              "/opt/app/missing" "/tmp/_MEIabc" "data.bin" scratch_disk)
    as (d' & e & Hrun & _ & _ & Hmissing).
  - lia.
  - apply Nat.leb_le. vm_compute. reflexivity.
  - destruct Hmissing as (-> & _ & Hfile); [vm_compute; reflexivity|].
    exists d'. split; [exact Hrun|].
    apply (Hfile {| out_path := "/tmp/_MEIabc/data.bin";
                    out_error := false |}).
    vm_compute. reflexivity.
Defined.

(** * The removal with symbolic links and bounded buffers *)

(** ** Paths in a world without links *)

Lemma absolute_nonempty (p : string) :
  Links.absolute p = true → p ≠ EmptyString.
Proof. by destruct p. Qed.

Lemma absolute_append (p s : string) :
  Links.absolute p = true → Links.absolute (p +:+ s) = true.
Proof. by destruct p. Qed.

Lemma last_char_append (a n : string) :
  n ≠ EmptyString → last_char (a +:+ n) = last_char n.
Proof.
  intros Hn. induction a as [|c a IH]; [done|].
  rewrite append_cons. simpl. rewrite IH.
  destruct (a +:+ n)%string eqn:Han; [|done].
  by destruct a, n.
Qed.

(** A name without a separator does not end with one. *)
Lemma entry_name_last_char (n : string) :
  entry_name n → last_char n ≠ Some PYI_SEP.
Proof.
  intros [Hne Hn] Hl. destruct (last_char_sep n Hl) as [a ->].
  change (a +:+ PYI_SEPSTR)%string
    with (a +:+ String PYI_SEP EmptyString)%string in Hn.
  rewrite split_sep_app in Hn. simpl in Hn.
  pose proof (split_sep_nonempty a).
  destruct (split_sep a) as [|x [|y l]]; try done.
Qed.

Lemma proper_not_dots (n : string) :
  proper_name n → String.eqb n "." = false ∧ String.eqb n ".." = false.
Proof.
  intros (_ & Hd & Hdd & _).
  split; apply String.eqb_neq; done.
Qed.

Lemma entry_proper (n : string) :
  entry_name n → String.eqb n "." || String.eqb n ".." = false →
  proper_name n.
Proof.
  intros [Hne Hn] Hdots. apply orb_false_iff in Hdots as [Hd Hdd].
  apply String.eqb_neq in Hd, Hdd. by split_and!.
Qed.

Section PlainWalk.
Variable lw : Links.lworld.
Hypothesis lw_plain : Links.plain lw.

Lemma permitted_plain (bit : Z) (k : list string) :
  bit = S_IRUSR ∨ bit = S_IWUSR ∨ bit = S_IXUSR →
  Links.permitted bit k lw = true.
Proof.
  destruct lw_plain as [_ Hmode]. unfold Links.permitted. rewrite Hmode.
  rewrite lookup_empty. simpl.
  by intros [-> | [-> | ->]].
Qed.

(** Without links the walk follows the names. *)
Lemma walk_plain (follow : bool) (names : list string) :
  ∀ cur, Forall proper_name names →
    Links.walk lw follow cur names = Links.At (cur ++ names)
    ∨ Links.walk lw follow cur names = Links.Lost.
Proof.
  destruct lw_plain as [Hlinks _].
  induction names as [|c rest IH]; intros cur Hall; simpl.
  { left. by rewrite app_nil_r. }
  apply Forall_cons in Hall as [Hc Hall].
  rewrite permitted_plain by auto. simpl.
  destruct (proper_not_dots c Hc) as [-> ->].
  rewrite Hlinks, lookup_empty.
  destruct rest as [|r rest]; [by left|].
  destruct (Links.l_fs lw !! (cur ++ [c])) as [[|]|]; [by right | | by right].
  destruct (IH (cur ++ [c]) Hall) as [Hw|Hw]; rewrite Hw; [|by right].
  left. by rewrite <- app_assoc.
Qed.

Lemma walk_found (follow : bool) (names : list string) :
  fs_wf (Links.l_fs lw) →
  ∀ cur, Forall proper_name names →
    is_Some (Links.l_fs lw !! (cur ++ names)) →
    Links.walk lw follow cur names = Links.At (cur ++ names).
Proof.
  intros Hwf. destruct lw_plain as [Hlinks _].
  induction names as [|c rest IH]; intros cur Hall Hsome; simpl.
  { by rewrite app_nil_r. }
  apply Forall_cons in Hall as [Hc Hall].
  rewrite permitted_plain by auto. simpl.
  destruct (proper_not_dots c Hc) as [-> ->].
  rewrite Hlinks, lookup_empty.
  destruct rest as [|r rest]; [done|].
  rewrite (fs_wf_ancestor (Links.l_fs lw) (cur ++ [c]) (r :: rest));
    [| done | by destruct cur | done | by rewrite <- app_assoc].
  rewrite IH; [by rewrite <- app_assoc | done | by rewrite <- app_assoc].
Qed.

Lemma follow_links_plain (n : nat) (follow : bool)
    (cur names : list string) :
  Forall proper_name names →
  Links.follow_links n lw follow cur names
  = match Links.walk lw follow cur names with
    | Links.At k => Some k
    | _ => None
    end.
Proof.
  intros Hall.
  destruct (walk_plain follow names cur Hall) as [Hw|Hw];
    destruct n; simpl; by rewrite Hw.
Qed.

End PlainWalk.

(** ** The system calls on a world without links

    For an absolute path of proper names that fits, each call does what
    the call of the sections above does. *)

Lemma lift_plain (cwd : list string) (w : world) :
  Links.plain (Links.lift cwd w).
Proof. done. Qed.

Section SyscallLifts.
Variable PATH_MAX : Z.
Variable cwd : list string.
Variable w : world.
Variable p : string.
Hypothesis w_wf : fs_wf (w_fs w).
Hypothesis p_absolute : Links.absolute p = true.
Hypothesis p_fits : strlen p < PATH_MAX.
Hypothesis p_proper : Forall proper_name (resolve p).
Hypothesis p_names : names_fit (resolve p).

Lemma namei_lift (follow : bool) :
  Links.namei PATH_MAX follow p (Links.lift cwd w) = Some (resolve p)
  ∨ (Links.namei PATH_MAX follow p (Links.lift cwd w) = None
     ∧ lookup_node (resolve p) (w_fs w) = None).
Proof.
  unfold Links.namei.
  rewrite bool_decide_eq_false_2 by (by apply absolute_nonempty).
  rewrite bool_decide_eq_false_2 by lia.
  rewrite bool_decide_eq_true_2 by done.
  rewrite p_absolute.
  rewrite (follow_links_plain _ (lift_plain cwd w)) by done.
  destruct (walk_plain _ (lift_plain cwd w) follow (resolve p) [] p_proper)
    as [Hw|Hw]; rewrite Hw; [by left|].
  right. split; [done|].
  destruct (lookup_node (resolve p) (w_fs w)) as [x|] eqn:Hk; [|done].
  exfalso. unfold lookup_node in Hk. case_decide as Hroot.
  - rewrite Hroot in Hw. done.
  - rewrite (walk_found _ (lift_plain cwd w)) in Hw; try done.
Qed.

Lemma stat_lift :
  last_char p ≠ Some PYI_SEP →
  Links.stat PATH_MAX p (Links.lift cwd w)
  = (Links.lift cwd (stat p w).1, (stat p w).2).
Proof.
  intros Hlast. unfold Links.stat, stat.
  destruct (namei_lift true) as [->|[-> Hnone]]; simpl.
  - unfold Links.node_at. simpl. rewrite lookup_empty.
    change (Links.l_fs (Links.lift cwd w)) with (w_fs w).
    destruct (lookup_node (resolve p) (w_fs w)) as [[|]|]; try done.
    by rewrite bool_decide_eq_false_2.
  - by rewrite Hnone.
Qed.

Lemma unlink_lift :
  last_char p ≠ Some PYI_SEP →
  Links.unlink PATH_MAX p (Links.lift cwd w)
  = Links.lift cwd (unlink p w).
Proof.
  intros Hlast. unfold Links.unlink, unlink.
  rewrite bool_decide_eq_false_2 by done.
  destruct (namei_lift false) as [->|[-> Hnone]].
  - rewrite (permitted_plain _ (lift_plain cwd w)) by auto. simpl.
    rewrite lookup_empty.
    change (Links.l_fs (Links.lift cwd w)) with (w_fs w).
    by destruct (w_fs w !! resolve p) as [[|]|].
  - apply lookup_node_None in Hnone. by rewrite Hnone.
Qed.

Lemma rmdir_lift :
  Links.rmdir PATH_MAX p (Links.lift cwd w) = Links.lift cwd (rmdir p w).
Proof.
  unfold Links.rmdir, rmdir.
  rewrite bool_decide_eq_false_2.
  2: { intros Hdots.
       assert (∀ n, last (resolve p) = Some n → proper_name n) as Hlast.
       { intros n Hn. apply last_Some in Hn as [l Hl].
         rewrite Hl, Forall_app, Forall_singleton in p_proper. tauto. }
       destruct Hdots as [Hd|Hd]; apply Hlast in Hd;
         destruct Hd as (_ & ? & ? & _); done. }
  destruct (namei_lift false) as [->|[-> Hnone]].
  - rewrite (permitted_plain _ (lift_plain cwd w)) by auto. simpl.
    rewrite lookup_empty.
    change (Links.l_fs (Links.lift cwd w)) with (w_fs w).
    destruct (w_fs w !! resolve p) as [[|]|]; try done.
    rewrite (bool_decide_eq_false_2 (map_Exists _ _)), orb_false_r.
    + by destruct (has_entries (resolve p) (w_fs w)).
    + intros (k & x & Hk & _). by rewrite lookup_empty in Hk.
  - apply lookup_node_None in Hnone. by rewrite Hnone.
Qed.

Lemma opendir_lift :
  Links.opendir PATH_MAX p (Links.lift cwd w)
  = match lookup_node (resolve p) (w_fs w) with
    | Some KDir =>
        (Links.lift cwd (log (SysOpendir p 0) w), Some (resolve p))
    | _ => (Links.lift cwd w, None)
    end.
Proof.
  unfold Links.opendir.
  destruct (namei_lift true) as [->|[-> Hnone]].
  - unfold Links.node_at. simpl. rewrite lookup_empty.
    change (Links.l_fs (Links.lift cwd w)) with (w_fs w).
    by destruct (lookup_node (resolve p) (w_fs w)) as [[|]|].
  - by rewrite Hnone.
Qed.

End SyscallLifts.

(** ** What a removal keeps *)

Lemma NAME_MAX_pos : 0 < NAME_MAX.
Proof. done. Qed.

Lemma named_lookup (fs : filesystem) (k : list string) (x : node_kind) :
  Links.named fs → fs !! k = Some x →
  Forall proper_name k ∧ names_fit k.
Proof.
  intros [Hwf Hfit] Hk. split.
  - by destruct (fs_wf_lookup _ _ _ Hwf Hk) as (? & _).
  - exact (Hfit k x Hk).
Qed.

Lemma named_sub (fs fs' : filesystem) :
  Links.named fs → fs_wf fs' →
  (∀ k, fs' !! k = None ∨ fs' !! k = fs !! k) →
  Links.named fs'.
Proof.
  intros [_ Hfit] Hwf' Hsub. split; [done|].
  intros k x Hk. apply (Hfit k x).
  destruct (Hsub k) as [?|<-]; congruence.
Qed.

Lemma has_room_sub (PATH_MAX : Z) (dir : string) (fs fs' : filesystem) :
  Links.has_room PATH_MAX dir fs →
  (∀ k, fs' !! k = None ∨ fs' !! k = fs !! k) →
  Links.has_room PATH_MAX dir fs'.
Proof.
  intros [Hdir Hall] Hsub. split; [done|].
  intros k x Hk. apply (Hall k x).
  destruct (Hsub k) as [?|<-]; congruence.
Qed.

Lemma strlen_with_sep (dir : string) :
  strlen dir ≤ strlen (with_sep dir) ≤ strlen dir + 1.
Proof.
  unfold with_sep. case_bool_decide; [|lia].
  rewrite strlen_strcat. change (strlen PYI_SEPSTR) with 1. lia.
Qed.

Lemma absolute_with_sep (dir n : string) :
  Links.absolute dir = true →
  Links.absolute (strcat (with_sep dir) n) = true.
Proof.
  intros Hdir. unfold with_sep, strcat.
  case_bool_decide; by repeat apply absolute_append.
Qed.

(** The directory [n] in [dir] has room when [dir] has. *)
Lemma has_room_child (PATH_MAX : Z) (dir n : string) (fs : filesystem) :
  Links.has_room PATH_MAX dir fs → entry_name n →
  fs !! (resolve dir ++ [n]) = Some KDir →
  Links.has_room PATH_MAX (strcat (with_sep dir) n) fs.
Proof.
  intros [Hdir Hall] Hn Hk.
  assert (resolve (strcat (with_sep dir) n) = resolve dir ++ [n]) as Hres
    by (by apply fnm_entry).
  split.
  - pose proof (Hall _ _ Hk) as Hroom. simpl in Hroom.
    rewrite (proj2 (drop_prefix_Some (resolve dir) _ [n])) in Hroom by done.
    by apply Hroom.
  - intros k x Hx. simpl. rewrite Hres.
    destruct (drop_prefix (resolve dir ++ [n]) k) as [names|] eqn:Hdrop;
      [|done].
    apply drop_prefix_Some in Hdrop as ->.
    pose proof (Hall _ _ Hx) as Hroom. simpl in Hroom.
    rewrite (proj2 (drop_prefix_Some (resolve dir) _ (n :: names)))
      in Hroom by (by rewrite <- app_assoc).
    exact Hroom.
Qed.

(** ** The removal on a world without links

    For paths that fit, the removal of this part runs as the removal of
    the sections above. *)

Section RemovalLifts.
Variable PATH_MAX : Z.
Variable cwd : list string.
Variable readdir_all :
  list string → filesystem → gmap (list string) string → list string.
Hypothesis readdir_names :
  ∀ d fs, fs_wf fs → Forall entry_name (readdir_all d fs ∅).
Hypothesis readdir_short :
  ∀ d fs, Links.named fs →
          Forall (λ n, strlen n ≤ NAME_MAX) (readdir_all d fs ∅).

Lemma remove_one_lift
    (recL : string → Links.lworld → outcome Links.lworld)
    (recP : string → world → outcome world) (dir : string) (fuel : nat) :
  (∀ sub w, Links.named (w_fs w) → Links.absolute sub = true →
     Links.has_room PATH_MAX sub (w_fs w) →
     w_fs w !! resolve sub = Some KDir →
     depth_ok (resolve sub) fuel (w_fs w) →
     recL sub (Links.lift cwd w) = Links.lifted cwd (recP sub w)) →
  Links.absolute dir = true →
  Forall proper_name (resolve dir) → names_fit (resolve dir) →
  ∀ n w, entry_name n → strlen n ≤ NAME_MAX →
    Links.named (w_fs w) → Links.has_room PATH_MAX dir (w_fs w) →
    depth_ok (resolve dir) (S fuel) (w_fs w) →
    Links.remove_one PATH_MAX recL (with_sep dir) (strlen (with_sep dir)) n
      (Links.lift cwd w)
    = Links.lifted cwd
        (remove_one recP (with_sep dir) (strlen (with_sep dir)) n w).
Proof.
  intros Hrec Habs Hproper Hfit n w Hn Hshort Hnamed Hroom Hdepth.
  unfold Links.remove_one, remove_one.
  destruct (String.eqb n "." || String.eqb n "..") eqn:Hdots; [done|].
  rewrite substring_strlen.
  set (path := strcat (with_sep dir) n).
  pose proof (strlen_with_sep dir) as Hsep.
  pose proof (strlen_nonneg n) as Hn0.
  destruct Hroom as [Hlen Hbelow].
  assert (strlen path < PATH_MAX) as Hpath.
  { subst path. rewrite strlen_strcat. lia. }
  assert (strcat_in (PATH_MAX + 1) (with_sep dir) n = Some path) as ->.
  { unfold strcat_in. rewrite bool_decide_eq_true_2; [done|].
    subst path. rewrite strlen_strcat in Hpath. lia. }
  assert (resolve path = resolve dir ++ [n]) as Hres
    by (by apply fnm_entry).
  pose proof (entry_proper n Hn Hdots) as Hpn.
  destruct Hnamed as [Hwf Hnames].
  rewrite (stat_lift PATH_MAX cwd w path); try done.
  2: { by apply absolute_with_sep. }
  2: { rewrite Hres. apply Forall_app. split; [done|].
       by apply Forall_singleton. }
  2: { rewrite Hres. apply Forall_app. split; [done|].
       by apply Forall_singleton. }
  2: { subst path. unfold strcat. rewrite last_char_append by apply Hn.
       by apply entry_name_last_char. }
  unfold stat. cbn [fst snd].
  set (w1 := log _ w).
  destruct (lookup_node (resolve path) (w_fs w)) as [[|]|] eqn:Hnode;
    cbn [S_ISDIR].
  - (* a file *)
    cbn [Links.lifted]. f_equal.
    apply (unlink_lift PATH_MAX cwd w1 path); try done.
    + by apply absolute_with_sep.
    + rewrite Hres. apply Forall_app. split; [done|].
      by apply Forall_singleton.
    + rewrite Hres. apply Forall_app. split; [done|].
      by apply Forall_singleton.
    + subst path. unfold strcat. rewrite last_char_append by apply Hn.
      by apply entry_name_last_char.
  - (* a directory *)
    rewrite Hres, lookup_node_nonroot in Hnode by (by destruct (resolve dir)).
    apply Hrec.
    + done.
    + by apply absolute_with_sep.
    + by apply has_room_child.
    + by rewrite Hres.
    + rewrite Hres. by apply depth_ok_child.
  - done.
Qed.

Lemma readdir_loop_lift
    (recL : string → Links.lworld → outcome Links.lworld)
    (recP : string → world → outcome world) (dir : string) (fuel : nat) :
  (∀ sub w, Links.named (w_fs w) → Links.absolute sub = true →
     Links.has_room PATH_MAX sub (w_fs w) →
     w_fs w !! resolve sub = Some KDir →
     depth_ok (resolve sub) fuel (w_fs w) →
     recL sub (Links.lift cwd w) = Links.lifted cwd (recP sub w)) →
  (∀ sub w, fs_wf (w_fs w) →
     w_fs w !! resolve sub = Some KDir →
     depth_ok (resolve sub) fuel (w_fs w) →
     ∃ w' tr, recP sub w = Done w'
              ∧ shrinks (λ k, resolve sub `prefix_of` k) w w' tr) →
  Links.absolute dir = true →
  Forall proper_name (resolve dir) → names_fit (resolve dir) →
  ∀ entries w, Forall entry_name entries →
    Forall (λ n, strlen n ≤ NAME_MAX) entries →
    Links.named (w_fs w) → Links.has_room PATH_MAX dir (w_fs w) →
    depth_ok (resolve dir) (S fuel) (w_fs w) →
    Links.readdir_loop
      (Links.remove_one PATH_MAX recL (with_sep dir) (strlen (with_sep dir)))
      entries (Links.lift cwd w)
    = Links.lifted cwd
        (readdir_loop
           (remove_one recP (with_sep dir) (strlen (with_sep dir)))
           entries w).
Proof.
  intros Hrec Hsafe Habs Hproper Hfit entries.
  induction entries as [|n entries IH];
    intros w Hnames Hshort Hnamed Hroom Hdepth; [done|].
  apply Forall_cons in Hnames as [Hn Hnames].
  apply Forall_cons in Hshort as [Hs Hshort].
  simpl.
  rewrite (remove_one_lift recL recP dir fuel) by done.
  destruct (remove_one_safe recP (resolve dir) (with_sep dir)
              (strlen (with_sep dir)) fuel Hsafe) with (fnm := n) (w := w)
    as (w1 & tr1 & Hrun1 & Hsh1); try done.
  { intros m Hm. rewrite substring_strlen. by apply fnm_entry. }
  { apply Hnamed. }
  rewrite Hrun1. cbn [Links.lifted obind].
  destruct Hsh1 as (Hwf1 & Hsub1 & _).
  apply IH; try done.
  - by apply (named_sub (w_fs w)).
  - by apply (has_room_sub PATH_MAX dir (w_fs w)).
  - by apply (depth_ok_shrink _ _ (w_fs w)).
Qed.

Lemma pyi_remove_temp_path_lift (fuel : nat) :
  ∀ dir w, Links.named (w_fs w) → Links.absolute dir = true →
    Links.has_room PATH_MAX dir (w_fs w) →
    w_fs w !! resolve dir = Some KDir →
    depth_ok (resolve dir) fuel (w_fs w) →
    Links.pyi_remove_temp_path PATH_MAX readdir_all fuel dir
      (Links.lift cwd w)
    = Links.lifted cwd (pyi_remove_temp_path (Links.without_links readdir_all) fuel dir w).
Proof.
  induction fuel as [|fuel IH]; intros dir w Hnamed Habs Hroom Hdir Hdepth;
    [done|].
  pose proof Hnamed as [Hwf _].
  destruct (named_lookup _ _ _ Hnamed Hdir) as [Hproper Hfit].
  assert (resolve dir ≠ []) as Hne
    by (apply (fs_wf_nonroot (w_fs w)); [done | by eexists]).
  pose proof Hroom as [Hlen _].
  pose proof (strlen_nonneg dir) as Hd0.
  pose proof NAME_MAX_pos as Hnm.
  assert (0 < PATH_MAX) as Hpos by lia.
  destruct (strncpy_fits dir PATH_MAX Hpos) as [Hcell Hcopy].
  simpl. rewrite Hcell, Hcopy by lia.
  rewrite bool_decide_eq_false_2 by lia.
  rewrite bool_decide_eq_false_2.
  2: { intros Hz. apply strlen_zero_iff in Hz.
       by apply absolute_nonempty in Habs. }
  rewrite lookup_node_nonroot, Hdir by done.
  rewrite (opendir_lift PATH_MAX cwd w dir) by (done || lia).
  rewrite lookup_node_nonroot, Hdir by done.
  set (w1 := log (SysOpendir dir 0) w).
  assert ((if bool_decide (last_char dir ≠ Some PYI_SEP)
           then (λ fnm, (fnm, strlen dir + 1))
                  <$> strcat_in (PATH_MAX + 1) dir PYI_SEPSTR
           else Some (dir, strlen dir))
          = Some (with_sep dir, strlen (with_sep dir))) as ->.
  { unfold with_sep.
    destruct (bool_decide (last_char dir ≠ Some PYI_SEP)); [|done].
    unfold strcat_in. change (strlen PYI_SEPSTR) with 1.
    rewrite bool_decide_eq_true_2 by lia. simpl.
    rewrite strlen_strcat. done. }
  assert ((if bool_decide (last_char dir ≠ Some PYI_SEP)
           then (strcat dir PYI_SEPSTR, strlen dir + 1)
           else (dir, strlen dir))
          = (with_sep dir, strlen (with_sep dir))) as ->.
  { unfold with_sep.
    destruct (bool_decide (last_char dir ≠ Some PYI_SEP)); [|done].
    by rewrite strlen_strcat. }
  change (Links.l_fs (Links.lift cwd w1)) with (w_fs w).
  change (Links.l_links (Links.lift cwd w1))
    with (∅ : gmap (list string) string).
  fold (Links.without_links readdir_all (resolve dir) (w_fs w)).
  assert (∀ sub w, fs_wf (w_fs w) →
            w_fs w !! resolve sub = Some KDir →
            depth_ok (resolve sub) fuel (w_fs w) →
            ∃ w' tr, pyi_remove_temp_path (Links.without_links readdir_all) fuel sub w
                     = Done w'
                     ∧ shrinks (λ k, resolve sub `prefix_of` k) w w' tr)
    as Hsafe.
  { intros sub w0. by apply pyi_remove_temp_path_safe. }
  rewrite (readdir_loop_lift
             (Links.pyi_remove_temp_path PATH_MAX readdir_all fuel)
             (pyi_remove_temp_path (Links.without_links readdir_all) fuel) dir fuel IH Hsafe);
    try done.
  2: { by apply readdir_names. }
  2: { by apply readdir_short. }
  destruct (readdir_loop_safe
              (pyi_remove_temp_path (Links.without_links readdir_all) fuel) (resolve dir)
              (with_sep dir) (strlen (with_sep dir)) fuel Hsafe) with
    (entries := Links.without_links readdir_all (resolve dir) (w_fs w))
    (w := w1)
    as (w2 & tr & Hrun & Hsh); try done.
  { intros n Hn. rewrite substring_strlen. by apply fnm_entry. }
  { by apply readdir_names. }
  rewrite Hrun. cbn [Links.lifted obind]. f_equal.
  destruct Hsh as (Hwf2 & _).
  apply rmdir_lift; done || lia.
Qed.

End RemovalLifts.

(** ** The removal of a tree *)



(** The file that the link leads to is gone after the call. *)
Lemma removal_through_a_link :
  ∃ lw',
    Links.pyi_remove_temp_path 4096 Links.readdir_entries 5 "/tmp/_MEIabc"
      Links.world_with_link = Done lw'
    ∧ Links.l_fs Links.world_with_link
        !! ["home"; "user"; "notes.txt"]%string = Some KFile
    ∧ Links.l_fs lw' !! ["home"; "user"; "notes.txt"]%string = None
    ∧ Links.l_fs lw' !! ["tmp"; "_MEIabc"]%string = Some KDir
    ∧ Links.l_links lw' !! ["tmp"; "_MEIabc"; "docs"]%string
      = Some "/home/user"%string.
Proof. eexists. vm_compute. repeat split. Qed.



(** X10: when [opendir] returns NULL ([dir] is empty, too long, missing,
    not a directory, or a directory that may not be read),
    [pyi_remove_temp_path dir] passes the NULL to [readdir]: the run
    ends there.  In a file system without symbolic links in which every
    call is permitted, and for an absolute [dir] with room for the paths
    built, the call on a directory stays inside [dir], whatever names
    [readdir] returns (the listings may be incomplete, or hold names
    that no longer exist): the call returns, no node outside [dir] is
    changed, no node is added or changes its kind, the environment is
    unchanged, and the nodes that are gone are those of the successful
    [unlink] and [rmdir] calls, each directory after the nodes removed
    below it. *)
Theorem pyi_remove_temp_path_stays_inside (PATH_MAX : Z)
    (readdir_all :
       list string → filesystem → gmap (list string) string → list string)
    (dir : string) (lw : Links.lworld) (fuel : nat) :
  (∀ d fs, fs_wf fs → Forall entry_name (readdir_all d fs ∅)) →
  (∀ d fs, Links.named fs →
           Forall (λ n, strlen n ≤ NAME_MAX) (readdir_all d fs ∅)) →
  (tree_fuel (Links.l_fs lw) ≤ fuel)%nat →
  ((Links.opendir PATH_MAX dir lw).2 = None →
   Links.pyi_remove_temp_path PATH_MAX readdir_all fuel dir lw = Crash)
  ∧ (Links.plain lw →
     Links.named (Links.l_fs lw) →
     Links.absolute dir = true →
     Links.l_fs lw !! resolve dir = Some KDir →
     Links.has_room PATH_MAX dir (Links.l_fs lw) →
     ∃ lw' tr,
       Links.pyi_remove_temp_path PATH_MAX readdir_all fuel dir lw
       = Done lw'
       ∧ Links.plain lw'
       ∧ w_trace (Links.l_world lw') = w_trace (Links.l_world lw) ++ tr
       ∧ w_env (Links.l_world lw') = w_env (Links.l_world lw)
       ∧ (∀ k, ¬ resolve dir `prefix_of` k →
               Links.l_fs lw' !! k = Links.l_fs lw !! k)
       ∧ (∀ k, Links.l_fs lw' !! k = None
               ∨ Links.l_fs lw' !! k = Links.l_fs lw !! k)
       ∧ (∀ k, k ∈ removed tr
               ↔ is_Some (Links.l_fs lw !! k) ∧ Links.l_fs lw' !! k = None)
       ∧ postorder (removed tr)).
Proof.
  intros Hnames Hshort Hfuel. split.
  - intros Hnull.
    destruct fuel as [|fuel]; [unfold tree_fuel in Hfuel; lia|].
    simpl.
    destruct (last_cell_used (strncpy dir PATH_MAX) PATH_MAX); [done|].
    case_bool_decide; [done|].
    destruct (if bool_decide _ then _ else _) as [[fnm dirnmlen]|]; [|done].
    by destruct (Links.opendir PATH_MAX dir lw) as [lw1 [ds|]].
  - intros Hplain Hnamed Habs Hdir Hroom.
    destruct lw as [w links mode cwd]. destruct Hplain as [Hl Hm].
    simpl in Hl, Hm. subst links mode.
    unfold Links.l_fs in Hnamed, Hdir, Hroom, Hfuel.
    cbn [Links.l_world] in Hnamed, Hdir, Hroom, Hfuel.
    fold (Links.lift cwd w).
    rewrite (pyi_remove_temp_path_lift PATH_MAX cwd readdir_all Hnames
               Hshort fuel dir w Hnamed Habs Hroom Hdir)
      by (by apply depth_ok_tree_fuel).
    destruct (pyi_remove_temp_path_safe (Links.without_links readdir_all)
                Hnames fuel dir w) as (w' & tr & -> & Hsh).
    + apply Hnamed.
    + done.
    + by apply depth_ok_tree_fuel.
    + destruct Hsh as (_ & Hsub & Hframe & He & _ & Ht & Hrm & Hpo).
      exists (Links.lift cwd w'), tr. by split_and!.
Qed.

(** A listing that leaves out the subdirectory [lib]: the file listed is
    removed, [lib] and the directory itself stay, and /tmp/other is not
    touched; and the empty path, for which [opendir] returns NULL. *)
Lemma pyi_remove_temp_path_stays_inside_witness :
  (∃ lw',
     Links.pyi_remove_temp_path 4096 Links.readdir_partial 5 "/tmp/_MEIabc"
       Links.world_with_tree = Done lw'
     ∧ Links.l_fs lw' !! ["tmp"; "other"]%string = Some KFile)
  ∧ Links.pyi_remove_temp_path 4096 Links.readdir_partial 5 EmptyString
      Links.world_with_tree = Crash.
Proof.
  assert (∀ d fs, fs_wf fs →
            Forall entry_name (Links.readdir_partial d fs ∅)) as Hnames.
  { intros d fs _.
    repeat (constructor; [split; [discriminate | reflexivity]|]).
    constructor. }
  assert (∀ d fs, Links.named fs →
            Forall (λ n, strlen n ≤ NAME_MAX) (Links.readdir_partial d fs ∅))
    as Hshort.
  { intros d fs _. repeat (constructor; [done|]). constructor. }
  assert (tree_fuel (Links.l_fs Links.world_with_tree) ≤ 5)%nat as Hfuel
    by (vm_compute; lia).
  split.
  - destruct (pyi_remove_temp_path_stays_inside 4096 Links.readdir_partial
                "/tmp/_MEIabc" Links.world_with_tree 5 Hnames Hshort Hfuel)
      as [_ Hin].
    destruct Hin as (lw' & tr & Hrun & _ & _ & _ & Hframe & _).
    + split; reflexivity.
    + apply (bool_decide_unpack _). vm_compute. exact I.
    + reflexivity.
    + vm_compute. reflexivity.
    + apply (bool_decide_unpack _). vm_compute. exact I.
    + exists lw'. split; [exact Hrun|].
      rewrite Hframe; [vm_compute; reflexivity|].
      apply (bool_decide_unpack _). vm_compute. exact I.
  - destruct (pyi_remove_temp_path_stays_inside 4096 Links.readdir_partial
                EmptyString Links.world_with_tree 5 Hnames Hshort Hfuel)
      as [Hnull _].
    apply Hnull. vm_compute. reflexivity.
Defined.
